(** * Process-wide runtime context: singleton registry, fork coordination,
      configuration observers, pid file, admin commands.

    Shallow embedding of
      - src/common/global/ceph_context.h   (CephContext)
      - src/common/global/ceph_context.cc  (notify_pre_fork, do_command)
      - src/common/global/config_obs_mgr.{h,cc} (ObserverMgr)
      - src/common/global/pidfile.cc       (pidfh)
    and the properties of the specification that concern them. *)

From Stdlib Require Import ZArith String Ascii List Bool Lia DecimalString
  DecimalPos.
From stdpp Require Import base gmap strings list fin_maps.

Open Scope string_scope.
Open Scope list_scope.

(** ** Faults and exceptions *)

(** Modelled from the spec: [ceph_assert], [ceph_assert_always],
    [ceph_abort] and [ceph_abort_msg] (include/ceph_assert.h, not among the
    sources).  They are the programming faults of the specification: a
    failed assertion or an abort terminates the process and cannot be
    recovered from.  Exceptions are kept apart: they unwind and can be
    caught by a caller. *)
Inductive fault : Type :=
  | AssertFailed              (* ceph_assert / ceph_assert_always *)
  | Aborted (msg : string).   (* ceph_abort / ceph_abort_msg *)

Inductive exn : Type :=
  | bad_any_cast              (* thrown by ceph::any_cast<T&> *)
  | bad_cmd_get.              (* thrown by cmd_getval on a type mismatch *)

Inductive outcome (A : Type) : Type :=
  | Ret (a : A)
  | Throw (e : exn)
  | Fatal (f : fault).
Arguments Ret {A} a.
Arguments Throw {A} e.
Arguments Fatal {A} f.

Definition is_fatal {A} (o : outcome A) : bool :=
  match o with Fatal _ => true | _ => false end.

(** ** CephContext: singleton registry and fork watchers *)

Module Singletons.

(** [std::type_index]: an opaque, totally ordered identity of a C++ type. *)
Definition type_index := positive.

(** [ceph::immobile_any<largest_singleton>] holding a [T] built in place.
    [any_args] stands for the constructor arguments the object was built
    from; [any_instance] is the identity of the held object, the serial
    number of its construction in this context. *)
Record immobile_any : Type := {
  any_type : type_index;
  any_args : Z;
  any_instance : nat
}.

(** Modelled from the spec: [ceph::any_cast<T&>] (include/any.h, not
    among the sources), the checked cast of the type-erased storage: the
    held object when [a] holds a [T], the exception [bad_any_cast]
    otherwise, as [std::any_cast] does. *)
Definition any_cast (T : type_index) (a : immobile_any) : outcome immobile_any :=
  if decide (any_type a = T) then Ret a else Throw bad_any_cast.

(** One call of [lookup_or_create_singleton_object<T>(name, drop_on_fork, args)]. *)
Record request : Type := {
  rq_type : type_index;
  rq_name : string;
  rq_drop_on_fork : bool;
  rq_args : Z
}.

(** [CephContext::ForkWatcher].  What a hook does to this context is the
    sequence of singleton lookups it performs. *)
Record ForkWatcher : Type := {
  fw_id : nat;
  handle_pre_fork : list request;
  handle_post_fork : list request
}.

Inductive event : Type :=
  | EvConstruct (name : string) (T : type_index) (inst : nat)
  | EvPreFork (w : nat)
  | EvPostFork (w : nat).

(** The members of [CephContext] that the registry and the fork hooks use.
    [next_instance] and [trace] are ghost state: the number of objects
    constructed so far and the history of constructions and hook calls. *)
Record CephContext : Type := {
  associated_objs : gmap (string * type_index) immobile_any;
  associated_objs_drop_on_fork : gset string;
  _fork_watchers : list ForkWatcher;
  next_instance : nat;
  trace : list event
}.

Definition empty_context : CephContext :=
  {| associated_objs := ∅;
     associated_objs_drop_on_fork := ∅;
     _fork_watchers := [];
     next_instance := 0;
     trace := [] |}.

Definition log_event (e : event) (cct : CephContext) : CephContext :=
  {| associated_objs := associated_objs cct;
     associated_objs_drop_on_fork := associated_objs_drop_on_fork cct;
     _fork_watchers := _fork_watchers cct;
     next_instance := next_instance cct;
     trace := trace cct ++ [e] |}.

(** ceph_context.h:125-142.  The map is searched with the pair
    [(name, typeid(T))]; on a miss the name is added to the drop set when
    [drop_on_fork] holds and a [T] is emplaced under that pair; the slot
    found or made is cast to [T&]. *)
Definition lookup_or_create_singleton_object
    (T : type_index) (name : string) (drop_on_fork : bool) (args : Z)
    (cct : CephContext) : outcome immobile_any * CephContext :=
  match associated_objs cct !! (name, T) with
  | Some a => (any_cast T a, cct)
  | None =>
      let a := {| any_type := T; any_args := args;
                  any_instance := next_instance cct |} in
      (any_cast T a,
       {| associated_objs := <[(name, T) := a]> (associated_objs cct);
          associated_objs_drop_on_fork :=
            if drop_on_fork
            then {[name]} ∪ associated_objs_drop_on_fork cct
            else associated_objs_drop_on_fork cct;
          _fork_watchers := _fork_watchers cct;
          next_instance := S (next_instance cct);
          trace := trace cct ++ [EvConstruct name T (next_instance cct)] |})
  end.

Definition do_request (r : request) (cct : CephContext)
    : outcome immobile_any * CephContext :=
  lookup_or_create_singleton_object
    (rq_type r) (rq_name r) (rq_drop_on_fork r) (rq_args r) cct.

(** A sequence of lookups, with the result of each. *)
Fixpoint run_lookups (rs : list request) (cct : CephContext)
    : list (outcome immobile_any) * CephContext :=
  match rs with
  | [] => ([], cct)
  | r :: rs' =>
      let '(o, cct1) := do_request r cct in
      let '(os, cct2) := run_lookups rs' cct1 in
      (o :: os, cct2)
  end.

(** ceph_context.h:185-188. *)
Definition register_fork_watcher (w : ForkWatcher) (cct : CephContext)
    : CephContext :=
  {| associated_objs := associated_objs cct;
     associated_objs_drop_on_fork := associated_objs_drop_on_fork cct;
     _fork_watchers := _fork_watchers cct ++ [w];
     next_instance := next_instance cct;
     trace := trace cct |}.

(** The first block of [notify_pre_fork]: the loop over [_fork_watchers]. *)
Fixpoint call_pre_fork (ws : list ForkWatcher) (cct : CephContext)
    : CephContext :=
  match ws with
  | [] => cct
  | w :: ws' =>
      call_pre_fork ws'
        (run_lookups (handle_pre_fork w) (log_event (EvPreFork (fw_id w)) cct)).2
  end.

(** The second block: the walk over [associated_objs] erasing each slot
    whose name ([i->first.first]) is counted in the drop set, then
    [associated_objs_drop_on_fork.clear()]. *)
Definition drop_marked_entries (cct : CephContext) : CephContext :=
  {| associated_objs :=
       filter (λ kv, kv.1.1 ∉ associated_objs_drop_on_fork cct)
              (associated_objs cct);
     associated_objs_drop_on_fork := ∅;
     _fork_watchers := _fork_watchers cct;
     next_instance := next_instance cct;
     trace := trace cct |}.

(** ceph_context.cc:694-715. *)
Definition notify_pre_fork (cct : CephContext) : CephContext :=
  drop_marked_entries (call_pre_fork (_fork_watchers cct) cct).

(** ceph_context.cc:717-722. *)
Fixpoint call_post_fork (ws : list ForkWatcher) (cct : CephContext)
    : CephContext :=
  match ws with
  | [] => cct
  | w :: ws' =>
      call_post_fork ws'
        (run_lookups (handle_post_fork w) (log_event (EvPostFork (fw_id w)) cct)).2
  end.

Definition notify_post_fork (cct : CephContext) : CephContext :=
  call_post_fork (_fork_watchers cct) cct.

(** Number of constructions of the singleton [(name, T)] in a history. *)
Definition constructs (name : string) (T : type_index) (e : event) : bool :=
  match e with
  | EvConstruct n U _ => bool_decide (n = name ∧ U = T)
  | _ => false
  end.

Definition constructions (name : string) (T : type_index) (tr : list event) : nat :=
  length (filter (λ e, constructs name T e = true) tr).

(** The watchers whose pre-fork hook ran, in the order of the calls. *)
Definition pre_fork_calls (tr : list event) : list nat :=
  omap (λ e, match e with EvPreFork w => Some w | _ => None end) tr.

(** The objects constructed in a history, in the order of their
    construction. *)
Definition constructed (tr : list event) : list (string * type_index * nat) :=
  omap (λ e, match e with EvConstruct n T i => Some (n, T, i) | _ => None end)
       tr.

(** The lookups that the pre-fork hooks of the watchers make, hook after
    hook in the order of the watchers. *)
Definition pre_fork_requests (ws : list ForkWatcher) : list request :=
  flat_map handle_pre_fork ws.

(** Two states of a context that differ at most in the hook calls
    recorded in the history. *)
Definition same_but_calls (c1 c2 : CephContext) : Prop :=
  associated_objs c1 = associated_objs c2 ∧
  associated_objs_drop_on_fork c1 = associated_objs_drop_on_fork c2 ∧
  _fork_watchers c1 = _fork_watchers c2 ∧
  next_instance c1 = next_instance c2 ∧
  constructed (trace c1) = constructed (trace c2).

(** Invariant of the registry: a slot holds an object of the type it is
    keyed by, built earlier in this context. *)
Definition wf (cct : CephContext) : Prop :=
  ∀ n T a, associated_objs cct !! (n, T) = Some a →
           any_type a = T ∧ any_instance a < next_instance cct.

(** [cct'] is a later state of [cct] in which every slot, every mark of
    the drop set and every watcher of [cct] is still there. *)
Definition extends (cct cct' : CephContext) : Prop :=
  (∀ k a, associated_objs cct !! k = Some a →
          associated_objs cct' !! k = Some a) ∧
  associated_objs_drop_on_fork cct ⊆ associated_objs_drop_on_fork cct' ∧
  next_instance cct <= next_instance cct' ∧
  _fork_watchers cct' = _fork_watchers cct.

(** The number of slots kept under the pair [(name, T)]. *)
Definition slots (name : string) (T : type_index) (cct : CephContext) : nat :=
  size (filter (λ kv, kv.1 = (name, T)) (associated_objs cct)).

(** Does the request ask for the singleton [(name, T)]? *)
Definition asks_for (name : string) (T : type_index) (r : request) : Prop :=
  rq_name r = name ∧ rq_type r = T.

(** Sample types, requests, watchers and contexts. *)
Definition TypeA : type_index := 1%positive.
Definition TypeB : type_index := 2%positive.

Definition ask (T : type_index) (name : string) (drop_on_fork : bool) (args : Z)
    : request :=
  {| rq_type := T; rq_name := name; rq_drop_on_fork := drop_on_fork;
     rq_args := args |}.

(** A context in which ["x"] was created as a [TypeA]. *)
Definition cct_x_A : CephContext :=
  (lookup_or_create_singleton_object TypeA "x" false 7 empty_context).2.

(** A watcher whose pre-fork hook looks the singleton ["x"] up. *)
Definition watcher_5 : ForkWatcher :=
  {| fw_id := 5; handle_pre_fork := [ask TypeA "x" true 0];
     handle_post_fork := [] |}.

Definition cct_watched : CephContext :=
  register_fork_watcher watcher_5 empty_context.

End Singletons.

(** ** ObserverMgr: configuration observers (config_obs_mgr.h, .cc) *)

Module Observers.

(** An observer ([ConfigObs]).  The manager stores and compares the
    pointer, [obs_addr]; [get_tracked_conf_keys] is the NULL-terminated
    array the observer returns, without the terminator. *)
Record ConfigObs : Type := {
  obs_addr : nat;
  get_tracked_conf_keys : list string
}.

(** [obs_map_t = std::multimap<std::string, ConfigObs*>]: pairs kept in
    key order, pairs of one key in the order they were inserted. *)
Abbreviation obs_map_t := (list (string * nat)) (only parsing).

(** [observers.emplace(k, o)]: the new pair goes after the last pair whose
    key is not greater than [k]. *)
Fixpoint emplace (k : string) (o : nat) (observers : obs_map_t) : obs_map_t :=
  match observers with
  | [] => [(k, o)]
  | (k', o') :: rest =>
      if String.ltb k k' then (k, o) :: observers
      else (k', o') :: emplace k o rest
  end.

(** config_obs_mgr.cc:15-22. *)
Definition add_observer (observer : ConfigObs) (observers : obs_map_t)
    : obs_map_t :=
  fold_left (λ m k, emplace k (obs_addr observer) m)
            (get_tracked_conf_keys observer) observers.

(** The loop of [remove_observer]: the map without the pairs of
    [observer], and [found_obs]. *)
Fixpoint remove_loop (observer : nat) (observers : obs_map_t)
    : obs_map_t * bool :=
  match observers with
  | [] => ([], false)
  | (k, o) :: rest =>
      let '(rest', found_obs) := remove_loop observer rest in
      if Nat.eqb o observer then (rest', true)
      else ((k, o) :: rest', found_obs)
  end.

(** config_obs_mgr.cc:24-37; [ceph_assert(found_obs)] ends the loop. *)
Definition remove_observer (observer : ConfigObs) (observers : obs_map_t)
    : outcome obs_map_t :=
  let '(observers', found_obs) := remove_loop (obs_addr observer) observers in
  if found_obs then Ret observers' else Fatal AssertFailed.

(** A call [callback(obs, key)]. *)
Abbreviation call := (nat * string)%type (only parsing).

(** config_obs_mgr.cc:39-45. *)
Definition for_each_observer (observers : obs_map_t) : list call :=
  map (λ p, (p.2, p.1)) observers.

(** [observers.equal_range(key)]: the run of pairs under [key]. *)
Definition equal_range (key : string) (observers : obs_map_t) : obs_map_t :=
  filter (λ p, p.1 = key) observers.

(** config_obs_mgr.cc:47-67.  [changes] lists the elements of the
    [std::set] in iteration order; [get_val key] is [Some val] when
    [proxy.get_val(key, &val)] returns 0; [oss] tells whether a stream was
    passed.  The result is the calls made, in order, and the text written
    to the stream. *)
Fixpoint for_each_change (changes : list string) (get_val : string → option string)
    (oss : bool) (observers : obs_map_t) : list call * string :=
  match changes with
  | [] => ([], "")
  | key :: changes' =>
      let range := equal_range key observers in
      let text :=
        match oss, get_val key with
        | true, Some val =>
            key +:+ " = '" +:+ val +:+ "' " +:+
            (match range with
             | [] => "(not observed, change may require restart) "
             | _ => ""
             end)
        | _, _ => ""
        end in
      let '(calls, text') := for_each_change changes' get_val oss observers in
      ((map (λ p, (p.2, key)) range ++ calls)%list, text +:+ text')
  end.

(** config_obs_mgr.cc:69-73. *)
Definition is_tracking (name : string) (observers : obs_map_t) : bool :=
  Nat.ltb 0 (length (equal_range name observers)).

(** How many times the pair [(key, observer)] is stored. *)
Definition associations (key : string) (observer : nat) (observers : obs_map_t) : nat :=
  length (filter (λ p, p = (key, observer)) observers).

(** How many times [callback(observer, key)] was called. *)
Definition invocations (observer : nat) (key : string) (calls : list call) : nat :=
  length (filter (λ c, c = (observer, key)) calls).

(** The calls made on [observer]. *)
Definition calls_on (observer : nat) (calls : list call) : list call :=
  filter (λ c, c.1 = observer) calls.

(** Is some pair of the map one of [observer]? *)
Definition registered (observer : nat) (observers : obs_map_t) : bool :=
  existsb (λ p, Nat.eqb p.2 observer) observers.

(** Sample observers: the lockdep observer of ceph_context.cc:60-63 and
    one tracking two keys. *)
Definition lockdep_obs : ConfigObs :=
  {| obs_addr := 1; get_tracked_conf_keys := ["lockdep"] |}.

Definition stderr_obs : ConfigObs :=
  {| obs_addr := 2; get_tracked_conf_keys := ["log_to_stderr"; "err_to_stderr"] |}.

End Observers.

(** ** pidfh: the pid file (pidfile.cc) *)

Module PidFile.

Open Scope Z_scope.

(** Error numbers of <errno.h> (Linux) and [PATH_MAX] of <limits.h>. *)
Definition ENOENT : Z := 2.
Definition EBADF : Z := 9.
Definition EAGAIN : Z := 11.
Definition EINVAL : Z := 22.
Definition EDOM : Z := 33.
Definition ENAMETOOLONG : Z := 36.
Definition ESTALE : Z := 116.
Definition PATH_MAX : nat := 4096.

(** *** The operating system as the handle sees it *)

Inductive syscall : Type :=
  | sys_open | sys_stat | sys_fstat | sys_fcntl | sys_lseek | sys_read
  | sys_close | sys_unlink | sys_ftruncate | sys_write | sys_atexit.

Record stat_t : Type := { st_dev : Z; st_ino : Z }.

(** Files are named by (device, inode).  [os_fds] maps an open descriptor
    to its file and offset, [os_locks] a file to the process holding the
    write lock, and [os_fail] gives the error number a call fails with
    for a reason outside this model (EIO, EACCES, ...). *)
Record os_state : Type := {
  os_pid : Z;
  os_names : gmap string (Z * Z);
  os_data : gmap (Z * Z) (list ascii);
  os_fds : gmap Z (Z * Z * nat);
  os_locks : gmap (Z * Z) Z;
  os_dev : Z;
  os_next_ino : Z;
  os_fail : syscall → option positive
}.

Inductive sysret (A : Type) : Type :=
  | ok (a : A)
  | err (errno : Z).
Arguments ok {A} a.
Arguments err {A} errno.

Definition set_names (names : gmap string (Z * Z)) (os : os_state) : os_state :=
  {| os_pid := os_pid os; os_names := names; os_data := os_data os;
     os_fds := os_fds os; os_locks := os_locks os; os_dev := os_dev os;
     os_next_ino := os_next_ino os; os_fail := os_fail os |}.

Definition set_data (data : gmap (Z * Z) (list ascii)) (os : os_state) : os_state :=
  {| os_pid := os_pid os; os_names := os_names os; os_data := data;
     os_fds := os_fds os; os_locks := os_locks os; os_dev := os_dev os;
     os_next_ino := os_next_ino os; os_fail := os_fail os |}.

Definition set_fds (fds : gmap Z (Z * Z * nat)) (os : os_state) : os_state :=
  {| os_pid := os_pid os; os_names := os_names os; os_data := os_data os;
     os_fds := fds; os_locks := os_locks os; os_dev := os_dev os;
     os_next_ino := os_next_ino os; os_fail := os_fail os |}.

Definition set_locks (locks : gmap (Z * Z) Z) (os : os_state) : os_state :=
  {| os_pid := os_pid os; os_names := os_names os; os_data := os_data os;
     os_fds := os_fds os; os_locks := locks; os_dev := os_dev os;
     os_next_ino := os_next_ino os; os_fail := os_fail os |}.

Definition set_next_ino (n : Z) (os : os_state) : os_state :=
  {| os_pid := os_pid os; os_names := os_names os; os_data := os_data os;
     os_fds := os_fds os; os_locks := os_locks os; os_dev := os_dev os;
     os_next_ino := n; os_fail := os_fail os |}.

Definition getpid (os : os_state) : Z := os_pid os.

(** [stat(path, &st)] *)
Definition stat (path : string) (os : os_state) : sysret stat_t :=
  match os_fail os sys_stat with
  | Some e => err (Z.pos e)
  | None =>
      match os_names os !! path with
      | Some (d, i) => ok {| st_dev := d; st_ino := i |}
      | None => err ENOENT
      end
  end.

(** [fstat(fd, &st)] *)
Definition fstat (fd : Z) (os : os_state) : sysret stat_t :=
  match os_fail os sys_fstat with
  | Some e => err (Z.pos e)
  | None =>
      match os_fds os !! fd with
      | Some (d, i, _) => ok {| st_dev := d; st_ino := i |}
      | None => err EBADF
      end
  end.

(** The lowest descriptor that is not open. *)
Definition lowest_free (fds : gmap Z (Z * Z * nat)) : Z :=
  default 0 (head (filter (λ n, fds !! n = None)
                          (Z.of_nat <$> seq 0 (S (size fds))))).

(** [::open(path, O_CREAT|O_RDWR|O_CLOEXEC, 0644)] *)
Definition open_creat (path : string) (os : os_state) : sysret (Z * os_state) :=
  match os_fail os sys_open with
  | Some e => err (Z.pos e)
  | None =>
      if decide (path = "") then err ENOENT
      else
        let fd := lowest_free (os_fds os) in
        match os_names os !! path with
        | Some (d, i) => ok (fd, set_fds (<[fd := (d, i, 0%nat)]> (os_fds os)) os)
        | None =>
            let file := (os_dev os, os_next_ino os) in
            ok (fd,
                set_fds (<[fd := (file, 0%nat)]> (os_fds os))
                  (set_data (<[file := []]> (os_data os))
                    (set_names (<[path := file]> (os_names os))
                      (set_next_ino (os_next_ino os + 1) os))))
        end
  end.

(** [::fcntl(fd, F_SETLK, &l)] with a write lock on the whole file *)
Definition fcntl_setlk (fd : Z) (os : os_state) : sysret os_state :=
  match os_fail os sys_fcntl with
  | Some e => err (Z.pos e)
  | None =>
      match os_fds os !! fd with
      | None => err EBADF
      | Some (file, _) =>
          match os_locks os !! file with
          | Some holder =>
              if decide (holder = os_pid os) then ok os else err EAGAIN
          | None => ok (set_locks (<[file := os_pid os]> (os_locks os)) os)
          end
      end
  end.

(** [::lseek(fd, 0, SEEK_SET)] *)
Definition lseek0 (fd : Z) (os : os_state) : sysret (Z * os_state) :=
  match os_fail os sys_lseek with
  | Some e => err (Z.pos e)
  | None =>
      match os_fds os !! fd with
      | None => err EBADF
      | Some (file, _) => ok (0, set_fds (<[fd := (file, 0%nat)]> (os_fds os)) os)
      end
  end.

(** Modelled from the spec: [safe_read(fd, buf, count)]
    (common/safe_io.h, not among the sources), which reads until [count]
    bytes or the end of the file: the bytes read, or a negative error. *)
Definition safe_read (fd : Z) (count : nat) (os : os_state)
    : Z * list ascii * os_state :=
  match os_fail os sys_read with
  | Some e => (- Z.pos e, [], os)
  | None =>
      match os_fds os !! fd with
      | None => (- EBADF, [], os)
      | Some (file, off) =>
          let bytes := take count (drop off (default [] (os_data os !! file))) in
          (Z.of_nat (length bytes), bytes,
           set_fds (<[fd := (file, (off + length bytes)%nat)]> (os_fds os)) os)
      end
  end.

(** [::close(fd)]; the locks of the process on the file go with it. *)
Definition close (fd : Z) (os : os_state) : os_state :=
  match os_fds os !! fd with
  | None => os
  | Some (file, _) =>
      let locks :=
        match os_locks os !! file with
        | Some holder =>
            if decide (holder = os_pid os) then delete file (os_locks os)
            else os_locks os
        | None => os_locks os
        end in
      set_locks locks (set_fds (delete fd (os_fds os)) os)
  end.

(** [::unlink(path)] *)
Definition unlink (path : string) (os : os_state) : sysret os_state :=
  match os_fail os sys_unlink with
  | Some e => err (Z.pos e)
  | None =>
      match os_names os !! path with
      | None => err ENOENT
      | Some _ => ok (set_names (delete path (os_names os)) os)
      end
  end.

(** [::ftruncate(fd, 0)] *)
Definition ftruncate0 (fd : Z) (os : os_state) : sysret os_state :=
  match os_fail os sys_ftruncate with
  | Some e => err (Z.pos e)
  | None =>
      match os_fds os !! fd with
      | None => err EBADF
      | Some (file, _) => ok (set_data (<[file := []]> (os_data os)) os)
      end
  end.

(** Modelled from the spec: [safe_write(fd, buf, len)]
    (common/safe_io.h, not among the sources), which writes all of [buf]:
    0, or a negative error. *)
Definition safe_write (fd : Z) (buf : list ascii) (os : os_state)
    : Z * os_state :=
  match os_fail os sys_write with
  | Some e => (- Z.pos e, os)
  | None =>
      match os_fds os !! fd with
      | None => (- EBADF, os)
      | Some (file, off) =>
          let old := default [] (os_data os !! file) in
          let new :=
            (take off (old ++ replicate (off - length old) zero) ++ buf ++
             drop (off + length buf) old)%list in
          (0, set_fds (<[fd := (file, (off + length buf)%nat)]> (os_fds os))
                (set_data (<[file := new]> (os_data os)) os))
      end
  end.

(** [atexit(f)] *)
Definition atexit (os : os_state) : Z :=
  match os_fail os sys_atexit with Some e => Z.pos e | None => 0 end.

(** *** Text of the pid *)

(** [snprintf(buf, sizeof(buf), "%d\n", pid)] *)
Definition print_pid (pid : Z) : list ascii :=
  list_ascii_of_string
    (DecimalString.NilZero.string_of_int (Z.to_int pid) +:+ String "010" "").

Definition isspace (c : ascii) : bool :=
  let n := nat_of_ascii c in
  (Nat.eqb n 32 || (Nat.leb 9 n && Nat.leb n 13))%bool.

Definition digit_of (c : ascii) : option Z :=
  let n := nat_of_ascii c in
  if (Nat.leb 48 n && Nat.leb n 57)%bool then Some (Z.of_nat (n - 48)) else None.

Fixpoint skip_space (s : list ascii) : list ascii :=
  match s with
  | c :: s' => if isspace c then skip_space s' else s
  | [] => []
  end.

Fixpoint atoi_digits (acc : Z) (s : list ascii) : Z :=
  match s with
  | c :: s' =>
      match digit_of c with
      | Some d => atoi_digits (10 * acc + d) s'
      | None => acc
      end
  | [] => acc
  end.

(** [atoi(buf)]: white space, an optional sign, then digits up to the
    first other byte.  [buf] is the bytes read; the zero bytes that follow
    them in the 32-byte buffer end the number as any non-digit does.  A
    value outside [int] is undefined in C and is not wrapped here. *)
Definition atoi (buf : list ascii) : Z :=
  match skip_space buf with
  | c :: s' =>
      if Nat.eqb (nat_of_ascii c) 45 then - atoi_digits 0 s'
      else if Nat.eqb (nat_of_ascii c) 43 then atoi_digits 0 s'
      else atoi_digits 0 (c :: s')
  | [] => 0
  end.

(** *** The handle *)

Record pidfh : Type := {
  pf_fd : Z;
  pf_path : string;
  pf_dev : Z;
  pf_ino : Z
}.

(** pidfile.cc:55-60 *)
Definition reset : pidfh :=
  {| pf_fd := -1; pf_path := ""; pf_dev := 0; pf_ino := 0 |}.

(** pidfile.cc:52-54 *)
Definition is_open (h : pidfh) : bool :=
  (negb (String.eqb (pf_path h) "") && negb (Z.eqb (pf_fd h) (-1)))%bool.

(** pidfile.cc:69-79 *)
Definition verify (h : pidfh) (os : os_state) : Z :=
  if Z.eqb (pf_fd h) (-1) then - EINVAL
  else
    match stat (pf_path h) os with
    | err errno => - errno
    | ok st =>
        if (negb (Z.eqb (st_dev st) (pf_dev h)) ||
            negb (Z.eqb (st_ino st) (pf_ino h)))%bool
        then - ESTALE
        else 0
    end.

(** pidfile.cc:81-129.  The result, the handle and the system after the
    call. *)
Definition remove (h : pidfh) (os : os_state) : Z * pidfh * os_state :=
  if String.eqb (pf_path h) "" then (0, h, os)
  else
    let ret := verify h os in
    if Z.ltb ret 0 then
      if negb (Z.eqb (pf_fd h) (-1)) then (ret, reset, close (pf_fd h) os)
      else (ret, h, os)
    else
      match lseek0 (pf_fd h) os with
      | err errno => (- errno, h, os)
      | ok (_, os1) =>
          let '(res, buf, os2) := safe_read (pf_fd h) 32 os1 in
          let os3 := close (pf_fd h) os2 in
          if Z.ltb res 0 then (res, h, os3)
          else
            let a := atoi buf in
            if negb (Z.eqb a (getpid os3)) then (- EDOM, h, os3)
            else
              match unlink (pf_path h) os3 with
              | err errno => (- errno, h, os3)
              | ok os4 => (0, reset, os4)
              end
      end.

(** pidfile.cc:131-183; [pid_file] is [conf->pid_file]. *)
Definition open (pid_file : string) (h : pidfh) (os : os_state)
    : Z * pidfh * os_state :=
  let h0 := {| pf_fd := pf_fd h; pf_path := substring 0 PATH_MAX pid_file;
               pf_dev := pf_dev h; pf_ino := pf_ino h |} in
  if Nat.leb (S PATH_MAX) (String.length pid_file) then (- ENAMETOOLONG, h0, os)
  else
    match open_creat (pf_path h0) os with
    | err e => (- e, reset, os)
    | ok (fd, os1) =>
        match fstat fd os1 with
        | err e => (- e, reset, close fd os1)
        | ok st =>
            let h1 := {| pf_fd := fd; pf_path := pf_path h0;
                         pf_dev := st_dev st; pf_ino := st_ino st |} in
            match fcntl_setlk fd os1 with
            | err e => (- e, reset, close fd os1)
            | ok os2 => (0, h1, os2)
            end
        end
    end.

(** pidfile.cc:185-205 *)
Definition write (h : pidfh) (os : os_state) : Z * os_state :=
  if negb (is_open h) then (0, os)
  else
    let buf := print_pid (getpid os) in
    match ftruncate0 (pf_fd h) os with
    | err e => (- e, os)
    | ok os1 =>
        let '(res, os2) := safe_write (pf_fd h) buf os1 in
        if Z.ltb res 0 then (res, os2) else (0, os2)
    end.

(** pidfile.cc:207-212; [pfh] is the file-level pointer, and deleting the
    handle runs [remove] in its destructor. *)
Definition pidfile_remove (pfh : option pidfh) (os : os_state)
    : option pidfh * os_state :=
  match pfh with
  | Some h => (None, (remove h os).2)
  | None => (None, os)
  end.

(** pidfile.cc:214-243 *)
Definition pidfile_write (pid_file : string) (pfh : option pidfh) (os : os_state)
    : outcome (Z * option pidfh * os_state) :=
  if String.eqb pid_file "" then Ret (0, pfh, os)
  else
    match pfh with
    | Some _ => Fatal AssertFailed
    | None =>
        if negb (Z.eqb (atexit os) 0) then Ret (- EINVAL, Some reset, os)
        else
          let '(r, h1, os1) := open pid_file reset os in
          if negb (Z.eqb r 0) then
            let '(p, os2) := pidfile_remove (Some h1) os1 in Ret (r, p, os2)
          else
            let '(r', os2) := write h1 os1 in
            if negb (Z.eqb r' 0) then
              let '(p, os3) := pidfile_remove (Some h1) os2 in Ret (r', p, os3)
            else Ret (0, Some h1, os2)
    end.

(** The states of the handle. *)
Definition Empty (h : pidfh) : Prop := h = reset.

(** Locked: the descriptor is open on the file whose identity was
    captured, and this process holds the lock on it. *)
Definition Locked (h : pidfh) (os : os_state) : Prop :=
  pf_path h ≠ "" ∧ pf_fd h ≠ -1 ∧
  (∃ off, os_fds os !! pf_fd h = Some (pf_dev h, pf_ino h, off)) ∧
  os_locks os !! (pf_dev h, pf_ino h) = Some (os_pid os).

(** What [safe_read] of 32 bytes from the start of the locked file gives. *)
Definition stored_pid (h : pidfh) (os : os_state) : Z :=
  atoi (take 32 (default [] (os_data os !! (pf_dev h, pf_ino h)))).

(** Sample systems and handles.  [fresh_os]: process 1234 with its three
    standard descriptors open and no pid file yet. *)
Definition fresh_os : os_state :=
  {| os_pid := 1234;
     os_names := ∅;
     os_data := ∅;
     os_fds := <[0 := (5, 3, 0%nat)]> (<[1 := (5, 3, 0%nat)]>
                 (<[2 := (5, 3, 0%nat)]> ∅));
     os_locks := ∅;
     os_dev := 8;
     os_next_ino := 100;
     os_fail := λ _, None |}.

Definition pid_path : string := "/var/run/ceph/osd.0.pid".

(** The handle and the system after [open] and [write]. *)
Definition h_locked : pidfh := (open pid_path reset fresh_os).1.2.

Definition os_locked : os_state :=
  (write h_locked (open pid_path reset fresh_os).2).2.

(** The same system after another process wrote its pid, 999, into the
    file. *)
Definition os_foreign_pid : os_state :=
  set_data (<[(pf_dev h_locked, pf_ino h_locked) := print_pid 999]>
              (os_data os_locked)) os_locked.

(** The same system after the path was made to name another file. *)
Definition os_replaced : os_state :=
  set_names (<[pid_path := (8, 101)]> (os_names os_locked)) os_locked.

(** The locked system with a failing [lseek] (EIO). *)
Definition os_lseek_fails : os_state :=
  {| os_pid := os_pid os_locked; os_names := os_names os_locked;
     os_data := os_data os_locked; os_fds := os_fds os_locked;
     os_locks := os_locks os_locked; os_dev := os_dev os_locked;
     os_next_ino := os_next_ino os_locked;
     os_fail := λ c, match c with sys_lseek => Some 5%positive | _ => None end |}.

Close Scope Z_scope.

End PidFile.

(** ** CephContext::do_command: the admin commands (ceph_context.cc:322-482) *)

Module AdminCommands.

(** Modelled from the spec: [cmd_vartype] (common/cmdparse.h, not among
    the sources), a value of the argument map.  The alternatives the
    commands read are a string and a vector of strings. *)
Inductive cmd_vartype : Type :=
  | cmd_string (s : string)
  | cmd_strings (v : list string)
  | cmd_other.             (* bool, int64_t, double and vectors of numbers *)

(** Modelled from the spec: [cmd_getval(cct, cmdmap, k, val)]
    (common/cmdparse.h, not among the sources) on the flat key-to-value
    argument map of a request, for a [std::string]: [Some] of the value
    when it returns true, [None] when the key is absent, and [bad_cmd_get]
    when the value is of another alternative. *)
Definition cmd_getval_string (cmdmap : gmap string cmd_vartype) (k : string)
    : outcome (option string) :=
  match cmdmap !! k with
  | None => Ret None
  | Some (cmd_string s) => Ret (Some s)
  | Some _ => Throw bad_cmd_get
  end.

(** The same for a [std::vector<std::string>]. *)
Definition cmd_getval_strings (cmdmap : gmap string cmd_vartype) (k : string)
    : outcome (option (list string)) :=
  match cmdmap !! k with
  | None => Ret None
  | Some (cmd_strings v) => Ret (Some v)
  | Some _ => Throw bad_cmd_get
  end.

(** Sequencing: an exception or a fault ends the command. *)
#[export] Instance outcome_bind : MBind outcome := λ A B k o,
  match o with
  | Ret a => k a
  | Throw e => Throw e
  | Fatal f => Fatal f
  end.

(** [boost::replace_all(section, " ", "_")] *)
Fixpoint replace_spaces (s : string) : string :=
  match s with
  | EmptyString => EmptyString
  | String c s' =>
      String (if Ascii.eqb c " "%char then "_"%char else c) (replace_spaces s')
  end.

(** Modelled from the spec: [str_join(val, " ")] (include/str_list.h, not
    among the sources): the values joined with a single space. *)
Fixpoint str_join (v : list string) (sep : string) : string :=
  match v with
  | [] => ""
  | [s] => s
  | s :: v' => s +:+ sep +:+ str_join v' sep
  end.

Inductive log_call : Type :=
  | flush
  | dump_recent
  | reopen_log_file.

Section Dispatch.

(** The configuration, the performance counters and a schema entry
    ([Option]) are collaborators; only what [do_command] asks of them is
    named. *)
Variables Conf Perf Opt : Type.

(** Calls on the [Formatter]. *)
Inductive fmt_op : Type :=
  | open_object_section (name : string)
  | open_array_section (name : string)
  | close_section
  | dump_string (name value : string)
  | dump_stream (name text : string)
  | dump_object (name : string) (o : Opt).

Record collaborators : Type := {
  debug_asok_assert_abort : Conf → bool;
  show_config : Conf → list fmt_op;
  rm_val : string → Conf → Z * Conf;
  set_val : string → string → Conf → Z * Conf;
  apply_changes : Conf → string * Conf;
  get_val : string → Conf → Z * string;
  get_schema : string → Conf → option Opt;
  (* [_conf.diff(f)], the call with one argument *)
  diff_all : Conf → list fmt_op;
  (* [_conf.diff(f, name)] *)
  diff : string → Conf → list fmt_op;
  normalize_key_name : string → string;
  ceph_options : list Opt;
  cpp_strerror : Z → string;
  (* [dump_formatted(f, schema, logger, counter)] *)
  dump_formatted : bool → string → string → Perf → list fmt_op;
  dump_formatted_histograms : bool → string → string → Perf → list fmt_op;
  (* [_perf_counters_collection->reset(var)] *)
  perf_reset : string → Perf → bool * Perf
}.

Variable env : collaborators.

(** What a completed command leaves: the format name handed to
    [Formatter::create], the formatter calls flushed to [out], the
    configuration, the counters and the calls made on the log.  Which
    formatter the class, not among the sources, makes of the name (it is
    given [json-pretty] as default and as fallback) is not modelled. *)
Record response : Type := {
  rs_format : string;
  rs_out : list fmt_op;
  rs_conf : Conf;
  rs_perf : Perf;
  rs_log : list log_call
}.

Definition ENOENT : Z := 2.

(** The last [else] of the chain: the commands written between
    [open_object_section(section)] and [close_section()]. *)
Definition config_and_log_command (command : string)
    (cmdmap : gmap string cmd_vartype) (conf : Conf)
    : outcome (list fmt_op * Conf * list log_call) :=
  if String.eqb command "config show" then
    Ret (show_config env conf, conf, [])
  else if String.eqb command "config unset" then
    var ← cmd_getval_string cmdmap "var";
    match var with
    | None =>
        Ret ([dump_string "error" "syntax error: 'config unset <var>'"], conf, [])
    | Some var =>
        let '(r, conf1) := rm_val env var conf in
        if (Z.ltb r 0 && negb (Z.eqb r (- ENOENT)))%bool then
          Ret ([dump_stream "error"
                  ("error unsetting '" +:+ var +:+ "': " +:+ cpp_strerror env r)],
               conf1, [])
        else
          let '(ss, conf2) := apply_changes env conf1 in
          Ret ([dump_string "success" ss], conf2, [])
    end
  else if String.eqb command "config set" then
    var ← cmd_getval_string cmdmap "var";
    match var with
    | None =>
        Ret ([dump_string "error" "syntax error: 'config set <var> <value>'"],
             conf, [])
    | Some var =>
        val ← cmd_getval_strings cmdmap "val";
        match val with
        | None =>
            Ret ([dump_string "error" "syntax error: 'config set <var> <value>'"],
                 conf, [])
        | Some val =>
            let valstr := str_join val " " in
            let '(r, conf1) := set_val env var valstr conf in
            if Z.ltb r 0 then
              Ret ([dump_stream "error"
                      ("error setting '" +:+ var +:+ "' to '" +:+ valstr +:+
                       "': " +:+ cpp_strerror env r)],
                   conf1, [])
            else
              let '(ss, conf2) := apply_changes env conf1 in
              Ret ([dump_string "success" ss], conf2, [])
        end
    end
  else if String.eqb command "config get" then
    var ← cmd_getval_string cmdmap "var";
    match var with
    | None =>
        Ret ([dump_string "error" "syntax error: 'config get <var>'"], conf, [])
    | Some var =>
        let '(r, buf) := get_val env var conf in
        if Z.ltb r 0 then
          Ret ([dump_stream "error"
                  ("error getting '" +:+ var +:+ "': " +:+ cpp_strerror env r)],
               conf, [])
        else Ret ([dump_string var buf], conf, [])
    end
  else if String.eqb command "config help" then
    var ← cmd_getval_string cmdmap "var";
    match var with
    | Some var =>
        let key := normalize_key_name env var in
        match get_schema env key conf with
        | None =>
            Ret ([dump_string "error" ("Setting not found: '" +:+ key +:+ "'")],
                 conf, [])
        | Some schema => Ret ([dump_object "option" schema], conf, [])
        end
    | None =>
        Ret (((open_array_section "options"
               :: map (dump_object "option") (ceph_options env)) ++ [close_section])%list,
             conf, [])
    end
  else if String.eqb command "config diff" then
    Ret (((open_object_section "diff" :: diff_all env conf) ++ [close_section])%list,
         conf, [])
  else if String.eqb command "config diff get" then
    let setting := "" in
    Ret (((open_object_section "diff" :: diff env setting conf) ++ [close_section])%list,
         conf, [])
  else if String.eqb command "log flush" then Ret ([], conf, [flush])
  else if String.eqb command "log dump" then Ret ([], conf, [dump_recent])
  else if String.eqb command "log reopen" then Ret ([], conf, [reopen_log_file])
  else Fatal (Aborted "registered under wrong command?").

(** ceph_context.cc:322-482.  The text built in [ss] and the two
    [lgeneric_dout] lines only feed the log and are left out. *)
Definition do_command (command : string) (cmdmap : gmap string cmd_vartype)
    (format : string) (conf : Conf) (perf : Perf) : outcome response :=
  if (String.eqb command "assert" && debug_asok_assert_abort env conf)%bool then
    Fatal AssertFailed
  else if (String.eqb command "abort" && debug_asok_assert_abort env conf)%bool then
    Fatal (Aborted "")
  else if (String.eqb command "perfcounters_dump" || String.eqb command "1" ||
           String.eqb command "perf dump")%bool then
    logger ← cmd_getval_string cmdmap "logger";
    counter ← cmd_getval_string cmdmap "counter";
    Ret {| rs_format := format;
           rs_out := dump_formatted env false (default "" logger)
                       (default "" counter) perf;
           rs_conf := conf; rs_perf := perf; rs_log := [] |}
  else if (String.eqb command "perfcounters_schema" || String.eqb command "2" ||
           String.eqb command "perf schema")%bool then
    Ret {| rs_format := format;
           rs_out := dump_formatted env true "" "" perf;
           rs_conf := conf; rs_perf := perf; rs_log := [] |}
  else if String.eqb command "perf histogram dump" then
    logger ← cmd_getval_string cmdmap "logger";
    counter ← cmd_getval_string cmdmap "counter";
    Ret {| rs_format := format;
           rs_out := dump_formatted_histograms env false (default "" logger)
                       (default "" counter) perf;
           rs_conf := conf; rs_perf := perf; rs_log := [] |}
  else if String.eqb command "perf histogram schema" then
    Ret {| rs_format := format;
           rs_out := dump_formatted_histograms env true "" "" perf;
           rs_conf := conf; rs_perf := perf; rs_log := [] |}
  else if String.eqb command "perf reset" then
    var ← cmd_getval_string cmdmap "var";
    match var with
    | None =>
        Ret {| rs_format := format;
               rs_out := [open_object_section command;
                          dump_string "error" "syntax error: 'perf reset <var>'";
                          close_section];
               rs_conf := conf; rs_perf := perf; rs_log := [] |}
    | Some var =>
        let '(found, perf1) := perf_reset env var perf in
        Ret {| rs_format := format;
               rs_out := [open_object_section command;
                          if found
                          then dump_string "success" (command +:+ " " +:+ var)
                          else dump_stream "error" ("Not find: " +:+ var);
                          close_section];
               rs_conf := conf; rs_perf := perf1; rs_log := [] |}
    end
  else
    let section := replace_spaces command in
    r ← config_and_log_command command cmdmap conf;
    let '(body, conf1, log) := r in
    Ret {| rs_format := format;
           rs_out := ((open_object_section section :: body) ++ [close_section])%list;
           rs_conf := conf1; rs_perf := perf; rs_log := log |}.

(** CephContextHook::call (ceph_context.cc:311-319): [bad_cmd_get] is
    caught and reported as [false]. *)
Definition call (command : string) (cmdmap : gmap string cmd_vartype)
    (format : string) (conf : Conf) (perf : Perf)
    : outcome (bool * option response) :=
  match do_command command cmdmap format conf perf with
  | Ret r => Ret (true, Some r)
  | Throw _ => Ret (false, None)
  | Fatal f => Fatal f
  end.

End Dispatch.

Arguments open_object_section {Opt} name.
Arguments open_array_section {Opt} name.
Arguments close_section {Opt}.
Arguments dump_string {Opt} name value.
Arguments dump_stream {Opt} name text.
Arguments dump_object {Opt} name o.
Arguments do_command {Conf Perf Opt} env command cmdmap format conf perf.
Arguments call {Conf Perf Opt} env command cmdmap format conf perf.

(** A sample configuration: the flag and, for each option, its name, its
    default and its value.  Its [diff] lists the options that differ from
    their default, all of them for the empty name and the named one
    otherwise. *)
Record sample_conf : Type := {
  sc_debug_asok_assert_abort : bool;
  sc_options : list (string * string * string)
}.

Definition sample_diff (name : string) (conf : sample_conf) : list (fmt_op string) :=
  map (λ o, dump_string o.1.1 o.2)
      (filter (λ o, (name = "" ∨ o.1.1 = name) ∧ o.1.2 ≠ o.2) (sc_options conf)).

Definition sample_env : collaborators sample_conf unit string :=
  {| debug_asok_assert_abort := sc_debug_asok_assert_abort;
     show_config := λ conf, map (λ o, dump_string o.1.1 o.2) (sc_options conf);
     rm_val := λ _ conf, (0%Z, conf);
     set_val := λ _ _ conf, (0%Z, conf);
     apply_changes := λ conf, ("", conf);
     get_val := λ _ _, (0%Z, "");
     get_schema := λ _ _, None;
     diff_all := sample_diff "";
     diff := sample_diff;
     normalize_key_name := λ s, s;
     ceph_options := [];
     cpp_strerror := λ _, "";
     dump_formatted := λ _ _ _ _, [];
     dump_formatted_histograms := λ _ _ _ _, [];
     perf_reset := λ _ perf, (true, perf) |}.

Definition conf_1 : sample_conf :=
  {| sc_debug_asok_assert_abort := false;
     sc_options := [("log_file", "/var/log/ceph.log", "/tmp/ceph.log");
                    ("debug_ms", "0", "1");
                    ("host", "", "")] |}.

End AdminCommands.

(** ** Further samples and notions for the properties beyond the claims *)

Module MoreObservers.
Import Observers.

(** An observer that tracks no key: its array holds the terminator only. *)
Definition mute_obs : ConfigObs :=
  {| obs_addr := 3; get_tracked_conf_keys := [] |}.

End MoreObservers.

Module Reachability.
Import Singletons.

(** The calls a user of the context makes on the registry and the fork
    hooks. *)
Inductive op : Type :=
  | op_lookup (r : request)
  | op_register_fork_watcher (w : ForkWatcher)
  | op_notify_pre_fork
  | op_notify_post_fork.

Definition step (o : op) (cct : CephContext) : CephContext :=
  match o with
  | op_lookup r => (do_request r cct).2
  | op_register_fork_watcher w => register_fork_watcher w cct
  | op_notify_pre_fork => notify_pre_fork cct
  | op_notify_post_fork => notify_post_fork cct
  end.

Definition run_ops (ops : list op) (cct : CephContext) : CephContext :=
  fold_left (λ c o, step o c) ops cct.

(** The watchers whose post-fork hook ran, in the order of the calls. *)
Definition post_fork_calls (tr : list event) : list nat :=
  omap (λ e, match e with EvPostFork w => Some w | _ => None end) tr.

(** The lookups that the post-fork hooks of the watchers make, hook after
    hook in the order of the watchers. *)
Definition post_fork_requests (ws : list ForkWatcher) : list request :=
  flat_map handle_post_fork ws.

(** No two slots hold the same object. *)
Definition unique_instances (cct : CephContext) : Prop :=
  ∀ k1 k2 a1 a2,
    associated_objs cct !! k1 = Some a1 →
    associated_objs cct !! k2 = Some a2 →
    any_instance a1 = any_instance a2 → k1 = k2.

(** No pre-fork hook of the context asks for [name] with [drop_on_fork]
    set. *)
Definition hooks_leave (name : string) (cct : CephContext) : Prop :=
  ∀ w r, w ∈ _fork_watchers cct → r ∈ handle_pre_fork w →
         rq_name r = name → rq_drop_on_fork r = false.

(** A second watcher, with a post-fork hook. *)
Definition watcher_6 : ForkWatcher :=
  {| fw_id := 6; handle_pre_fork := [];
     handle_post_fork := [ask TypeB "y" false 4] |}.

End Reachability.

Module MorePidFile.
Import PidFile.
Open Scope Z_scope.

(** The locked system seen from another process, 4321, that wants the
    same pid file. *)
Definition os_contended : os_state :=
  {| os_pid := 4321; os_names := os_names os_locked;
     os_data := os_data os_locked; os_fds := os_fds fresh_os;
     os_locks := os_locks os_locked; os_dev := os_dev os_locked;
     os_next_ino := os_next_ino os_locked; os_fail := os_fail os_locked |}.

(** A system in which [atexit] fails. *)
Definition os_no_atexit : os_state :=
  {| os_pid := os_pid fresh_os; os_names := os_names fresh_os;
     os_data := os_data fresh_os; os_fds := os_fds fresh_os;
     os_locks := os_locks fresh_os; os_dev := os_dev fresh_os;
     os_next_ino := os_next_ino fresh_os;
     os_fail := λ c, match c with sys_atexit => Some 12%positive | _ => None end |}.

Close Scope Z_scope.
End MorePidFile.

Module MoreAdminCommands.
Import AdminCommands.

(** The command names that some branch of [do_command] takes. *)
Definition served_commands : list string :=
  ["perfcounters_dump"; "1"; "perf dump";
   "perfcounters_schema"; "2"; "perf schema";
   "perf histogram dump"; "perf histogram schema"; "perf reset";
   "config show"; "config unset"; "config set"; "config get"; "config help";
   "config diff"; "config diff get";
   "log flush"; "log dump"; "log reopen"].

(** The arguments the commands read have the alternative they are read
    as: ["var"], ["logger"] and ["counter"] a string, ["val"] a vector of
    strings. *)
Definition well_typed (cmdmap : gmap string cmd_vartype) : Prop :=
  (∀ k v, k ∈ ["var"; "logger"; "counter"] → cmdmap !! k = Some v →
          ∃ s, v = cmd_string s) ∧
  (∀ v, cmdmap !! "val" = Some v → ∃ l, v = cmd_strings l).


End MoreAdminCommands.

(** ** The observers of ceph_context.cc *)

Module LockdepObs.

(** The calls made on the lock-dependency checker. *)
Inductive lockdep_call : Type :=
  | lockdep_register_ceph_context
  | lockdep_unregister_ceph_context.

(** [LockdepObs] (ceph_context.cc:49-80): the flag [m_registered] and the
    calls made so far. *)
Record LockdepObs : Type := {
  m_registered : bool;
  lockdep_calls : list lockdep_call
}.

(** The constructor (ceph_context.cc:51-53). *)
Definition new_obs : LockdepObs :=
  {| m_registered := false; lockdep_calls := [] |}.

(** ceph_context.cc:65-75; [lockdep] is [conf->lockdep]. *)
Definition handle_conf_change (lockdep : bool) (o : LockdepObs) : LockdepObs :=
  if (lockdep && negb (m_registered o))%bool then
    {| m_registered := true;
       lockdep_calls := lockdep_calls o ++ [lockdep_register_ceph_context] |}
  else if (negb lockdep && m_registered o)%bool then
    {| m_registered := false;
       lockdep_calls := lockdep_calls o ++ [lockdep_unregister_ceph_context] |}
  else o.

(** The destructor (ceph_context.cc:54-58): the calls made in all. *)
Definition destroy (o : LockdepObs) : list lockdep_call :=
  if m_registered o
  then lockdep_calls o ++ [lockdep_unregister_ceph_context]
  else lockdep_calls o.

(** A sequence of notifications, each with the value of [conf->lockdep]
    at that time. *)
Definition notify_all (values : list bool) (o : LockdepObs) : LockdepObs :=
  fold_left (λ o v, handle_conf_change v o) values o.

(** The calls made come in pairs, with one register left open while the
    observer is registered. *)
Definition paired (o : LockdepObs) : Prop :=
  ∃ n, lockdep_calls o
       = concat (replicate n [lockdep_register_ceph_context;
                              lockdep_unregister_ceph_context])
         ++ (if m_registered o then [lockdep_register_ceph_context] else []).

End LockdepObs.

Module LogObs.

(** The configuration values [LogObs::handle_conf_change] reads. *)
Record log_conf : Type := {
  log_to_stderr : bool;
  err_to_stderr : bool;
  log_to_syslog : bool;
  err_to_syslog : bool;
  log_to_file : bool;
  log_file : string;
  log_stderr_prefix : string;
  log_max_new : Z;
  log_max_recent : Z;
  log_to_graylog : bool;
  err_to_graylog : bool;
  log_graylog_host : string;
  log_graylog_port : Z;
  log_coarse_timestamps : bool;
  host : string;
  fsid : string
}.

(** The calls made on the log and on its graylog target. *)
Inductive log_method : Type :=
  | set_stderr_level (log crit : Z)
  | set_syslog_level (log crit : Z)
  | set_log_file (name : string)
  | reopen_log_file
  | set_log_stderr_prefix (p : string)
  | set_max_new (n : Z)
  | set_max_recent (n : Z)
  | set_graylog_level (log crit : Z)
  | start_graylog
  | stop_graylog
  | graylog_set_destination (h : string) (port : Z)
  | set_coarse_timestamps (b : bool)
  | graylog_set_hostname (h : string)
  | graylog_set_fsid (f : string).

(** Modelled from the spec: [ceph::logging::Log] (log/Log.h, not among the
    sources), the logging sink with its level, file and graylog setters.
    Of its state only whether a graylog target exists is kept, which is
    what [log->graylog()] tells: [start_graylog] makes one, [stop_graylog]
    drops it. *)
Record Log : Type := {
  log_calls : list log_method;
  graylog : bool
}.

Definition log_do (c : log_method) (l : Log) : Log :=
  {| log_calls := log_calls l ++ [c];
     graylog := match c with
                | start_graylog => true
                | stop_graylog => false
                | _ => graylog l
                end |}.

(** [LogObs::get_tracked_conf_keys] (ceph_context.cc:213-234). *)
Definition get_tracked_conf_keys : list string :=
  ["log_file"; "log_max_new"; "log_max_recent"; "log_to_file";
   "log_to_syslog"; "err_to_syslog"; "log_stderr_prefix"; "log_to_stderr";
   "err_to_stderr"; "log_to_graylog"; "err_to_graylog"; "log_graylog_host";
   "log_graylog_port"; "log_coarse_timestamps"; "fsid"; "host"].

(** The level computed in the three blocks: [a ? 99 : (b ? -1 : -2)]. *)
Definition level (a b : bool) : Z :=
  (if a then 99 else if b then -1 else -2)%Z.

Definition when (b : bool) (f : Log → Log) (l : Log) : Log :=
  if b then f l else l.

Definition count (k : string) (changed : gset string) : bool :=
  bool_decide (k ∈ changed).

(** The blocks of [handle_conf_change] (ceph_context.cc:236-302), in the
    order of the source; [changed.count(k)] is membership in the set of
    changed keys. *)

(** ceph_context.cc:239-243 *)
Definition stderr_block (conf : log_conf) (changed : gset string) : Log → Log :=
  when (count "log_to_stderr" changed || count "err_to_stderr" changed)
    (λ l, let lv := level (log_to_stderr conf) (err_to_stderr conf) in
          log_do (set_stderr_level lv lv) l).

(** ceph_context.cc:245-249 *)
Definition syslog_block (conf : log_conf) (changed : gset string) : Log → Log :=
  when (count "log_to_syslog" changed)
    (λ l, let lv := level (log_to_syslog conf) (err_to_syslog conf) in
          log_do (set_syslog_level lv lv) l).

(** ceph_context.cc:251-259 *)
Definition file_block (conf : log_conf) (changed : gset string) : Log → Log :=
  when (count "log_file" changed || count "log_to_file" changed)
    (λ l, log_do reopen_log_file
            (log_do (set_log_file
                       (if log_to_file conf then log_file conf else "")) l)).

(** ceph_context.cc:261-263 *)
Definition prefix_block (conf : log_conf) (changed : gset string) : Log → Log :=
  when (count "log_stderr_prefix" changed)
    (log_do (set_log_stderr_prefix (log_stderr_prefix conf))).

(** ceph_context.cc:265-268 *)
Definition max_new_block (conf : log_conf) (changed : gset string) : Log → Log :=
  when (count "log_max_new" changed) (log_do (set_max_new (log_max_new conf))).

(** ceph_context.cc:270-272 *)
Definition max_recent_block (conf : log_conf) (changed : gset string)
    : Log → Log :=
  when (count "log_max_recent" changed)
    (log_do (set_max_recent (log_max_recent conf))).

(** ceph_context.cc:274-284 *)
Definition graylog_block (conf : log_conf) (changed : gset string) : Log → Log :=
  when (count "log_to_graylog" changed || count "err_to_graylog" changed)
    (λ l, let lv := level (log_to_graylog conf) (err_to_graylog conf) in
          let l' := log_do (set_graylog_level lv lv) l in
          if (log_to_graylog conf || err_to_graylog conf)%bool then
            log_do start_graylog l'
          else if negb (log_to_graylog conf && err_to_graylog conf) then
            log_do stop_graylog l'
          else l').

(** ceph_context.cc:286-288 *)
Definition destination_block (conf : log_conf) (changed : gset string)
    (l : Log) : Log :=
  when (graylog l && (count "log_graylog_host" changed ||
                      count "log_graylog_port" changed))
    (log_do (graylog_set_destination (log_graylog_host conf)
               (log_graylog_port conf))) l.

(** ceph_context.cc:290-292 *)
Definition timestamps_block (conf : log_conf) (changed : gset string)
    : Log → Log :=
  when (count "log_coarse_timestamps" changed)
    (log_do (set_coarse_timestamps (log_coarse_timestamps conf))).

(** ceph_context.cc:295-297 *)
Definition host_block (conf : log_conf) (changed : gset string) (l : Log) : Log :=
  when (graylog l && count "host" changed)
    (log_do (graylog_set_hostname (host conf))) l.

(** ceph_context.cc:299-301 *)
Definition fsid_block (conf : log_conf) (changed : gset string) (l : Log) : Log :=
  when (graylog l && count "fsid" changed)
    (log_do (graylog_set_fsid (fsid conf))) l.

(** [LogObs::handle_conf_change] (ceph_context.cc:236-302). *)
Definition handle_conf_change (conf : log_conf) (changed : gset string)
    (log : Log) : Log :=
  fsid_block conf changed
    (host_block conf changed
      (timestamps_block conf changed
        (destination_block conf changed
          (graylog_block conf changed
            (max_recent_block conf changed
              (max_new_block conf changed
                (prefix_block conf changed
                  (file_block conf changed
                    (syslog_block conf changed
                      (stderr_block conf changed log)))))))))).

(** Is the call one on the graylog target? *)
Definition on_graylog_target (c : log_method) : bool :=
  match c with
  | graylog_set_destination _ _ | graylog_set_hostname _
  | graylog_set_fsid _ => true
  | _ => false
  end.

(** A sample configuration: everything off but the file. *)
Definition conf_file_only : log_conf :=
  {| log_to_stderr := false; err_to_stderr := true;
     log_to_syslog := false; err_to_syslog := true;
     log_to_file := true; log_file := "/var/log/ceph/osd.0.log";
     log_stderr_prefix := ""; log_max_new := 1000; log_max_recent := 500;
     log_to_graylog := false; err_to_graylog := false;
     log_graylog_host := "127.0.0.1"; log_graylog_port := 12201;
     log_coarse_timestamps := true; host := "node1"; fsid := "" |}.

Definition fresh_log : Log := {| log_calls := []; graylog := false |}.

(** [l'] continues [l]: the calls made before are still there, followed
    by new ones. *)
Definition continues (l l' : Log) : Prop :=
  ∃ new, log_calls l' = log_calls l ++ new.

(** [l'] continues [l] with calls that are not on the graylog target and
    without a change of the target. *)
Definition continues_plainly (l l' : Log) : Prop :=
  (∃ new, log_calls l' = log_calls l ++ new ∧
          Forall (λ c, on_graylog_target c = false) new) ∧
  graylog l' = graylog l.

End LogObs.

(** ** common_init.cc *)

Module CommonInit.

Definition MAX_PARSE_ERRORS : nat := 20.

(** A number written to the log stream. *)
Definition show_nat (n : nat) : string :=
  NilZero.string_of_uint (Nat.to_uint n).

(** The loop of [complain_about_parse_errors] (common_init.cc:65-73): the
    lines written with [lderr] from the error [p] on, [cur_err] being the
    counter and [size] the number of errors in all. *)
Fixpoint complain_loop (errors : list string) (cur_err size : nat)
    : list string :=
  match errors with
  | [] => []
  | p :: rest =>
      p :: (if Nat.eqb cur_err MAX_PARSE_ERRORS
            then ["Suppressed " +:+ show_nat (size - MAX_PARSE_ERRORS)
                  +:+ " more errors."]
            else complain_loop rest (S cur_err) size)
  end.

(** common_init.cc:58-74: the lines written with [lderr]. *)
Definition complain_about_parse_errors (parse_errors : list string)
    : list string :=
  match parse_errors with
  | [] => []
  | _ :: _ =>
      "Errors while parsing config file!"
      :: complain_loop parse_errors 0 (length parse_errors)
  end.

(** [ACCESSPERMS] of <sys/stat.h>: 0777. *)
Definition ACCESSPERMS : Z := 511.

(** What [common_init_finish] reads and sets in the context and its
    configuration. *)
Record init_state : Type := {
  _finished : bool;
  init_flags : Z;
  set_uid : Z;
  set_gid : Z;
  admin_socket : string;
  admin_socket_mode : string
}.

Inductive init_effect : Type :=
  | init_crypto
  | ztrace_init
  | log_start
  | start_service_thread
  | admin_socket_chown (uid gid : Z)
  | admin_socket_chmod (mode : Z)
  | lderr (msg : string).

Section Finish.

(** The flags of common_init.h and [strict_strtol] of common/strtol.h are
    not among the sources: the two bits tested and the parser, which gives
    the value and the error text, are parameters. *)
Variables CINIT_FLAG_NO_DAEMON_ACTIONS CINIT_FLAG_DEFER_DROP_PRIVILEGES : Z.
Variable strict_strtol : string → Z → Z * string.

(** The last block of [common_init_finish] (common_init.cc:103-118). *)
Definition set_admin_socket_mode (cct : init_state) : list init_effect :=
  if (negb (String.eqb (admin_socket cct) "") &&
      negb (String.eqb (admin_socket_mode cct) ""))%bool then
    let '(ret, err) := strict_strtol (admin_socket_mode cct) 8 in
    if String.eqb err "" then
      if Z.eqb (Z.land ret (Z.lnot ACCESSPERMS)) 0
      then [admin_socket_chmod ret]
      else [lderr ("Invalid octal permissions string: "
                   +:+ admin_socket_mode cct)]
    else [lderr ("Invalid octal string: " +:+ err)]
  else [].

(** common_init.cc:79-119: the calls made and the context afterwards;
    [log_is_started] is the answer of [_log->is_started()]. *)
Definition common_init_finish (log_is_started : bool) (cct : init_state)
    : list init_effect * init_state :=
  if _finished cct then ([], cct)
  else
    ([init_crypto; ztrace_init]
     ++ (if log_is_started then [] else [log_start])
     ++ (if Z.eqb (Z.land (init_flags cct) CINIT_FLAG_NO_DAEMON_ACTIONS) 0
         then [start_service_thread] else [])
     ++ (if (negb (Z.eqb (Z.land (init_flags cct)
                            CINIT_FLAG_DEFER_DROP_PRIVILEGES) 0) &&
             (negb (Z.eqb (set_uid cct) 0) || negb (Z.eqb (set_gid cct) 0)))%bool
         then [admin_socket_chown (set_uid cct) (set_gid cct)] else [])
     ++ set_admin_socket_mode cct,
     {| _finished := true;
        init_flags := init_flags cct; set_uid := set_uid cct;
        set_gid := set_gid cct; admin_socket := admin_socket cct;
        admin_socket_mode := admin_socket_mode cct |}).

End Finish.

(** A context with an admin socket and the mode 0640, and a parser that
    reads this mode. *)
Definition cct_with_socket : init_state :=
  {| _finished := false; init_flags := 0; set_uid := 0; set_gid := 0;
     admin_socket := "/run/ceph/a.asok"; admin_socket_mode := "0640" |}.

Definition strtol_0640 (s : string) (base : Z) : Z * string :=
  if String.eqb s "0640" then (416%Z, "") else (0%Z, "not an octal number").

End CommonInit.

(** ** The service thread (ceph_context.cc:136-194, 604-657) *)

Module ServiceThread.

(** The two flags of [CephContextServiceThread], both guarded by
    [_lock]. *)
Record CephContextServiceThread : Type := {
  _reopen_logs : bool;
  _exit_thread : bool
}.

(** The constructor (ceph_context.cc:139-140). *)
Definition new_thread : CephContextServiceThread :=
  {| _reopen_logs := false; _exit_thread := false |}.

(** A call of [reopen_logs()] or [exit_thread()] by another thread: each
    takes [_lock], sets its flag and notifies the condition. *)
Inductive signal : Type :=
  | call_reopen_logs
  | call_exit_thread.

#[global] Instance signal_eq_dec : EqDecision signal.
Proof. solve_decision. Defined.

(** ceph_context.cc:174-186: [reopen_logs()] and [exit_thread()]. *)
Definition deliver (t : CephContextServiceThread) (s : signal)
    : CephContextServiceThread :=
  match s with
  | call_reopen_logs =>
      {| _reopen_logs := true; _exit_thread := _exit_thread t |}
  | call_exit_thread =>
      {| _reopen_logs := _reopen_logs t; _exit_thread := true |}
  end.

(** What the thread does in one turn. *)
Inductive work : Type :=
  | reopen_log_file
  | check_touch_file
  | refresh_perf_values.

#[global] Instance work_eq_dec : EqDecision work.
Proof. solve_decision. Defined.

(** One turn of the loop of [entry] (ceph_context.cc:146-170).  The flags
    change only while the thread does not hold [_lock]: [before] lists the
    calls of other threads before it takes the lock at the top of the
    turn, [during] their calls while it waits on the condition, from which
    it wakes by a notification or when the heartbeat interval is over.
    The result is the work done, the flags, and whether the loop goes
    on. *)
Definition turn (before during : list signal) (t : CephContextServiceThread)
    : list work * CephContextServiceThread * bool :=
  let t1 := fold_left deliver before t in
  if _exit_thread t1 then ([], t1, false)
  else
    let t2 := fold_left deliver during t1 in
    if _exit_thread t2 then ([], t2, false)
    else
      if _reopen_logs t2 then
        ([reopen_log_file; check_touch_file; refresh_perf_values],
         {| _reopen_logs := false; _exit_thread := _exit_thread t2 |}, true)
      else ([check_touch_file; refresh_perf_values], t2, true).

(** [entry] over the turns of a schedule: the work done, the flags, and
    whether the loop has ended ([false]: the thread waits for its next
    turn). *)
Fixpoint entry (schedule : list (list signal * list signal))
    (t : CephContextServiceThread)
    : list work * CephContextServiceThread * bool :=
  match schedule with
  | [] => ([], t, false)
  | (before, during) :: rest =>
      let '(w, t', goes_on) := turn before during t in
      if goes_on then
        let '(ws, t'', ended) := entry rest t' in (w ++ ws, t'', ended)
      else (w, t', true)
  end.

(** Where the thread is after a schedule: between two turns, in a wait
    that nothing ends, or out of [entry]. *)
Inductive thread_state : Type :=
  | at_loop_top
  | in_wait
  | returned.

(** Whether the wait of a turn comes back (ceph_context.cc:152-157).
    With a heartbeat interval the wait is [wait_for(l, interval)], which
    comes back when the interval is over at the latest.  With the
    interval 0 it is [wait(l)], without predicate and without time-out,
    which comes back on a notification only, that is on a call made while
    the thread waits: a call made before the thread waits has notified
    nobody.  (A wake-up without cause is permitted, and [entry] covers
    the turns it gives, but nothing brings one about.) *)
Definition wait_returns (heartbeat_interval : Z) (during : list signal)
    : bool :=
  negb (Z.eqb heartbeat_interval 0)
  || match during with [] => false | _ :: _ => true end.

(** [entry] with the waits that do not come back: the thread goes
    through the turns of the schedule up to the first one in which it is
    not told to exit before it waits and the wait does not come back;
    there it stays, with the flags as they were when it began to
    wait. *)
Fixpoint entry_waiting (heartbeat_interval : Z)
    (schedule : list (list signal * list signal))
    (t : CephContextServiceThread)
    : list work * CephContextServiceThread * thread_state :=
  match schedule with
  | [] => ([], t, at_loop_top)
  | (before, during) :: rest =>
      if (negb (_exit_thread (fold_left deliver before t))
          && negb (wait_returns heartbeat_interval during))%bool
      then ([], fold_left deliver before t, in_wait)
      else
        let '(w, t', goes_on) := turn before during t in
        if goes_on then
          let '(ws, t'', st) := entry_waiting heartbeat_interval rest t' in
          (w ++ ws, t'', st)
        else (w, t', returned)
  end.

(** All the calls of other threads in a schedule. *)
Definition signals (schedule : list (list signal * list signal)) : list signal :=
  flat_map (λ bd, bd.1 ++ bd.2) schedule.

Definition count_work (w : work) (ws : list work) : nat :=
  length (filter (λ x, x = w) ws).

Definition count_signal (s : signal) (ss : list signal) : nat :=
  length (filter (λ x, x = s) ss).

(** *** Starting and joining the thread *)

(** What [start_service_thread], [join_service_thread] and [reopen_logs]
    read and set in the context. *)
Record service_state : Type := {
  _service_thread : option CephContextServiceThread;
  init_flags : Z;
  log_flush_on_exit : bool;
  admin_socket : string
}.

Inductive service_call : Type :=
  | thread_create
  | enable_perf_counter
  | set_flush_on_exit
  | set_safe_to_start_threads
  | call_all_observers
  | admin_socket_init (path : string)
  | thread_join
  | disable_perf_counter.

#[global] Instance service_call_eq_dec : EqDecision service_call.
Proof. solve_decision. Defined.

Inductive service_op : Type :=
  | op_start_service_thread
  | op_join_service_thread
  | op_reopen_logs.

Section Control.

(** The flag of common_init.h that switches the counters of the context
    off. *)
Variable CINIT_FLAG_NO_CCT_PERF_COUNTERS : Z.

Definition with_thread (th : option CephContextServiceThread)
    (cct : service_state) : service_state :=
  {| _service_thread := th; init_flags := init_flags cct;
     log_flush_on_exit := log_flush_on_exit cct;
     admin_socket := admin_socket cct |}.

Definition perf_counters (cct : service_state) : bool :=
  Z.eqb (Z.land (init_flags cct) CINIT_FLAG_NO_CCT_PERF_COUNTERS) 0.

(** ceph_context.cc:604-630 *)
Definition start_service_thread (cct : service_state)
    : list service_call * service_state :=
  match _service_thread cct with
  | Some _ => ([], cct)
  | None =>
      ([thread_create]
       ++ (if perf_counters cct then [enable_perf_counter] else [])
       ++ (if log_flush_on_exit cct then [set_flush_on_exit] else [])
       ++ [set_safe_to_start_threads; call_all_observers]
       ++ (if Nat.eqb (String.length (admin_socket cct)) 0 then []
           else [admin_socket_init (admin_socket cct)]),
       with_thread (Some new_thread) cct)
  end.

(** ceph_context.cc:639-657: the thread is told to exit, joined and
    deleted. *)
Definition join_service_thread (cct : service_state)
    : list service_call * service_state :=
  match _service_thread cct with
  | None => ([], cct)
  | Some _ =>
      ([thread_join]
       ++ (if perf_counters cct then [disable_perf_counter] else []),
       with_thread None cct)
  end.

(** ceph_context.cc:632-637 *)
Definition reopen_logs (cct : service_state) : service_state :=
  match _service_thread cct with
  | Some t => with_thread (Some (deliver t call_reopen_logs)) cct
  | None => cct
  end.

Definition service_step (cs : list service_call * service_state)
    (o : service_op) : list service_call * service_state :=
  match o with
  | op_start_service_thread =>
      let '(c, s) := start_service_thread cs.2 in (cs.1 ++ c, s)
  | op_join_service_thread =>
      let '(c, s) := join_service_thread cs.2 in (cs.1 ++ c, s)
  | op_reopen_logs => (cs.1, reopen_logs cs.2)
  end.

Definition run_service (ops : list service_op) (cct : service_state)
    : list service_call * service_state :=
  fold_left service_step ops ([], cct).

End Control.

Definition count_call (c : service_call) (cs : list service_call) : nat :=
  length (filter (λ x, x = c) cs).

(** The number of service threads of a context. *)
Definition threads (cct : service_state) : nat :=
  match _service_thread cct with Some _ => 1 | None => 0 end.

End ServiceThread.

(** ** The reference count of the context (ceph_context.h:72-78,
       ceph_context.cc:594-602) *)

Module RefCount.

Open Scope Z_scope.

(** [std::atomic<unsigned> nref]: 32 bits, wrapping. *)
Definition wrap (n : Z) : Z := n mod 2 ^ 32.

(** [get()]: [++nref]. *)
Definition get (nref : Z) : Z := wrap (nref + 1).

(** [put()]: [--nref], and [delete this] when it has reached 0; [None]
    stands for the deleted context. *)
Definition put (nref : Z) : option Z :=
  let n := wrap (nref - 1) in
  if Z.eqb n 0 then None else Some n.

Inductive ref_op : Type := op_get | op_put.

#[global] Instance ref_op_eq_dec : EqDecision ref_op.
Proof. solve_decision. Defined.

(** A sequence of calls on a context; it ends where the context is
    deleted, since a deleted context must not be used. *)
Fixpoint run_refs (ops : list ref_op) (nref : Z) : option Z :=
  match ops with
  | [] => Some nref
  | op_get :: rest => run_refs rest (get nref)
  | op_put :: rest =>
      match put nref with
      | None => None
      | Some n => run_refs rest n
      end
  end.

Definition gets (ops : list ref_op) : Z :=
  Z.of_nat (length (filter (λ o, o = op_get) ops)).

Definition puts (ops : list ref_op) : Z :=
  Z.of_nat (length (filter (λ o, o = op_put) ops)).

Close Scope Z_scope.

End RefCount.

(** ** The prefix providers of dout.h (dout.h:40-87) *)

Module Dout.

(** [NoDoutPrefix], [DoutPrefix] and a [DoutPrefixPipe] on top of another
    provider; [add_prefix] of the pipe is the text its [add_prefix(out)]
    writes. *)
Inductive DoutPrefixProvider : Type :=
  | NoDoutPrefix (cct : nat) (subsys : N)
  | DoutPrefix (cct : nat) (subsys : N) (prefix : string)
  | DoutPrefixPipe (dpp : DoutPrefixProvider) (add_prefix : string).

(** [gen_prefix(out)]: the stream after the call. *)
Fixpoint gen_prefix (p : DoutPrefixProvider) (out : string) : string :=
  match p with
  | NoDoutPrefix _ _ => out
  | DoutPrefix _ _ prefix => out +:+ prefix
  | DoutPrefixPipe dpp add_prefix => gen_prefix dpp out +:+ add_prefix
  end.

Fixpoint get_cct (p : DoutPrefixProvider) : nat :=
  match p with
  | NoDoutPrefix cct _ | DoutPrefix cct _ _ => cct
  | DoutPrefixPipe dpp _ => get_cct dpp
  end.

Fixpoint get_subsys (p : DoutPrefixProvider) : N :=
  match p with
  | NoDoutPrefix _ subsys | DoutPrefix _ subsys _ => subsys
  | DoutPrefixPipe dpp _ => get_subsys dpp
  end.

(** Pipes stacked on a provider, the innermost first. *)
Definition pipe_stack (base : DoutPrefixProvider) (adds : list string)
    : DoutPrefixProvider :=
  fold_left DoutPrefixPipe adds base.

End Dout.

(** * Properties *)

(** ** The singleton registry and the fork hooks *)

Module SingletonFacts.
Import Singletons.

Lemma wf_empty : wf empty_context.
Proof. intros n T a H. cbn in H. by rewrite lookup_empty in H. Qed.

(** What one lookup does, in the two cases of the search. *)
Lemma lookup_hit T name d args cct a :
  associated_objs cct !! (name, T) = Some a →
  lookup_or_create_singleton_object T name d args cct = (any_cast T a, cct).
Proof. intros H. unfold lookup_or_create_singleton_object. by rewrite H. Qed.

Lemma lookup_miss T name d args cct :
  associated_objs cct !! (name, T) = None →
  let a := {| any_type := T; any_args := args;
              any_instance := next_instance cct |} in
  let cct' := (lookup_or_create_singleton_object T name d args cct).2 in
  (lookup_or_create_singleton_object T name d args cct).1 = Ret a ∧
  associated_objs cct' = <[(name, T) := a]> (associated_objs cct) ∧
  associated_objs_drop_on_fork cct' =
    (if d then {[name]} ∪ associated_objs_drop_on_fork cct
     else associated_objs_drop_on_fork cct) ∧
  _fork_watchers cct' = _fork_watchers cct ∧
  next_instance cct' = S (next_instance cct) ∧
  trace cct' = trace cct ++ [EvConstruct name T (next_instance cct)].
Proof.
  intros H. unfold lookup_or_create_singleton_object. rewrite H. cbn.
  unfold any_cast; cbn. by rewrite decide_True.
Qed.

(** The two cases of a lookup: the slot is there and the context is left
    as it is, or the slot is made and [H] tells what changed. *)
Ltac lookup_cases T name d args cct H :=
  let E := fresh "E" in
  destruct (associated_objs cct !! (name, T)) eqn:E;
  [ rewrite (lookup_hit T name d args cct _ E)
  | pose proof (lookup_miss T name d args cct E) as H; cbn zeta in H ].

Lemma any_cast_wf cct name T a :
  wf cct → associated_objs cct !! (name, T) = Some a → any_cast T a = Ret a.
Proof.
  intros Hwf H. destruct (Hwf _ _ _ H) as [Ht _].
  unfold any_cast. by rewrite decide_True.
Qed.

Lemma lookup_wf T name d args cct :
  wf cct → wf (lookup_or_create_singleton_object T name d args cct).2.
Proof.
  intros Hwf. destruct (associated_objs cct !! (name, T)) as [a|] eqn:E.
  - by rewrite (lookup_hit _ _ _ _ _ _ E).
  - destruct (lookup_miss T name d args cct E) as (_ & Ho & _ & _ & Hn & _).
    intros n U b. rewrite Ho, Hn.
    destruct (decide ((name, T) = (n, U))) as [Heq|Hne].
    + rewrite Heq, lookup_insert_eq. intros [= <-]. cbn.
      split; [congruence | lia].
    + rewrite lookup_insert_ne by done. intros Hb.
      destruct (Hwf _ _ _ Hb). split; [done | lia].
Qed.

(** A lookup returns the object of the slot it leaves under its key. *)
Lemma lookup_returns_slot T name d args cct :
  wf cct →
  ∃ a, (lookup_or_create_singleton_object T name d args cct).1 = Ret a ∧
       associated_objs (lookup_or_create_singleton_object T name d args cct).2
         !! (name, T) = Some a.
Proof.
  intros Hwf. destruct (associated_objs cct !! (name, T)) as [a|] eqn:E.
  - rewrite (lookup_hit _ _ _ _ _ _ E). cbn. exists a.
    split; [by eapply any_cast_wf | done].
  - destruct (lookup_miss T name d args cct E) as (Hr & Ho & _).
    eexists. split; [exact Hr |]. rewrite Ho. apply lookup_insert_eq.
Qed.

(** A lookup never removes or replaces a slot, never takes a name out of
    the drop set and never lowers the count of constructions. *)
Lemma lookup_keeps_slot T name d args cct k a :
  associated_objs cct !! k = Some a →
  associated_objs (lookup_or_create_singleton_object T name d args cct).2 !! k
    = Some a.
Proof.
  intros Hk. lookup_cases T name d args cct H; [done|].
  destruct H as (_ & Ho & _).
  rewrite Ho. rewrite lookup_insert_ne; [done | congruence].
Qed.

Lemma lookup_keeps_mark T name d args cct n :
  n ∈ associated_objs_drop_on_fork cct →
  n ∈ associated_objs_drop_on_fork
        (lookup_or_create_singleton_object T name d args cct).2.
Proof.
  intros Hn. lookup_cases T name d args cct H; [done|].
  destruct H as (_ & _ & Hd & _).
  rewrite Hd. destruct d; [by apply elem_of_union_r | done].
Qed.

Lemma lookup_next_instance T name d args cct :
  (next_instance cct ≤
   next_instance (lookup_or_create_singleton_object T name d args cct).2)%nat.
Proof.
  lookup_cases T name d args cct H; [done|].
  destruct H as (_ & _ & _ & _ & Hn & _). rewrite Hn. lia.
Qed.

Lemma lookup_fork_watchers T name d args cct :
  _fork_watchers (lookup_or_create_singleton_object T name d args cct).2
  = _fork_watchers cct.
Proof.
  lookup_cases T name d args cct H; [done|].
  by destruct H as (_ & _ & _ & Hw & _).
Qed.

Lemma lookup_pre_fork_calls T name d args cct :
  pre_fork_calls (trace (lookup_or_create_singleton_object T name d args cct).2)
  = pre_fork_calls (trace cct).
Proof.
  lookup_cases T name d args cct H; [done|].
  destruct H as (_ & _ & _ & _ & _ & Ht).
  rewrite Ht. unfold pre_fork_calls. rewrite omap_app. cbn.
  by rewrite app_nil_r.
Qed.

Lemma constructions_app name T tr1 tr2 :
  constructions name T (tr1 ++ tr2)
  = constructions name T tr1 + constructions name T tr2.
Proof. unfold constructions. by rewrite filter_app, length_app. Qed.

Lemma constructions_one name T n U i :
  constructions name T [EvConstruct n U i]
  = if decide (n = name ∧ U = T) then 1 else 0.
Proof.
  unfold constructions. rewrite filter_cons, filter_nil. cbn.
  destruct (decide (n = name ∧ U = T)) as [H|H].
  - rewrite bool_decide_eq_true_2 by done. by rewrite decide_True.
  - rewrite bool_decide_eq_false_2 by done. by rewrite decide_False.
Qed.

(** The history of constructions of a key grows by one on a miss of that
    key and not at all otherwise. *)
Lemma lookup_constructions T name d args cct n U :
  constructions n U
    (trace (lookup_or_create_singleton_object T name d args cct).2)
  = constructions n U (trace cct) +
    (if decide (name = n ∧ T = U)
     then match associated_objs cct !! (n, U) with Some _ => 0 | None => 1 end
     else 0).
Proof.
  destruct (associated_objs cct !! (name, T)) as [b|] eqn:E.
  - rewrite (lookup_hit _ _ _ _ _ _ E). cbn.
    destruct (decide (name = n ∧ T = U)) as [[-> ->]|]; [rewrite E|]; lia.
  - destruct (lookup_miss T name d args cct E) as (_ & _ & _ & _ & _ & Ht).
    rewrite Ht, constructions_app, constructions_one.
    destruct (decide (name = n ∧ T = U)) as [[-> ->]|]; [by rewrite E | done].
Qed.

Lemma lookup_slot_exists T name d args cct :
  is_Some (associated_objs
             (lookup_or_create_singleton_object T name d args cct).2
             !! (name, T)).
Proof.
  destruct (associated_objs cct !! (name, T)) as [a|] eqn:E.
  - rewrite (lookup_hit _ _ _ _ _ _ E). cbn. by rewrite E.
  - destruct (lookup_miss T name d args cct E) as (_ & Ho & _).
    rewrite Ho, lookup_insert_eq. by eexists.
Qed.

Lemma extends_refl cct : extends cct cct.
Proof. repeat split; auto. Qed.

Lemma extends_trans c1 c2 c3 : extends c1 c2 → extends c2 c3 → extends c1 c3.
Proof.
  intros (Ha & Hb & Hc & Hd) (Ha' & Hb' & Hc' & Hd').
  repeat split.
  - intros k a H. auto.
  - set_solver.
  - lia.
  - congruence.
Qed.

Lemma lookup_extends T name d args cct :
  extends cct (lookup_or_create_singleton_object T name d args cct).2.
Proof.
  repeat split.
  - intros k a. apply lookup_keeps_slot.
  - intros n. apply lookup_keeps_mark.
  - apply lookup_next_instance.
  - apply lookup_fork_watchers.
Qed.

Lemma log_event_extends e cct : extends cct (log_event e cct).
Proof. repeat split; auto. Qed.

Lemma log_event_wf e cct : wf cct → wf (log_event e cct).
Proof. intros H n T a. apply H. Qed.

(** Sequences of lookups *)

Lemma run_lookups_cons r rs cct :
  run_lookups (r :: rs) cct =
  ((do_request r cct).1 :: (run_lookups rs (do_request r cct).2).1,
   (run_lookups rs (do_request r cct).2).2).
Proof.
  cbn. destruct (do_request r cct) as [o c1]. cbn.
  by destruct (run_lookups rs c1).
Qed.

Lemma run_lookups_wf rs cct : wf cct → wf (run_lookups rs cct).2.
Proof.
  revert cct. induction rs as [|r rs IH]; intros cct Hwf; [done|].
  rewrite run_lookups_cons. cbn. apply IH. by apply lookup_wf.
Qed.

Lemma run_lookups_extends rs cct : extends cct (run_lookups rs cct).2.
Proof.
  revert cct. induction rs as [|r rs IH]; intros cct.
  - apply extends_refl.
  - rewrite run_lookups_cons. cbn.
    eapply extends_trans; [apply lookup_extends | apply IH].
Qed.

Lemma run_lookups_pre_fork_calls rs cct :
  pre_fork_calls (trace (run_lookups rs cct).2) = pre_fork_calls (trace cct).
Proof.
  revert cct. induction rs as [|r rs IH]; intros cct; [done|].
  rewrite run_lookups_cons. cbn. rewrite IH. apply lookup_pre_fork_calls.
Qed.

(** Every lookup of a sequence returns the object that the one slot of
    its key holds when the sequence is over. *)
Lemma run_lookups_results rs cct i r o :
  wf cct → rs !! i = Some r → (run_lookups rs cct).1 !! i = Some o →
  ∃ a, o = Ret a ∧
       associated_objs (run_lookups rs cct).2 !! (rq_name r, rq_type r) = Some a.
Proof.
  revert cct i. induction rs as [|r0 rs IH]; intros cct i Hwf Hr Ho; [done|].
  rewrite run_lookups_cons in Ho |- *. cbn in Ho |- *.
  destruct i as [|i]; cbn in Hr, Ho.
  - injection Hr as ->. injection Ho as <-.
    destruct (lookup_returns_slot (rq_type r) (rq_name r) (rq_drop_on_fork r)
                (rq_args r) cct Hwf) as (a & Ha & Hs).
    exists a. split; [exact Ha|].
    by apply (run_lookups_extends rs (do_request r cct).2).
  - eapply IH; eauto. by apply lookup_wf.
Qed.

(** There is at most one slot under a pair. *)
Lemma slots_lookup name T cct :
  slots name T cct
  = match associated_objs cct !! (name, T) with Some _ => 1 | None => 0 end.
Proof.
  unfold slots.
  destruct (associated_objs cct !! (name, T)) as [a|] eqn:E.
  - replace (filter (λ kv, kv.1 = (name, T)) (associated_objs cct))
      with ({[(name, T) := a]} : gmap (string * type_index) immobile_any).
    + apply map_size_singleton.
    + apply map_eq. intros k. destruct (decide (k = (name, T))) as [->|Hk].
      * rewrite lookup_singleton_eq. symmetry.
        by apply map_lookup_filter_Some.
      * rewrite lookup_singleton_ne by done. symmetry.
        apply map_lookup_filter_None. right. intros b _. exact Hk.
  - replace (filter (λ kv, kv.1 = (name, T)) (associated_objs cct))
      with (∅ : gmap (string * type_index) immobile_any).
    + apply map_size_empty.
    + apply map_eq. intros k. rewrite lookup_empty. symmetry.
      apply map_lookup_filter_None.
      destruct (decide (k = (name, T))) as [->|Hk]; [by left|].
      right. intros b _. exact Hk.
Qed.

Lemma slots_le_1 name T cct : (slots name T cct ≤ 1)%nat.
Proof. rewrite slots_lookup. destruct (_ !! _); lia. Qed.

(** A construction of a key is what brings its slot into being: over
    one lookup, and so over any sequence of them, the history of the key
    grows exactly as the number of its slots does. *)
Lemma lookup_constructions_slots T name d args cct n U :
  constructions n U
    (trace (lookup_or_create_singleton_object T name d args cct).2)
  + slots n U cct
  = constructions n U (trace cct)
    + slots n U (lookup_or_create_singleton_object T name d args cct).2.
Proof.
  rewrite lookup_constructions, !slots_lookup.
  destruct (associated_objs cct !! (name, T)) as [b|] eqn:E.
  - rewrite (lookup_hit _ _ _ _ _ _ E). cbn.
    case_decide as Hk; [destruct Hk as [-> ->]; rewrite E|]; lia.
  - destruct (lookup_miss T name d args cct E) as (_ & Ho & _).
    rewrite Ho. case_decide as Hk.
    + destruct Hk as [-> ->]. rewrite E, lookup_insert_eq. lia.
    + rewrite lookup_insert_ne; [lia|]. intros [= -> ->]. by apply Hk.
Qed.

Lemma run_lookups_constructions_slots rs cct n U :
  constructions n U (trace (run_lookups rs cct).2) + slots n U cct
  = constructions n U (trace cct) + slots n U (run_lookups rs cct).2.
Proof.
  revert cct. induction rs as [|r rs IH]; intros cct; [done|].
  rewrite run_lookups_cons. cbn.
  specialize (IH (do_request r cct).2).
  pose proof (lookup_constructions_slots (rq_type r) (rq_name r)
                (rq_drop_on_fork r) (rq_args r) cct n U) as H1.
  unfold do_request in *. lia.
Qed.

(** The watchers' pre-fork hooks *)

Lemma call_pre_fork_wf ws cct : wf cct → wf (call_pre_fork ws cct).
Proof.
  revert cct. induction ws as [|w ws IH]; intros cct Hwf; [done|].
  cbn. apply IH. apply run_lookups_wf. by apply log_event_wf.
Qed.

Lemma call_pre_fork_extends ws cct : extends cct (call_pre_fork ws cct).
Proof.
  revert cct. induction ws as [|w ws IH]; intros cct.
  - apply extends_refl.
  - cbn. eapply extends_trans; [|apply IH].
    eapply extends_trans; [apply (log_event_extends (EvPreFork (fw_id w)))|].
    apply run_lookups_extends.
Qed.

Lemma call_pre_fork_calls ws cct :
  pre_fork_calls (trace (call_pre_fork ws cct))
  = pre_fork_calls (trace cct) ++ map fw_id ws.
Proof.
  revert cct. induction ws as [|w ws IH]; intros cct.
  - cbn. by rewrite app_nil_r.
  - cbn. rewrite IH, run_lookups_pre_fork_calls. cbn.
    unfold pre_fork_calls at 1. rewrite omap_app. cbn.
    by rewrite <- app_assoc.
Qed.

(** The pruning *)

Lemma drop_marked_entries_lookup cct n T :
  associated_objs (drop_marked_entries cct) !! (n, T)
  = if decide (n ∈ associated_objs_drop_on_fork cct) then None
    else associated_objs cct !! (n, T).
Proof.
  cbn. case_decide as Hn.
  - apply map_lookup_filter_None. right. intros a _ Hc. by apply Hc.
  - destruct (associated_objs cct !! (n, T)) as [a|] eqn:E.
    + by apply map_lookup_filter_Some.
    + apply map_lookup_filter_None. by left.
Qed.

Lemma drop_marked_entries_wf cct : wf cct → wf (drop_marked_entries cct).
Proof.
  intros Hwf n T a. rewrite drop_marked_entries_lookup.
  case_decide; [done|]. apply Hwf.
Qed.

Lemma notify_pre_fork_wf cct : wf cct → wf (notify_pre_fork cct).
Proof.
  intros Hwf. apply drop_marked_entries_wf. by apply call_pre_fork_wf.
Qed.

Lemma notify_pre_fork_drops cct n T :
  n ∈ associated_objs_drop_on_fork cct →
  associated_objs (notify_pre_fork cct) !! (n, T) = None.
Proof.
  intros Hn. unfold notify_pre_fork. rewrite drop_marked_entries_lookup.
  rewrite decide_True; [done|].
  by apply (call_pre_fork_extends (_fork_watchers cct) cct).
Qed.

Lemma notify_pre_fork_next_instance cct :
  (next_instance cct ≤ next_instance (notify_pre_fork cct))%nat.
Proof. apply (call_pre_fork_extends (_fork_watchers cct) cct). Qed.

(** A singleton made with [drop_on_fork] set stays marked while only
    lookups follow. *)
Lemma created_marked T name args rs cct :
  associated_objs cct !! (name, T) = None →
  name ∈ associated_objs_drop_on_fork
    (run_lookups rs
       (lookup_or_create_singleton_object T name true args cct).2).2.
Proof.
  intros E. apply run_lookups_extends.
  destruct (lookup_miss T name true args cct E) as (_ & _ & Hd & _).
  rewrite Hd. by apply elem_of_union_l, elem_of_singleton.
Qed.

(** A lookup after the slot was dropped builds an object that is not the
    old one. *)
Lemma lookup_after_drop T name d args cct a :
  associated_objs cct !! (name, T) = None →
  (any_instance a < next_instance cct)%nat →
  ∃ b, (lookup_or_create_singleton_object T name d args cct).1 = Ret b ∧
       any_instance b ≠ any_instance a ∧
       constructions name T
         (trace (lookup_or_create_singleton_object T name d args cct).2)
       = S (constructions name T (trace cct)).
Proof.
  intros E Ha.
  destruct (lookup_miss T name d args cct E) as (Hr & _).
  eexists. split; [exact Hr|]. cbn. split; [lia|].
  rewrite lookup_constructions, E. rewrite decide_True by done. lia.
Qed.

(** ** Claims on the singleton registry *)

(** C1, as the code has it: the registry is searched by the pair
    (name, type), so asking for a name under a type [U] other than the
    type [T] it was created with is no fault.  The lookup returns an
    object of type [U] held in a slot of its own under [(name, U)], and
    the slot of [(name, T)] stays as it was. *)
Theorem lookup_other_type_is_separate cct name T U d args a :
  wf cct → U ≠ T → associated_objs cct !! (name, T) = Some a →
  let res := lookup_or_create_singleton_object U name d args cct in
  is_fatal res.1 = false ∧
  (∃ b, res.1 = Ret b ∧ any_type b = U ∧
        associated_objs res.2 !! (name, U) = Some b) ∧
  associated_objs res.2 !! (name, T) = Some a.
Proof.
  intros Hwf Hne Ha res.
  destruct (lookup_returns_slot U name d args cct Hwf) as (b & Hb & Hs).
  fold res in Hb, Hs. split; [by rewrite Hb|]. split.
  - exists b. split; [done|]. split; [|done].
    by destruct (lookup_wf U name d args cct Hwf _ _ _ Hs).
  - by apply lookup_keeps_slot.
Qed.

Lemma cct_x_A_wf : wf cct_x_A.
Proof. apply lookup_wf, wf_empty. Qed.

Lemma lookup_other_type_is_separate_witness :
  wf cct_x_A ∧ TypeB ≠ TypeA ∧
  associated_objs cct_x_A !! ("x", TypeA)
    = Some {| any_type := TypeA; any_args := 7; any_instance := 0 |} ∧
  is_fatal (lookup_or_create_singleton_object TypeB "x" true 9 cct_x_A).1
    = false.
Proof.
  split; [exact cct_x_A_wf|]. split; [discriminate|].
  split; [reflexivity|].
  exact (proj1 (lookup_other_type_is_separate cct_x_A "x" TypeA TypeB true 9
                  {| any_type := TypeA; any_args := 7; any_instance := 0 |}
                  cct_x_A_wf ltac:(discriminate) eq_refl)).
Defined.

(** C1 as stated fails: after ["x"] was created as a [TypeA], the lookup
    of ["x"] as a [TypeB] returns a new [TypeB] object and both slots are
    in the map. *)
Lemma type_confusion_is_not_fatal :
  associated_objs cct_x_A !! ("x", TypeA)
    = Some {| any_type := TypeA; any_args := 7; any_instance := 0 |} ∧
  (lookup_or_create_singleton_object TypeB "x" false 9 cct_x_A).1
    = Ret {| any_type := TypeB; any_args := 9; any_instance := 1 |} ∧
  is_fatal (lookup_or_create_singleton_object TypeB "x" false 9 cct_x_A).1
    = false ∧
  associated_objs
    (lookup_or_create_singleton_object TypeB "x" false 9 cct_x_A).2
    !! ("x", TypeA)
    = Some {| any_type := TypeA; any_args := 7; any_instance := 0 |} ∧
  associated_objs
    (lookup_or_create_singleton_object TypeB "x" false 9 cct_x_A).2
    !! ("x", TypeB)
    = Some {| any_type := TypeB; any_args := 9; any_instance := 1 |}.
Proof. repeat split; vm_compute; reflexivity. Qed.

(** C4: over any sequence of lookups, every lookup of the pair
    (name, T) returns the object held by the one slot of that pair, so
    all of them return the same instance; there is never more than one
    slot under the pair; the object is constructed only when the slot
    comes into being, hence at most once, and not at all when the slot is
    already there; and once a fork event has dropped the slot, the next
    lookup constructs a new instance. *)
Theorem singleton_same_instance_constructed_once cct rs name T :
  wf cct →
  let res := run_lookups rs cct in
  (∀ i r o, rs !! i = Some r → asks_for name T r → res.1 !! i = Some o →
     ∃ a, o = Ret a ∧ associated_objs res.2 !! (name, T) = Some a) ∧
  (∀ i j r r' o o',
     rs !! i = Some r → asks_for name T r → res.1 !! i = Some o →
     rs !! j = Some r' → asks_for name T r' → res.1 !! j = Some o' →
     o = o') ∧
  (slots name T res.2 ≤ 1)%nat ∧
  constructions name T (trace res.2) + slots name T cct
    = constructions name T (trace cct) + slots name T res.2 ∧
  (∀ a d args,
     associated_objs res.2 !! (name, T) = Some a →
     associated_objs (notify_pre_fork res.2) !! (name, T) = None →
     ∃ b, (lookup_or_create_singleton_object T name d args
             (notify_pre_fork res.2)).1 = Ret b ∧
          any_instance b ≠ any_instance a ∧
          constructions name T
            (trace (lookup_or_create_singleton_object T name d args
                      (notify_pre_fork res.2)).2)
          = S (constructions name T (trace (notify_pre_fork res.2)))).
Proof.
  intros Hwf res.
  assert (Hres : ∀ i r o, rs !! i = Some r → asks_for name T r →
            res.1 !! i = Some o →
            ∃ a, o = Ret a ∧ associated_objs res.2 !! (name, T) = Some a).
  { intros i r o Hr [<- <-] Ho. by eapply run_lookups_results. }
  split; [exact Hres|]. split; [|split; [|split]].
  - intros i j r r' o o' Hr Hk Ho Hr' Hk' Ho'.
    destruct (Hres _ _ _ Hr Hk Ho) as (a & -> & Ha).
    destruct (Hres _ _ _ Hr' Hk' Ho') as (a' & -> & Ha').
    congruence.
  - apply slots_le_1.
  - apply run_lookups_constructions_slots.
  - intros a d args Ha Hnone. apply lookup_after_drop; [done|].
    assert (Hwf' : wf res.2) by (by apply run_lookups_wf).
    destruct (Hwf' _ _ _ Ha) as [_ Hlt].
    pose proof (notify_pre_fork_next_instance res.2). lia.
Qed.

Lemma singleton_same_instance_constructed_once_witness :
  wf empty_context ∧
  (∀ i j r r' o o',
     [ask TypeA "x" false 1; ask TypeB "y" false 2; ask TypeA "x" true 3]
       !! i = Some r → asks_for "x" TypeA r →
     (run_lookups
        [ask TypeA "x" false 1; ask TypeB "y" false 2; ask TypeA "x" true 3]
        empty_context).1 !! i = Some o →
     [ask TypeA "x" false 1; ask TypeB "y" false 2; ask TypeA "x" true 3]
       !! j = Some r' → asks_for "x" TypeA r' →
     (run_lookups
        [ask TypeA "x" false 1; ask TypeB "y" false 2; ask TypeA "x" true 3]
        empty_context).1 !! j = Some o' →
     o = o').
Proof.
  split; [exact wf_empty|].
  exact (proj1 (proj2 (singleton_same_instance_constructed_once empty_context
           [ask TypeA "x" false 1; ask TypeB "y" false 2; ask TypeA "x" true 3]
           "x" TypeA wf_empty))).
Defined.

(** The history only grows. *)
Lemma lookup_trace_grows T name d args cct :
  ∃ tr, trace (lookup_or_create_singleton_object T name d args cct).2
        = trace cct ++ tr.
Proof.
  lookup_cases T name d args cct H.
  - exists []. by rewrite app_nil_r.
  - destruct H as (_ & _ & _ & _ & _ & Ht). by eexists.
Qed.

Lemma run_lookups_trace_grows rs cct :
  ∃ tr, trace (run_lookups rs cct).2 = trace cct ++ tr.
Proof.
  revert cct. induction rs as [|r rs IH]; intros cct.
  - exists []. cbn. by rewrite app_nil_r.
  - rewrite run_lookups_cons. cbn [snd].
    destruct (IH (do_request r cct).2) as [tr2 ->].
    destruct (lookup_trace_grows (rq_type r) (rq_name r) (rq_drop_on_fork r)
                (rq_args r) cct) as [tr1 Htr1].
    unfold do_request. rewrite Htr1. exists (tr1 ++ tr2).
    by rewrite app_assoc.
Qed.

Lemma call_pre_fork_trace_grows ws cct :
  ∃ tr, trace (call_pre_fork ws cct) = trace cct ++ tr.
Proof.
  revert cct. induction ws as [|w ws IH]; intros cct.
  - exists []. cbn. by rewrite app_nil_r.
  - cbn [call_pre_fork].
    destruct (IH (run_lookups (handle_pre_fork w)
                    (log_event (EvPreFork (fw_id w)) cct)).2) as [tr2 ->].
    destruct (run_lookups_trace_grows (handle_pre_fork w)
                (log_event (EvPreFork (fw_id w)) cct)) as [tr1 ->].
    cbn [trace log_event]. eexists. by rewrite <- !app_assoc.
Qed.

Lemma run_lookups_app rs1 rs2 cct :
  (run_lookups (rs1 ++ rs2) cct).2
  = (run_lookups rs2 (run_lookups rs1 cct).2).2.
Proof.
  revert cct. induction rs1 as [|r rs1 IH]; intros cct; [done|].
  cbn [app]. rewrite !run_lookups_cons. cbn [snd]. apply IH.
Qed.

Lemma call_pre_fork_app ws1 ws2 cct :
  call_pre_fork (ws1 ++ ws2) cct = call_pre_fork ws2 (call_pre_fork ws1 cct).
Proof.
  revert cct. induction ws1 as [|w ws1 IH]; intros cct; [done|].
  cbn [app call_pre_fork]. apply IH.
Qed.

Lemma constructed_app tr1 tr2 :
  constructed (tr1 ++ tr2) = constructed tr1 ++ constructed tr2.
Proof. unfold constructed. apply omap_app. Qed.

(** A lookup does not read the hook calls of the history: what it
    returns and what it leaves are the same in two states that differ in
    them only. *)
Lemma do_request_same r c1 c2 :
  same_but_calls c1 c2 →
  (do_request r c1).1 = (do_request r c2).1 ∧
  same_but_calls (do_request r c1).2 (do_request r c2).2.
Proof.
  intros (Ho & Hd & Hw & Hn & Hc).
  unfold do_request, lookup_or_create_singleton_object. rewrite Ho.
  destruct (associated_objs c2 !! (rq_name r, rq_type r)) as [a|].
  - split; [done|]. by repeat split.
  - cbn [fst snd]. rewrite Hn. split; [done|].
    repeat split; cbn [associated_objs associated_objs_drop_on_fork
                         _fork_watchers next_instance trace];
      try congruence.
    + by rewrite Hd.
    + by rewrite !constructed_app, Hc.
Qed.

Lemma run_lookups_same rs c1 c2 :
  same_but_calls c1 c2 →
  (run_lookups rs c1).1 = (run_lookups rs c2).1 ∧
  same_but_calls (run_lookups rs c1).2 (run_lookups rs c2).2.
Proof.
  revert c1 c2. induction rs as [|r rs IH]; intros c1 c2 Hs; [done|].
  rewrite !run_lookups_cons. cbn [fst snd].
  destruct (do_request_same r c1 c2 Hs) as [Hr Hs'].
  destruct (IH _ _ Hs') as [Hrs Hs''].
  split; [by rewrite Hr, Hrs | exact Hs''].
Qed.

Lemma log_event_pre_fork_same w c1 c2 :
  same_but_calls c1 c2 → same_but_calls (log_event (EvPreFork w) c1) c2.
Proof.
  intros (Ho & Hd & Hw & Hn & Hc). repeat split; try done.
  cbn [trace log_event]. rewrite constructed_app, Hc. cbn.
  by rewrite app_nil_r.
Qed.

(** The loop over the watchers leaves what the lookups of their hooks,
    made one after another in the order of the watchers, leave. *)
Lemma call_pre_fork_same ws c1 c2 :
  same_but_calls c1 c2 →
  same_but_calls (call_pre_fork ws c1)
                 (run_lookups (pre_fork_requests ws) c2).2.
Proof.
  revert c1 c2. induction ws as [|w ws IH]; intros c1 c2 Hs; [done|].
  cbn [call_pre_fork pre_fork_requests flat_map].
  rewrite run_lookups_app. apply IH.
  apply run_lookups_same. by apply log_event_pre_fork_same.
Qed.

Lemma same_but_calls_refl cct : same_but_calls cct cct.
Proof. by repeat split. Qed.

(** C5: [notify_pre_fork] calls the pre-fork hook of every registered
    watcher in registration order: when the hook of a watcher is called,
    the lookups of the hooks of the watchers registered before it, and
    no others, have been made, and at the end the lookups of all hooks
    have been made, one hook after another, every slot being still in
    place while they run.  Then it removes every slot whose name is in
    the drop set as the hooks left it, keeps the others, and leaves the
    drop set empty.  So a singleton created with [drop_on_fork] set is
    gone after [notify_pre_fork], and the next lookup of its key
    constructs a new instance, not the old one. *)
Theorem notify_pre_fork_hooks_then_prune cct :
  wf cct →
  let ran := (run_lookups (pre_fork_requests (_fork_watchers cct)) cct).2 in
  let after := notify_pre_fork cct in
  pre_fork_calls (trace after)
    = pre_fork_calls (trace cct) ++ map fw_id (_fork_watchers cct) ∧
  (∀ w, _fork_watchers (register_fork_watcher w cct)
        = _fork_watchers cct ++ [w]) ∧
  (∀ ws1 w ws2, _fork_watchers cct = ws1 ++ w :: ws2 →
     ∃ tr1 tr2,
       trace after = tr1 ++ EvPreFork (fw_id w) :: tr2 ∧
       pre_fork_calls tr1 = pre_fork_calls (trace cct) ++ map fw_id ws1 ∧
       constructed tr1
       = constructed (trace (run_lookups (pre_fork_requests ws1) cct).2)) ∧
  constructed (trace after) = constructed (trace ran) ∧
  next_instance after = next_instance ran ∧
  (∀ k a, associated_objs cct !! k = Some a →
          associated_objs ran !! k = Some a) ∧
  (∀ n T, associated_objs after !! (n, T)
          = if decide (n ∈ associated_objs_drop_on_fork ran) then None
            else associated_objs ran !! (n, T)) ∧
  associated_objs_drop_on_fork after = ∅ ∧
  (∀ name T args rs d' args',
     associated_objs cct !! (name, T) = None →
     let created := lookup_or_create_singleton_object T name true args cct in
     let forked := notify_pre_fork (run_lookups rs created.2).2 in
     let again := lookup_or_create_singleton_object T name d' args' forked in
     associated_objs forked !! (name, T) = None ∧
     ∃ a b, created.1 = Ret a ∧ again.1 = Ret b ∧
            any_instance b ≠ any_instance a ∧
            constructions name T (trace again.2)
            = S (constructions name T (trace forked))).
Proof.
  intros Hwf ran after.
  destruct (call_pre_fork_same (_fork_watchers cct) cct cct
              (same_but_calls_refl cct)) as (Ho & Hd & _ & Hn & Hc).
  fold ran in Ho, Hd, Hn, Hc.
  split_and!.
  - unfold after, notify_pre_fork. cbn. apply call_pre_fork_calls.
  - done.
  - intros ws1 w ws2 Hws.
    unfold after, notify_pre_fork. cbn [trace drop_marked_entries].
    rewrite Hws, call_pre_fork_app. cbn [call_pre_fork].
    destruct (call_pre_fork_trace_grows ws2
                (run_lookups (handle_pre_fork w)
                   (log_event (EvPreFork (fw_id w))
                      (call_pre_fork ws1 cct))).2) as [trb ->].
    destruct (run_lookups_trace_grows (handle_pre_fork w)
                (log_event (EvPreFork (fw_id w)) (call_pre_fork ws1 cct)))
      as [tra ->].
    cbn [trace log_event].
    exists (trace (call_pre_fork ws1 cct)), (tra ++ trb).
    split; [by rewrite <- !app_assoc|].
    split; [apply call_pre_fork_calls|].
    apply (call_pre_fork_same ws1 cct cct (same_but_calls_refl cct)).
  - exact Hc.
  - exact Hn.
  - apply (run_lookups_extends (pre_fork_requests (_fork_watchers cct)) cct).
  - intros n T. unfold after, notify_pre_fork.
    rewrite drop_marked_entries_lookup, Ho, Hd. done.
  - done.
  - intros name T args rs d' args' E created forked again.
    assert (Hgone : associated_objs forked !! (name, T) = None).
    { apply notify_pre_fork_drops. by apply created_marked. }
    split; [exact Hgone|].
    destruct (lookup_miss T name true args cct E) as (Hr & _ & _ & _ & Hn' & _).
    fold created in Hr, Hn'.
    destruct (lookup_after_drop T name d' args' forked
                {| any_type := T; any_args := args;
                   any_instance := next_instance cct |} Hgone)
      as (b & Hb & Hne & Hcs).
    + pose proof (notify_pre_fork_next_instance (run_lookups rs created.2).2)
        as Hfork.
      destruct (run_lookups_extends rs created.2) as (_ & _ & Hle & _).
      subst forked. cbn [any_instance]. lia.
    + eexists _, b. split; [exact Hr|]. by split.
Qed.

Lemma cct_watched_wf : wf cct_watched.
Proof. intros n T a H. cbn in H. by rewrite lookup_empty in H. Qed.

Lemma notify_pre_fork_hooks_then_prune_witness :
  wf cct_watched ∧
  pre_fork_calls (trace (notify_pre_fork cct_watched)) = [5] ∧
  constructed (trace (notify_pre_fork cct_watched)) = [("x", TypeA, 0)] ∧
  associated_objs (notify_pre_fork cct_watched) !! ("x", TypeA) = None.
Proof.
  split; [exact cct_watched_wf|].
  destruct (notify_pre_fork_hooks_then_prune cct_watched cct_watched_wf)
    as (Hcalls & _ & _ & Hmade & _ & _ & Hobjs & _).
  split; [exact Hcalls|].
  split; [exact Hmade | exact (Hobjs "x" TypeA)].
Defined.

(** C10: the pruning goes by name alone, and by the names marked since
    the last pruning.  A name in the drop set takes every slot under that
    name with it, whatever the type of the slot; a name gets into the
    drop set when a slot under it is created with [drop_on_fork] set and
    stays there while only lookups follow; so after such a creation
    [notify_pre_fork] removes the slots of every type under the name,
    those created with [drop_on_fork] clear included.  Every
    [notify_pre_fork] leaves the drop set empty, and a slot whose name is
    not in the drop set when the hooks have run is kept. *)
Theorem drop_on_fork_goes_by_name cct name T args rs :
  associated_objs cct !! (name, T) = None →
  let before :=
    (run_lookups rs
       (lookup_or_create_singleton_object T name true args cct).2).2 in
  name ∈ associated_objs_drop_on_fork before ∧
  (∀ U, associated_objs (notify_pre_fork before) !! (name, U) = None) ∧
  (∀ c n U, n ∈ associated_objs_drop_on_fork c →
            associated_objs (notify_pre_fork c) !! (n, U) = None) ∧
  (∀ c, associated_objs_drop_on_fork (notify_pre_fork c) = ∅) ∧
  (∀ c n U a,
     associated_objs c !! (n, U) = Some a →
     n ∉ associated_objs_drop_on_fork
           (run_lookups (pre_fork_requests (_fork_watchers c)) c).2 →
     associated_objs (notify_pre_fork c) !! (n, U) = Some a).
Proof.
  intros E before.
  assert (Hin : name ∈ associated_objs_drop_on_fork before)
    by (by apply created_marked).
  split; [exact Hin|]. split_and!.
  - intros U. by apply notify_pre_fork_drops.
  - intros c n U. apply notify_pre_fork_drops.
  - done.
  - intros c n U a Ha Hn.
    destruct (call_pre_fork_same (_fork_watchers c) c c
                (same_but_calls_refl c)) as (Ho & Hd & _).
    unfold notify_pre_fork.
    rewrite drop_marked_entries_lookup, Hd, decide_False by done.
    by apply (call_pre_fork_extends (_fork_watchers c) c).
Qed.

Lemma drop_on_fork_goes_by_name_witness :
  associated_objs empty_context !! ("x", TypeA) = None ∧
  associated_objs
    (run_lookups [ask TypeB "x" false 2]
       (lookup_or_create_singleton_object TypeA "x" true 1 empty_context).2).2
    !! ("x", TypeB)
    = Some {| any_type := TypeB; any_args := 2; any_instance := 1 |} ∧
  associated_objs
    (notify_pre_fork
       (run_lookups [ask TypeB "x" false 2]
          (lookup_or_create_singleton_object TypeA "x" true 1
             empty_context).2).2)
    !! ("x", TypeB) = None.
Proof.
  split; [reflexivity|]. split; [vm_compute; reflexivity|].
  exact (proj1 (proj2 (drop_on_fork_goes_by_name empty_context "x" TypeA 1
                         [ask TypeB "x" false 2] eq_refl)) TypeB).
Defined.

(** C10 as stated fails: a mark does not outlive the pruning that used
    it.  The slot of ["x"] as a [TypeA] is created with [drop_on_fork]
    set, which marks the name; [notify_pre_fork] removes it and clears the
    drop set; the slot of ["x"] as a [TypeB], created afterwards with
    [drop_on_fork] clear, is still there after the next
    [notify_pre_fork], although a slot under its name was once created
    with [drop_on_fork] set. *)
Lemma mark_cleared_by_fork :
  (lookup_or_create_singleton_object TypeA "x" true 1 empty_context).1
    = Ret {| any_type := TypeA; any_args := 1; any_instance := 0 |} ∧
  "x" ∈ associated_objs_drop_on_fork
          (lookup_or_create_singleton_object TypeA "x" true 1 empty_context).2 ∧
  associated_objs_drop_on_fork
    (notify_pre_fork
       (lookup_or_create_singleton_object TypeA "x" true 1 empty_context).2)
    = ∅ ∧
  associated_objs
    (notify_pre_fork
       (lookup_or_create_singleton_object TypeB "x" false 2
          (notify_pre_fork
             (lookup_or_create_singleton_object TypeA "x" true 1
                empty_context).2)).2)
    !! ("x", TypeB)
  = Some {| any_type := TypeB; any_args := 2; any_instance := 1 |}.
Proof.
  split_and!.
  - reflexivity.
  - apply (bool_decide_unpack _). vm_compute. exact I.
  - reflexivity.
  - vm_compute. reflexivity.
Qed.

(** The same name and type asked for twice: one object, built from the
    arguments of the first call. *)
Example lookup_twice :
  run_lookups [ask TypeA "x" false 1; ask TypeA "x" false 2] empty_context
  = ([Ret {| any_type := TypeA; any_args := 1; any_instance := 0 |};
      Ret {| any_type := TypeA; any_args := 1; any_instance := 0 |}],
     (lookup_or_create_singleton_object TypeA "x" false 1 empty_context).2).
Proof. reflexivity. Qed.

End SingletonFacts.

(** ** The configuration observers *)

Module ObserverFacts.
Import Observers.

Lemma associations_cons p key o observers :
  associations key o (p :: observers)
  = (if decide (p = (key, o)) then 1 else 0) + associations key o observers.
Proof.
  unfold associations. rewrite filter_cons. by case_decide.
Qed.

(** [emplace] adds one pair, wherever it puts it. *)
Lemma associations_emplace k o observers key ob :
  associations key ob (emplace k o observers)
  = (if decide ((k, o) = (key, ob)) then 1 else 0)
    + associations key ob observers.
Proof.
  induction observers as [|[k' o'] rest IH];
    [cbn [emplace]; by rewrite associations_cons|].
  cbn [emplace]. destruct (String.ltb k k').
  - by rewrite associations_cons.
  - rewrite !associations_cons, IH. lia.
Qed.

Lemma associations_add_keys keys addr observers key ob :
  associations key ob (fold_left (λ m k, emplace k addr m) keys observers)
  = (if decide (addr = ob) then length (filter (λ k, k = key) keys) else 0)
    + associations key ob observers.
Proof.
  revert observers. induction keys as [|k keys IH]; intros observers.
  - cbn. by case_decide.
  - cbn [fold_left]. rewrite IH, associations_emplace, filter_cons.
    destruct (decide (addr = ob)) as [->|Hne].
    + destruct (decide (k = key)) as [->|Hk].
      * rewrite decide_True by done. cbn. lia.
      * rewrite decide_False by congruence. lia.
    + rewrite decide_False by congruence. lia.
Qed.

Lemma count_NoDup (keys : list string) key :
  NoDup keys →
  length (filter (λ k, k = key) keys) = if decide (key ∈ keys) then 1 else 0.
Proof.
  induction 1 as [|k keys Hk Hnd IH]; [done|].
  rewrite filter_cons. destruct (decide (k = key)) as [->|Hne].
  - cbn. rewrite IH, decide_False by done.
    rewrite decide_True by apply list_elem_of_here. done.
  - rewrite IH. destruct (decide (key ∈ keys)) as [Hin|Hin].
    + rewrite decide_True; [done|]. by apply list_elem_of_further.
    + rewrite decide_False; [done|].
      intros [?|?]%elem_of_cons; [congruence|done].
Qed.

(** The calls one changed key leads to, seen from one observer: one call
    for each time the pair (key, observer) is stored. *)
Lemma calls_on_range o key observers :
  calls_on o (map (λ p, (p.2, key)) (equal_range key observers))
  = replicate (associations key o observers) (o, key).
Proof.
  unfold calls_on, equal_range.
  induction observers as [|[k' o'] rest IH]; [done|].
  rewrite associations_cons, filter_cons. cbn [fst].
  destruct (decide (k' = key)) as [->|Hk].
  - cbn [map]. rewrite filter_cons. cbn [fst snd].
    destruct (decide (o' = o)) as [->|Ho].
    + rewrite decide_True by done. cbn. by rewrite IH.
    + rewrite decide_False by congruence. done.
  - rewrite decide_False by congruence. done.
Qed.

Lemma calls_on_for_each_change o changes get_val oss observers :
  calls_on o (for_each_change changes get_val oss observers).1
  = flat_map (λ key, replicate (associations key o observers) (o, key)) changes.
Proof.
  induction changes as [|key changes IH]; [done|].
  cbn [for_each_change flat_map].
  destruct (for_each_change changes get_val oss observers) as [calls text].
  cbn [fst] in *. unfold calls_on in *. rewrite filter_app.
  fold (calls_on o (map (λ p, (p.2, key)) (equal_range key observers))).
  by rewrite calls_on_range, IH.
Qed.

Lemma flat_map_0_1 (o : nat) (P : string → Prop) `{∀ k, Decision (P k)}
    (f : string → nat) changes :
  (∀ k, f k = if decide (P k) then 1 else 0) →
  flat_map (λ key, replicate (f key) (o, key)) changes
  = map (λ k, (o, k)) (filter P changes).
Proof.
  intros Hf. induction changes as [|k changes IH]; [done|].
  cbn [flat_map]. rewrite filter_cons, Hf, IH. by case_decide.
Qed.

Lemma invocations_calls_on o k calls :
  invocations o k calls = invocations o k (calls_on o calls).
Proof.
  unfold invocations, calls_on.
  induction calls as [|[o' k'] calls IH]; [done|].
  rewrite !filter_cons. cbn [fst].
  destruct (decide ((o', k') = (o, k))) as [Heq|Hne].
  - injection Heq as -> ->. rewrite decide_True by done.
    rewrite filter_cons, decide_True by done. cbn. by rewrite IH.
  - case_decide; [|done]. rewrite filter_cons, decide_False by done. done.
Qed.

Lemma invocations_map o k (changes : list string) :
  invocations o k (map (λ key, (o, key)) changes)
  = length (filter (λ key, key = k) changes).
Proof.
  unfold invocations. induction changes as [|key changes IH]; [done|].
  cbn [map]. rewrite !filter_cons.
  destruct (decide (key = k)) as [->|Hne].
  - rewrite decide_True by done. cbn. by rewrite IH.
  - rewrite decide_False by congruence. done.
Qed.

(** The loop of [remove_observer] filters the map and tells whether it
    met the observer. *)
Lemma remove_loop_filter observer observers :
  remove_loop observer observers
  = (filter (λ p, p.2 ≠ observer) observers, registered observer observers).
Proof.
  induction observers as [|[k o] rest IH]; [done|].
  cbn. rewrite IH. fold (registered observer rest).
  destruct (Nat.eqb_spec o observer) as [->|Hne].
  - by rewrite decide_False by (intros Hc; by apply Hc).
  - by rewrite decide_True.
Qed.

Lemma registered_false observer observers :
  registered observer observers = false ↔
  ∀ k, associations k observer observers = 0.
Proof.
  induction observers as [|[k o] rest IH]; [done|].
  unfold registered in *. cbn [existsb snd]. rewrite orb_false_iff, IH. split.
  - intros [Ho Hrest] key. rewrite associations_cons, Hrest.
    apply Nat.eqb_neq in Ho. rewrite decide_False by congruence. done.
  - intros Hall. split.
    + apply Nat.eqb_neq. intros ->. specialize (Hall k).
      rewrite associations_cons, decide_True in Hall by done. lia.
    + intros key. specialize (Hall key). rewrite associations_cons in Hall. lia.
Qed.

Lemma associations_filter_out observer observers key o :
  associations key o (filter (λ p, p.2 ≠ observer) observers)
  = if decide (o = observer) then 0 else associations key o observers.
Proof.
  induction observers as [|[k' o'] rest IH]; [by case_decide|].
  rewrite filter_cons. cbn [snd]. destruct (decide (o' ≠ observer)) as [Hk|Hk].
  - rewrite !associations_cons, IH. case_decide as Ho; [|done].
    rewrite decide_False; [done|]. congruence.
  - apply dec_stable in Hk. subst o'. rewrite IH, associations_cons.
    case_decide as Ho; [done|]. rewrite decide_False; [done|]. congruence.
Qed.

Lemma filter_replicate_same (x : nat * string) n :
  filter (λ c, c = x) (replicate n x) = replicate n x.
Proof.
  induction n as [|n IH]; [done|].
  cbn [replicate]. by rewrite filter_cons_True, IH.
Qed.

Lemma filter_replicate_other (x y : nat * string) n :
  y ≠ x → filter (λ c, c = x) (replicate n y) = [].
Proof.
  intros Hne. induction n as [|n IH]; [done|].
  cbn [replicate]. by rewrite filter_cons_False.
Qed.

(** For any map: a changed key leads to as many calls on an observer as
    there are pairs (key, observer) stored, so an observer added twice
    is called twice for a key. *)
Lemma invocations_for_each_change o k changes get_val oss observers :
  NoDup changes →
  invocations o k (for_each_change changes get_val oss observers).1
  = if decide (k ∈ changes) then associations k o observers else 0.
Proof.
  intros Hnd. rewrite invocations_calls_on, calls_on_for_each_change.
  induction Hnd as [|key changes Hk Hnd IH]; [done|].
  cbn [flat_map]. unfold invocations in *. rewrite filter_app, length_app, IH.
  destruct (decide (key = k)) as [->|Hne].
  - rewrite (decide_False (P := k ∈ changes)) by done.
    rewrite (decide_True (P := k ∈ k :: changes)) by apply list_elem_of_here.
    rewrite filter_replicate_same. by rewrite length_replicate, Nat.add_0_r.
  - rewrite filter_replicate_other by congruence.
    cbn. destruct (decide (k ∈ changes)) as [Hin|Hin].
    + rewrite decide_True; [done|]. by apply list_elem_of_further.
    + rewrite decide_False; [done|].
      intros [?|?]%elem_of_cons; [congruence|done].
Qed.

(** ** Claims on the configuration observers *)

(** C2: an observer registered once for a duplicate-free list of keys is
    called exactly once for each changed key it tracks, with that key, and
    for no other key; so for distinct K1 and K2 an observer of {K1, K2} is
    called exactly once, with K1, when {K1} changes.  The number of calls
    on the observer is the number of changed keys it tracks, not one. *)
Theorem observer_called_once_per_changed_key O observers changes get_val oss :
  NoDup (get_tracked_conf_keys O) →
  registered (obs_addr O) observers = false →
  let calls :=
    (for_each_change changes get_val oss (add_observer O observers)).1 in
  calls_on (obs_addr O) calls
    = map (λ k, (obs_addr O, k))
          (filter (λ k, k ∈ get_tracked_conf_keys O) changes) ∧
  (NoDup changes →
   ∀ k, invocations (obs_addr O) k calls
        = if decide (k ∈ changes ∧ k ∈ get_tracked_conf_keys O) then 1 else 0) ∧
  (∀ K1 K2, K1 ≠ K2 → get_tracked_conf_keys O = [K1; K2] → changes = [K1] →
            calls_on (obs_addr O) calls = [(obs_addr O, K1)]).
Proof.
  intros Hkeys Hfresh calls.
  assert (Hassoc : ∀ k, associations k (obs_addr O) (add_observer O observers)
                        = if decide (k ∈ get_tracked_conf_keys O) then 1 else 0).
  { intros k. unfold add_observer. rewrite associations_add_keys.
    rewrite decide_True by done. rewrite count_NoDup by done.
    rewrite (proj1 (registered_false _ _) Hfresh). lia. }
  assert (Hcalls : calls_on (obs_addr O) calls
    = map (λ k, (obs_addr O, k))
          (filter (λ k, k ∈ get_tracked_conf_keys O) changes)).
  { unfold calls. rewrite calls_on_for_each_change.
    by apply (flat_map_0_1 (obs_addr O) (λ k, k ∈ get_tracked_conf_keys O)). }
  split; [exact Hcalls|]. split.
  - intros Hnd k. unfold calls.
    rewrite invocations_for_each_change by done. rewrite Hassoc.
    destruct (decide (k ∈ changes)) as [Hc|Hc];
      destruct (decide (k ∈ get_tracked_conf_keys O)) as [Ht|Ht].
    + by rewrite (decide_True (P := _ ∧ _)).
    + rewrite (decide_False (P := _ ∧ _)); [done|]. by intros [_ ?].
    + rewrite (decide_False (P := _ ∧ _)); [done|]. by intros [? _].
    + rewrite (decide_False (P := _ ∧ _)); [done|]. by intros [? _].
  - intros K1 K2 Hne HO ->. rewrite Hcalls, HO.
    rewrite filter_cons, decide_True by apply list_elem_of_here. done.
Qed.

Lemma observer_called_once_per_changed_key_witness :
  NoDup (get_tracked_conf_keys stderr_obs) ∧
  registered (obs_addr stderr_obs) (add_observer lockdep_obs []) = false ∧
  calls_on (obs_addr stderr_obs)
    (for_each_change ["log_to_stderr"] (λ _, None) false
       (add_observer stderr_obs (add_observer lockdep_obs []))).1
  = [(obs_addr stderr_obs, "log_to_stderr")].
Proof.
  assert (Hnd : NoDup (get_tracked_conf_keys stderr_obs))
    by (apply (bool_decide_unpack _); vm_compute; exact I).
  split; [exact Hnd|]. split; [reflexivity|].
  exact (proj2 (proj2 (observer_called_once_per_changed_key stderr_obs
           (add_observer lockdep_obs []) ["log_to_stderr"] (λ _, None) false
           Hnd eq_refl))
         "log_to_stderr" "err_to_stderr" ltac:(discriminate) eq_refl eq_refl).
Defined.

(** Two tracked keys changing in one batch: two calls, one with each. *)
Example both_keys_change :
  (for_each_change ["err_to_stderr"; "log_to_stderr"] (λ _, None) false
     (add_observer stderr_obs (add_observer lockdep_obs []))).1
  = [(2, "err_to_stderr"); (2, "log_to_stderr")].
Proof. vm_compute. reflexivity. Qed.

(** An empty change set: no call and no text. *)
Example no_change observers get_val oss :
  for_each_change [] get_val oss observers = ([], "").
Proof. reflexivity. Qed.

(** C7: [remove_observer] removes every pair of the observer and keeps
    the other pairs in their order; when the observer has no pair the
    call ends in a failed [ceph_assert], a fault and not an error
    returned or an exception thrown. *)
Theorem remove_observer_removes_all_or_faults observer observers :
  remove_observer observer observers
    = (if registered (obs_addr observer) observers
       then Ret (filter (λ p, p.2 ≠ obs_addr observer) observers)
       else Fatal AssertFailed) ∧
  (∀ k, associations k (obs_addr observer)
          (filter (λ p, p.2 ≠ obs_addr observer) observers) = 0) ∧
  (∀ k o, o ≠ obs_addr observer →
          associations k o (filter (λ p, p.2 ≠ obs_addr observer) observers)
          = associations k o observers) ∧
  (registered (obs_addr observer) observers = false ↔
   ∀ k, associations k (obs_addr observer) observers = 0) ∧
  is_fatal (remove_observer observer observers)
    = negb (registered (obs_addr observer) observers).
Proof.
  assert (Hrm : remove_observer observer observers
    = (if registered (obs_addr observer) observers
       then Ret (filter (λ p, p.2 ≠ obs_addr observer) observers)
       else Fatal AssertFailed)).
  { unfold remove_observer. by rewrite remove_loop_filter. }
  split; [exact Hrm|]. split; [|split; [|split]].
  - intros k. rewrite associations_filter_out. by rewrite decide_True.
  - intros k o Ho. rewrite associations_filter_out. by rewrite decide_False.
  - apply registered_false.
  - rewrite Hrm. by destruct (registered _ _).
Qed.

Example tracking :
  is_tracking "lockdep" (add_observer lockdep_obs []) = true ∧
  is_tracking "log_file" (add_observer lockdep_obs []) = false ∧
  for_each_observer (add_observer stderr_obs (add_observer lockdep_obs []))
  = [(2, "err_to_stderr"); (1, "lockdep"); (2, "log_to_stderr")].
Proof. repeat split; vm_compute; reflexivity. Qed.

Example remove_unknown_observer :
  remove_observer stderr_obs (add_observer lockdep_obs []) = Fatal AssertFailed.
Proof. reflexivity. Qed.

Example remove_known_observer :
  remove_observer stderr_obs
    (add_observer stderr_obs (add_observer lockdep_obs []))
  = Ret [("lockdep", 1)].
Proof. vm_compute. reflexivity. Qed.

End ObserverFacts.

(** ** The pid file *)

Module PidFileFacts.
Import PidFile.
Open Scope Z_scope.

Example h_locked_value :
  h_locked = {| pf_fd := 3; pf_path := pid_path; pf_dev := 8; pf_ino := 100 |}.
Proof. vm_compute. reflexivity. Qed.

Example os_locked_content :
  os_data os_locked !! (8, 100) = Some (print_pid 1234) ∧
  print_pid 1234
    = ["1"; "2"; "3"; "4"; ascii_of_nat 10]%char ∧
  atoi (print_pid 1234) = 1234.
Proof. repeat split; vm_compute; reflexivity. Qed.

Lemma h_locked_Locked : Locked h_locked os_locked.
Proof.
  split; [discriminate|]. split; [discriminate|]. split.
  - exists 5%nat. vm_compute. reflexivity.
  - vm_compute. reflexivity.
Qed.

Lemma lowest_free_nonneg fds : 0 ≤ lowest_free fds.
Proof.
  unfold lowest_free.
  destruct (head _) as [n|] eqn:E; [|done]. cbn.
  apply head_Some_elem_of in E. apply list_elem_of_filter in E as [_ E].
  apply list_elem_of_fmap in E as (m & -> & _). lia.
Qed.

(** [verify] reads the handle, the names and the failure of [stat] only. *)
Lemma verify_ext h os os' :
  os_names os' = os_names os → os_fail os' sys_stat = os_fail os sys_stat →
  verify h os' = verify h os.
Proof. intros Hn Hf. unfold verify, stat. by rewrite Hn, Hf. Qed.

Lemma verify_same_file h os :
  pf_fd h ≠ -1 → os_fail os sys_stat = None →
  os_names os !! pf_path h = Some (pf_dev h, pf_ino h) →
  verify h os = 0.
Proof.
  intros Hfd Hf Hn. unfold verify, stat.
  rewrite (proj2 (Z.eqb_neq _ _) Hfd), Hf, Hn. cbn.
  by rewrite !Z.eqb_refl.
Qed.

Lemma verify_other_file h os file :
  pf_fd h ≠ -1 → os_fail os sys_stat = None →
  os_names os !! pf_path h = Some file → file ≠ (pf_dev h, pf_ino h) →
  verify h os = - ESTALE.
Proof.
  intros Hfd Hf Hn Hne. unfold verify, stat.
  rewrite (proj2 (Z.eqb_neq _ _) Hfd), Hf, Hn. destruct file as [d i]. cbn.
  destruct (Z.eqb_spec d (pf_dev h)) as [->|]; [|done].
  destruct (Z.eqb_spec i (pf_ino h)) as [->|]; [|done].
  by destruct Hne.
Qed.

(** A successful [open] leaves the handle locked on the file the path
    names. *)
Lemma open_ok pid_file os h1 os1 :
  open pid_file reset os = (0, h1, os1) →
  Locked h1 os1 ∧
  os_names os1 !! pf_path h1 = Some (pf_dev h1, pf_ino h1) ∧
  os_fail os1 = os_fail os.
Proof.
  unfold open. cbn [pf_path pf_fd pf_dev pf_ino].
  destruct (Nat.leb _ _); [intros [= ? ? ?]; done|].
  unfold open_creat.
  destruct (os_fail os sys_open) eqn:Ef1; [intros [= ? ? ?]; done|].
  destruct (decide (substring 0 PATH_MAX pid_file = "")) as [|Hpath];
    [intros [= ? ? ?]; done|].
  pose proof (lowest_free_nonneg (os_fds os)) as Hfd.
  set (fd := lowest_free (os_fds os)) in *.
  destruct (os_names os !! substring 0 PATH_MAX pid_file) as [[d i]|] eqn:En;
    unfold fstat;
    cbn [os_fail os_fds set_fds set_data set_names set_next_ino];
    (destruct (os_fail os sys_fstat) eqn:Ef2; [intros [= ? ? ?]; done|]);
    rewrite lookup_insert_eq; cbn [st_dev st_ino];
    unfold fcntl_setlk;
    cbn [os_fail os_fds os_locks os_pid set_fds set_locks set_data set_names
         set_next_ino];
    (destruct (os_fail os sys_fcntl) eqn:Ef3; [intros [= ? ? ?]; done|]);
    rewrite lookup_insert_eq;
    (destruct (os_locks os !! _) as [holder|] eqn:El;
       [destruct (decide (holder = os_pid os)) as [->|];
          [|intros [= ? ? ?]; done] |]);
    intros [= <- <-]; unfold Locked; cbn;
    rewrite ?lookup_insert_eq; split_and!; try done; try lia; by eexists.
Qed.

(** [write] touches the data and the offsets only. *)
Lemma write_keeps h os :
  os_names (write h os).2 = os_names os ∧
  os_fail (write h os).2 = os_fail os ∧
  os_locks (write h os).2 = os_locks os ∧
  os_pid (write h os).2 = os_pid os.
Proof.
  unfold write. destruct (negb (is_open h)); [done|].
  unfold ftruncate0.
  destruct (os_fail os sys_ftruncate); [done|].
  destruct (os_fds os !! pf_fd h) as [[file off]|]; [|done].
  unfold safe_write. cbn [os_fail os_fds set_data].
  destruct (os_fail os sys_write); [done|].
  destruct (os_fds os !! pf_fd h) as [[file' off']|]; done.
Qed.

Lemma stat_err_pos path os e : stat path os = err e → 0 < e.
Proof.
  unfold stat. destruct (os_fail os sys_stat); [intros [= <-]; lia|].
  destruct (os_names os !! path) as [[d i]|]; [done|].
  intros [= <-]. done.
Qed.

Lemma verify_nonpos h os : verify h os ≤ 0.
Proof.
  unfold verify. destruct (Z.eqb _ _); [done|].
  destruct (stat (pf_path h) os) as [st|e] eqn:E.
  - by destruct (_ || _)%bool.
  - apply stat_err_pos in E. lia.
Qed.

(** ** Claims on the pid file *)

(** C8, as the code has it: [verify] gives ESTALE exactly when the
    descriptor field of the handle is set and [stat] of the path either
    shows a device or an inode other than the captured ones or fails with
    ESTALE itself.  A handle whose descriptor field is -1 gets EINVAL, and
    the table of open descriptors is not looked at, so a descriptor closed
    behind the back of the handle goes unnoticed.  After [open] and [write]
    succeed [verify] returns 0, and once the path names another file it
    returns ESTALE. *)
Theorem verify_stale_on_changed_identity h os :
  (pf_fd h = -1 → verify h os = - EINVAL) ∧
  (verify h os = - ESTALE ↔
   pf_fd h ≠ -1 ∧
   (stat (pf_path h) os = err ESTALE ∨
    ∃ st, stat (pf_path h) os = ok st ∧
          (st_dev st ≠ pf_dev h ∨ st_ino st ≠ pf_ino h))) ∧
  (∀ fds, verify h (set_fds fds os) = verify h os) ∧
  (∀ pid_file h1 os1,
     os_fail os sys_stat = None →
     open pid_file reset os = (0, h1, os1) →
     verify h1 (write h1 os1).2 = 0 ∧
     ∀ file, file ≠ (pf_dev h1, pf_ino h1) →
       verify h1 (set_names (<[pf_path h1 := file]> (os_names (write h1 os1).2))
                    (write h1 os1).2)
       = - ESTALE).
Proof.
  split; [|split; [|split]].
  - intros Hfd. unfold verify. by rewrite Hfd.
  - unfold verify. destruct (Z.eqb_spec (pf_fd h) (-1)) as [Hfd|Hfd].
    + split; [done|]. by intros [? _].
    + destruct (stat (pf_path h) os) as [st|e] eqn:E.
      * destruct (Z.eqb_spec (st_dev st) (pf_dev h)) as [Hd|Hd];
          destruct (Z.eqb_spec (st_ino st) (pf_ino h)) as [Hi|Hi]; cbn.
        -- split; [done|]. intros [_ [?|(st' & [= <-] & [?|?])]]; done.
        -- split; [|done]. intros _. split; [done|]. right. eauto.
        -- split; [|done]. intros _. split; [done|]. right. eauto.
        -- split; [|done]. intros _. split; [done|]. right. eauto.
      * split.
        -- intros He. split; [done|]. left. f_equal. lia.
        -- intros [_ [[= ->]|(st & ? & _)]]; done.
  - intros fds. by apply verify_ext.
  - intros pid_file h1 os1 Hf Hopen.
    destruct (open_ok _ _ _ _ Hopen) as ((_ & Hfd & _) & Hn & Hfail).
    destruct (write_keeps h1 os1) as (Hn' & Hfail' & _).
    split.
    + apply verify_same_file; [done| |]; by rewrite ?Hfail', ?Hfail, ?Hn'.
    + intros file Hne. eapply verify_other_file; [done| | |done].
      * cbn. by rewrite Hfail', Hfail.
      * cbn. apply lookup_insert_eq.
Qed.

Lemma verify_stale_on_changed_identity_witness :
  os_fail fresh_os sys_stat = None ∧
  open pid_path reset fresh_os
    = (0, h_locked, (open pid_path reset fresh_os).2) ∧
  verify h_locked os_locked = 0 ∧
  verify h_locked os_replaced = - ESTALE.
Proof.
  split; [reflexivity|]. split; [vm_compute; reflexivity|].
  destruct (proj2 (proj2 (proj2
              (verify_stale_on_changed_identity h_locked fresh_os)))
              pid_path h_locked (open pid_path reset fresh_os).2
              eq_refl ltac:(vm_compute; reflexivity)) as [Hok Hstale].
  split; [exact Hok|].
  exact (Hstale (8, 101) ltac:(vm_compute; discriminate)).
Defined.

(** C8 as stated fails on the descriptor: with the descriptor closed
    behind the back of a locked handle [verify] still returns 0, and with
    the descriptor field at -1 it returns EINVAL, not ESTALE. *)
Lemma verify_closed_descriptor_is_not_stale :
  Locked h_locked os_locked ∧
  os_fds (close (pf_fd h_locked) os_locked) !! pf_fd h_locked = None ∧
  verify h_locked (close (pf_fd h_locked) os_locked) = 0 ∧
  verify {| pf_fd := -1; pf_path := pid_path; pf_dev := 8; pf_ino := 100 |}
         os_locked = - EINVAL ∧
  - EINVAL ≠ - ESTALE.
Proof.
  split; [exact h_locked_Locked|].
  repeat split; vm_compute; (reflexivity || discriminate).
Qed.

Lemma close_names fd os : os_names (close fd os) = os_names os.
Proof. unfold close. by destruct (os_fds os !! fd) as [[file off]|]. Qed.

Lemma close_pid fd os : os_pid (close fd os) = os_pid os.
Proof. unfold close. by destruct (os_fds os !! fd) as [[file off]|]. Qed.

Lemma close_closes fd os : os_fds (close fd os) !! fd = None.
Proof.
  unfold close. destruct (os_fds os !! fd) as [[file off]|] eqn:E; [|done].
  cbn. apply lookup_delete_eq.
Qed.

(** What [remove] does on a locked handle that passes [verify] when
    [lseek] and the read do not fail: the descriptor is closed, and the
    path is unlinked and the handle reset only if the pid read back is
    that of the process. *)
Lemma remove_locked h os :
  Locked h os → verify h os = 0 →
  os_fail os sys_lseek = None → os_fail os sys_read = None →
  let os3 :=
    close (pf_fd h)
      (set_fds (<[pf_fd h := (pf_dev h, pf_ino h,
                   length (take 32 (default [] (os_data os
                                       !! (pf_dev h, pf_ino h)))))]>
                  (<[pf_fd h := (pf_dev h, pf_ino h, 0%nat)]> (os_fds os)))
         (set_fds (<[pf_fd h := (pf_dev h, pf_ino h, 0%nat)]> (os_fds os)) os)) in
  remove h os =
    if negb (Z.eqb (stored_pid h os) (os_pid os)) then (- EDOM, h, os3)
    else match unlink (pf_path h) os3 with
         | err errno => (- errno, h, os3)
         | ok os4 => (0, reset, os4)
         end.
Proof.
  intros (Hpath & Hfd & [off Hfds] & Hlock) Hv Hl Hr os3.
  unfold remove. rewrite (proj2 (String.eqb_neq _ _) Hpath), Hv. cbn [Z.ltb Z.compare].
  unfold lseek0. rewrite Hl, Hfds.
  unfold safe_read. cbn [os_fail os_fds set_fds os_data]. rewrite Hr.
  rewrite lookup_insert_eq. rewrite drop_0. cbn [Nat.add].
  replace (Z.of_nat _ <? 0) with false by (symmetry; apply Z.ltb_ge; lia).
  unfold getpid. rewrite close_pid. reflexivity.
Qed.

(** The part of C3 that holds: a stored pid that is not the pid of the
    process makes [remove] return EDOM and leave the path, with the
    descriptor closed; the handle is returned as it was. *)
Lemma remove_identity_mismatch h os :
  Locked h os → verify h os = 0 →
  os_fail os sys_lseek = None → os_fail os sys_read = None →
  stored_pid h os ≠ os_pid os →
  (remove h os).1.1 = - EDOM ∧
  os_names (remove h os).2 = os_names os ∧
  os_fds (remove h os).2 !! pf_fd h = None ∧
  (remove h os).1.2 = h.
Proof.
  intros HL Hv Hl Hr Hpid.
  rewrite (remove_locked h os HL Hv Hl Hr).
  rewrite (proj2 (Z.eqb_neq _ _) Hpid). cbn [negb fst snd].
  split; [done|]. split; [by rewrite close_names|].
  split; [apply close_closes | done].
Qed.

(** The path is unlinked only when both checks pass. *)
Lemma remove_unlinks_only_verified h os :
  Locked h os →
  os_names (remove h os).2 ≠ os_names os →
  verify h os = 0 ∧ stored_pid h os = os_pid os ∧
  (remove h os).1 = (0, reset).
Proof.
  intros HL Hnames.
  destruct (Z.ltb_spec (verify h os) 0) as [Hneg|Hpos].
  - exfalso. apply Hnames. unfold remove.
    destruct (String.eqb _ _); [done|].
    rewrite (proj2 (Z.ltb_lt _ _) Hneg).
    destruct (negb _); cbn [fst snd]; [by rewrite close_names | done].
  - assert (Hv : verify h os = 0) by (pose proof (verify_nonpos h os); lia).
    destruct (os_fail os sys_lseek) eqn:Hl.
    { exfalso. apply Hnames. unfold remove, lseek0.
      destruct (String.eqb _ _); [done|]. by rewrite Hv, Hl. }
    destruct (os_fail os sys_read) eqn:Hr.
    { exfalso. apply Hnames. destruct HL as (Hpath & Hfd & [off Hfds] & _).
      unfold remove, lseek0, safe_read.
      rewrite (proj2 (String.eqb_neq _ _) Hpath), Hv, Hl, Hfds.
      cbn [os_fail os_fds set_fds]. rewrite Hr.
      change (0 <? 0) with false. change (- Z.pos p <? 0) with true.
      cbn [fst snd]. by rewrite close_names. }
    revert Hnames. rewrite (remove_locked h os HL Hv Hl Hr).
    destruct (Z.eqb_spec (stored_pid h os) (os_pid os)) as [Hpid|Hpid].
    + destruct (unlink _ _) as [os4|e] eqn:Eu; cbn [fst snd negb]; [done|].
      intros Hnames. exfalso. apply Hnames. by rewrite close_names.
    + cbn [fst snd negb]. intros Hnames. exfalso. apply Hnames.
      by rewrite close_names.
Qed.

(** C3 on the code: the locked handle of process 1234 whose file now
    holds the pid 999.  [remove] returns EDOM, leaves the path and closes
    the descriptor, but returns before [reset]: the handle keeps its path
    and its descriptor number and still counts as open, it is not
    Empty. *)
Theorem remove_pid_mismatch_leaves_handle_set :
  Locked h_locked os_foreign_pid ∧
  stored_pid h_locked os_foreign_pid = 999%Z ∧
  getpid os_foreign_pid = 1234%Z ∧
  verify h_locked os_foreign_pid = 0 ∧
  (remove h_locked os_foreign_pid).1.1 = - EDOM ∧
  os_names (remove h_locked os_foreign_pid).2 !! pid_path = Some (8, 100) ∧
  os_fds (remove h_locked os_foreign_pid).2 !! pf_fd h_locked = None ∧
  (remove h_locked os_foreign_pid).1.2 = h_locked ∧
  (remove h_locked os_foreign_pid).1.2 ≠ reset ∧
  is_open (remove h_locked os_foreign_pid).1.2 = true.
Proof.
  split.
  { split; [discriminate|]. split; [discriminate|]. split.
    - exists 5%nat. vm_compute. reflexivity.
    - vm_compute. reflexivity. }
  repeat split; vm_compute; (reflexivity || discriminate).
Qed.

(** The other early returns: a failing [lseek] leaves the handle set and
    the descriptor open; the path where [verify] fails closes and
    resets. *)
Example remove_lseek_fails :
  (remove h_locked os_lseek_fails).1 = (-5, h_locked) ∧
  os_fds (remove h_locked os_lseek_fails).2 !! pf_fd h_locked
    = Some (8, 100, 5%nat).
Proof. split; vm_compute; reflexivity. Qed.

Example remove_replaced_path :
  (remove h_locked os_replaced).1 = (- ESTALE, reset) ∧
  os_fds (remove h_locked os_replaced).2 !! pf_fd h_locked = None ∧
  os_names (remove h_locked os_replaced).2 !! pid_path = Some (8, 101).
Proof. repeat split; vm_compute; reflexivity. Qed.

(** [pidfile_write] on the sample system: the handle of [h_locked], and
    nothing to do for an empty path. *)
Example pidfile_write_fresh :
  pidfile_write pid_path None fresh_os = Ret (0, Some h_locked, os_locked) ∧
  pidfile_write "" None fresh_os = Ret (0, None, fresh_os) ∧
  pidfile_write pid_path (Some h_locked) os_locked = Fatal AssertFailed.
Proof. repeat split; vm_compute; reflexivity. Qed.

(** The whole life of the file when nothing goes wrong. *)
Example remove_own_pid :
  (remove h_locked os_locked).1 = (0, reset) ∧
  os_names (remove h_locked os_locked).2 !! pid_path = None ∧
  os_fds (remove h_locked os_locked).2 !! pf_fd h_locked = None.
Proof. repeat split; vm_compute; reflexivity. Qed.

End PidFileFacts.

(** ** The admin commands *)

Module AdminCommandFacts.
Import AdminCommands.

(** ** Claims on the admin commands *)

(** C6: the command [assert] is a fault for every dispatch, whatever the
    debug flag says: a failed [ceph_assert_always] when
    [debug_asok_assert_abort] is set, and otherwise the [ceph_abort_msg]
    at the end of the chain, since no branch of the chain takes the
    command.  The command [abort] calls [ceph_abort] at once, before
    anything is written, when the flag is set. *)
Theorem assert_and_abort_commands {Conf Perf Opt}
    (env : collaborators Conf Perf Opt) cmdmap format conf perf :
  do_command env "assert" cmdmap format conf perf
    = (if debug_asok_assert_abort _ _ _ env conf then Fatal AssertFailed
       else Fatal (Aborted "registered under wrong command?")) ∧
  is_fatal (do_command env "assert" cmdmap format conf perf) = true ∧
  do_command env "abort" cmdmap format conf perf
    = (if debug_asok_assert_abort _ _ _ env conf then Fatal (Aborted "")
       else Fatal (Aborted "registered under wrong command?")) ∧
  is_fatal (do_command env "abort" cmdmap format conf perf) = true.
Proof.
  unfold do_command, config_and_log_command. cbn.
  destruct (debug_asok_assert_abort _ _ _ env conf); cbn; done.
Qed.

(** C9 on the code: [setting] is never filled from the arguments, so the
    response to [config diff get] is the same for every argument map: it
    is what [_conf.diff(f, "")] writes, wrapped in the two sections. *)
Theorem config_diff_get_ignores_var {Conf Perf Opt}
    (env : collaborators Conf Perf Opt) cmdmap cmdmap' format conf perf :
  do_command env "config diff get" cmdmap format conf perf
    = do_command env "config diff get" cmdmap' format conf perf ∧
  do_command env "config diff get" cmdmap format conf perf
    = Ret {| rs_format := format;
             rs_out := [open_object_section "config_diff_get";
                        open_object_section "diff"]
                       ++ diff _ _ _ env "" conf
                       ++ [close_section; close_section];
             rs_conf := conf; rs_perf := perf; rs_log := [] |}.
Proof.
  split; [reflexivity|].
  unfold do_command, config_and_log_command. cbn.
  destruct (debug_asok_assert_abort _ _ _ env conf); cbn;
    by rewrite <- app_assoc.
Qed.

(** With the sample configuration: asked for [debug_ms], the command
    answers with every option that differs, as [config diff] does. *)
Example config_diff_get_debug_ms :
  do_command sample_env "config diff get" {["var" := cmd_string "debug_ms"]}
    "json" conf_1 tt
  = Ret {| rs_format := "json";
           rs_out := [open_object_section "config_diff_get";
                      open_object_section "diff";
                      dump_string "log_file" "/tmp/ceph.log";
                      dump_string "debug_ms" "1";
                      close_section; close_section];
           rs_conf := conf_1; rs_perf := tt; rs_log := [] |} ∧
  sample_diff "debug_ms" conf_1 = [dump_string "debug_ms" "1"].
Proof. split; vm_compute; reflexivity. Qed.

(** The sibling [config get] does read the name. *)
Example config_get_reads_var :
  do_command sample_env "config get" ∅ "json" conf_1 tt
  = Ret {| rs_format := "json";
           rs_out := [open_object_section "config_get";
                      dump_string "error" "syntax error: 'config get <var>'";
                      close_section];
           rs_conf := conf_1; rs_perf := tt; rs_log := [] |}.
Proof. vm_compute. reflexivity. Qed.

End AdminCommandFacts.

(** * Further properties of the code *)

(** ** ObserverMgr *)

Module MoreObserverFacts.
Import Observers MoreObservers ObserverFacts.

Lemma filter_emplace_same k o observers :
  filter (λ p, p.2 ≠ o) (emplace k o observers)
  = filter (λ p, p.2 ≠ o) observers.
Proof.
  induction observers as [|[k' o'] rest IH].
  - cbn [emplace]. by rewrite filter_cons_False by (intros Hc; by apply Hc).
  - cbn [emplace]. destruct (String.ltb k k').
    + by rewrite filter_cons_False by (intros Hc; by apply Hc).
    + rewrite !(filter_cons _ (k', o')). by rewrite IH.
Qed.

Lemma registered_emplace k o' observers o :
  registered o (emplace k o' observers)
  = (Nat.eqb o' o || registered o observers)%bool.
Proof.
  unfold registered.
  induction observers as [|[k' o''] rest IH]; [done|].
  cbn [emplace]. destruct (String.ltb k k'); [done|].
  cbn [existsb snd] in *. rewrite IH.
  destruct (Nat.eqb o' o), (Nat.eqb o'' o); done.
Qed.

Lemma filter_unregistered o observers :
  registered o observers = false → filter (λ p, p.2 ≠ o) observers = observers.
Proof.
  unfold registered.
  induction observers as [|[k' o'] rest IH]; [done|].
  cbn [existsb snd]. intros [Ho Hrest]%orb_false_iff.
  apply Nat.eqb_neq in Ho. rewrite filter_cons_True by done. by rewrite IH.
Qed.

Lemma filter_add_keys keys o observers :
  filter (λ p, p.2 ≠ o) (fold_left (λ m k, emplace k o m) keys observers)
  = filter (λ p, p.2 ≠ o) observers.
Proof.
  revert observers. induction keys as [|k keys IH]; intros observers; [done|].
  cbn [fold_left]. by rewrite IH, filter_emplace_same.
Qed.

Lemma registered_add_keys keys o' observers o :
  registered o (fold_left (λ m k, emplace k o' m) keys observers)
  = ((Nat.eqb o' o && negb (bool_decide (keys = [])))
     || registered o observers)%bool.
Proof.
  revert observers. induction keys as [|k keys IH]; intros observers.
  - cbn. by rewrite andb_false_r.
  - cbn [fold_left]. rewrite IH, registered_emplace.
    rewrite (bool_decide_eq_false_2 (k :: keys = [])) by done.
    destruct (Nat.eqb o' o), (bool_decide (keys = [])),
      (registered o observers); done.
Qed.

(** X1: taking an observer out right after it was put in gives the map
    back as it was, provided the observer tracks at least one key; an
    observer that tracks no key leaves no pair, and taking it out fails
    the assertion. *)
Theorem remove_observer_undoes_add_observer O observers :
  registered (obs_addr O) observers = false →
  remove_observer O (add_observer O observers)
  = if decide (get_tracked_conf_keys O = []) then Fatal AssertFailed
    else Ret observers.
Proof.
  intros Hfresh. unfold remove_observer, add_observer.
  rewrite remove_loop_filter, filter_add_keys, registered_add_keys.
  rewrite filter_unregistered by done. rewrite Hfresh, Nat.eqb_refl.
  destruct (decide (get_tracked_conf_keys O = [])) as [He|He].
  - by rewrite bool_decide_eq_true_2.
  - by rewrite bool_decide_eq_false_2.
Qed.

Lemma remove_observer_undoes_add_observer_witness :
  registered (obs_addr stderr_obs) (add_observer lockdep_obs []) = false ∧
  remove_observer stderr_obs
    (add_observer stderr_obs (add_observer lockdep_obs []))
  = Ret (add_observer lockdep_obs []) ∧
  remove_observer mute_obs (add_observer mute_obs (add_observer lockdep_obs []))
  = Fatal AssertFailed.
Proof.
  split; [reflexivity|]. split.
  - exact (remove_observer_undoes_add_observer stderr_obs
             (add_observer lockdep_obs []) eq_refl).
  - exact (remove_observer_undoes_add_observer mute_obs
             (add_observer lockdep_obs []) eq_refl).
Defined.

Lemma is_tracking_elem name observers :
  is_tracking name observers = true ↔ ∃ o, (name, o) ∈ observers.
Proof.
  unfold is_tracking, equal_range. rewrite Nat.ltb_lt. split.
  - intros Hlen.
    destruct (filter (λ p, p.1 = name) observers) as [|[k o] l] eqn:E;
      [cbn in Hlen; lia|].
    assert (Hin : (k, o) ∈ filter (λ p, p.1 = name) observers)
      by (rewrite E; apply list_elem_of_here).
    apply list_elem_of_filter in Hin as [Hk Hin]. cbn in Hk. subst k. eauto.
  - intros [o Hin].
    assert (Hin' : (name, o) ∈ filter (λ p, p.1 = name) observers)
      by (by apply list_elem_of_filter).
    destruct (filter (λ p, p.1 = name) observers); [by inversion Hin'|].
    cbn. lia.
Qed.

Lemma elem_of_emplace p k o observers :
  p ∈ emplace k o observers ↔ p = (k, o) ∨ p ∈ observers.
Proof.
  induction observers as [|[k' o'] rest IH].
  - cbn [emplace]. by rewrite elem_of_cons.
  - cbn [emplace]. destruct (String.ltb k k').
    + by rewrite elem_of_cons.
    + rewrite !elem_of_cons, IH. tauto.
Qed.

Lemma elem_of_add_observer p O observers :
  p ∈ add_observer O observers ↔
  (p.2 = obs_addr O ∧ p.1 ∈ get_tracked_conf_keys O) ∨ p ∈ observers.
Proof.
  unfold add_observer. generalize (obs_addr O) as addr.
  generalize (get_tracked_conf_keys O) as keys. intros keys addr.
  revert observers. induction keys as [|k keys IH]; intros observers.
  - cbn. split; [by right|]. intros [[_ H]|H]; [by inversion H|done].
  - cbn [fold_left]. rewrite IH, elem_of_emplace, elem_of_cons.
    destruct p as [pk po]. cbn. split.
    + intros [[-> H]|[[= -> ->]|H]]; auto.
    + intros [[-> [->|H]]|H]; auto.
Qed.

(** X2: a key is tracked exactly when some pair is stored under it; after
    [add_observer] the keys tracked are those tracked before and those of
    the new observer, and after a [remove_observer] that returns, those
    under which another observer has a pair. *)
Theorem is_tracking_follows_the_pairs O observers name :
  (is_tracking name observers = true ↔ ∃ o, (name, o) ∈ observers) ∧
  (is_tracking name (add_observer O observers) = true ↔
   is_tracking name observers = true ∨ name ∈ get_tracked_conf_keys O) ∧
  (∀ observers', remove_observer O observers = Ret observers' →
     (is_tracking name observers' = true ↔
      ∃ o, o ≠ obs_addr O ∧ (name, o) ∈ observers)).
Proof.
  split; [apply is_tracking_elem|]. split.
  - rewrite !is_tracking_elem. split.
    + intros [o [[_ H]|H]%elem_of_add_observer]; [by right | left; eauto].
    + intros [[o H]|H].
      * exists o. apply elem_of_add_observer. by right.
      * exists (obs_addr O). apply elem_of_add_observer. by left.
  - intros observers'. unfold remove_observer. rewrite remove_loop_filter.
    destruct (registered _ _); [|done]. intros [= <-].
    rewrite is_tracking_elem. split.
    + intros [o [Ho Hin]%list_elem_of_filter]. eauto.
    + intros (o & Ho & Hin). exists o. by apply list_elem_of_filter.
Qed.

(** X3: the callbacks made by [for_each_change] are those of the stored
    pairs whose key changed, no other; which callbacks are made does not
    depend on the stream or on the values read; and without a stream no
    text is produced. *)
Theorem for_each_change_calls changes get_val oss observers :
  (∀ o k, (o, k) ∈ (for_each_change changes get_val oss observers).1 ↔
          k ∈ changes ∧ (k, o) ∈ observers) ∧
  (∀ get_val' oss',
     (for_each_change changes get_val' oss' observers).1
     = (for_each_change changes get_val oss observers).1) ∧
  (for_each_change changes get_val false observers).2 = "".
Proof.
  split; [|split].
  - induction changes as [|key changes IH]; intros o k.
    + cbn. split; [by intros H; inversion H|]. by intros [H _]; inversion H.
    + cbn [for_each_change].
      destruct (for_each_change changes get_val oss observers) as [calls text].
      cbn [fst] in *. rewrite elem_of_app, IH, elem_of_cons.
      rewrite list_elem_of_fmap. unfold equal_range. split.
      * intros [([k' o'] & Heq & [Hk Hin]%list_elem_of_filter)|[? ?]];
          [|by auto].
        cbn in Heq, Hk. simplify_eq. auto.
      * intros [[Hk|Hin] Hobs]; [left|right; done].
        subst k. exists (key, o). split; [done|]. by apply list_elem_of_filter.
  - intros get_val' oss'.
    induction changes as [|key changes IH]; [done|].
    cbn [for_each_change].
    destruct (for_each_change changes get_val oss observers) as [calls text].
    destruct (for_each_change changes get_val' oss' observers) as [calls' text'].
    cbn [fst] in *. by rewrite IH.
  - induction changes as [|key changes IH]; [done|].
    cbn [for_each_change].
    destruct (for_each_change changes get_val false observers) as [calls text].
    cbn [snd] in *. by rewrite IH.
Qed.

(** X4: the number of times [callback(observer, key)] is made for a
    changed key is the number of pairs (key, observer) stored, and each
    [add_observer] adds one pair for every time the key stands in the
    key array of the observer; so an observer added twice is called twice
    for the key. *)
Theorem calls_counted_by_stored_pairs O observers changes get_val oss o k :
  NoDup changes →
  invocations o k (for_each_change changes get_val oss observers).1
    = (if decide (k ∈ changes) then associations k o observers else 0) ∧
  invocations o k
    (for_each_change changes get_val oss (add_observer O observers)).1
    = (if decide (k ∈ changes)
       then (if decide (obs_addr O = o)
             then length (filter (λ k', k' = k) (get_tracked_conf_keys O))
             else 0) + associations k o observers
       else 0).
Proof.
  intros Hnd. rewrite !invocations_for_each_change by done.
  split; [done|]. case_decide; [|done].
  unfold add_observer. by rewrite associations_add_keys.
Qed.

Lemma calls_counted_by_stored_pairs_witness :
  NoDup ["lockdep"] ∧
  invocations 1 "lockdep"
    (for_each_change ["lockdep"] (λ _, None) false
       (add_observer lockdep_obs (add_observer lockdep_obs []))).1 = 2.
Proof.
  assert (Hnd : NoDup ["lockdep"])
    by (apply (bool_decide_unpack _); vm_compute; exact I).
  split; [exact Hnd|].
  exact (proj2 (calls_counted_by_stored_pairs lockdep_obs
                  (add_observer lockdep_obs []) ["lockdep"] (λ _, None) false
                  1 "lockdep" Hnd)).
Defined.

End MoreObserverFacts.

(** ** The singleton registry and the fork hooks *)

Module ReachabilityFacts.
Import Singletons Reachability SingletonFacts.

Lemma call_post_fork_wf ws cct : wf cct → wf (call_post_fork ws cct).
Proof.
  revert cct. induction ws as [|w ws IH]; intros cct Hwf; [done|].
  cbn. apply IH. apply run_lookups_wf. by apply log_event_wf.
Qed.

Lemma call_post_fork_extends ws cct : extends cct (call_post_fork ws cct).
Proof.
  revert cct. induction ws as [|w ws IH]; intros cct.
  - apply extends_refl.
  - cbn. eapply extends_trans; [|apply IH].
    eapply extends_trans; [apply (log_event_extends (EvPostFork (fw_id w)))|].
    apply run_lookups_extends.
Qed.

Lemma lookup_post_fork_calls T name d args cct :
  post_fork_calls (trace (lookup_or_create_singleton_object T name d args cct).2)
  = post_fork_calls (trace cct).
Proof.
  lookup_cases T name d args cct H; [done|].
  destruct H as (_ & _ & _ & _ & _ & Ht).
  rewrite Ht. unfold post_fork_calls. rewrite omap_app. cbn.
  by rewrite app_nil_r.
Qed.

Lemma run_lookups_post_fork_calls rs cct :
  post_fork_calls (trace (run_lookups rs cct).2) = post_fork_calls (trace cct).
Proof.
  revert cct. induction rs as [|r rs IH]; intros cct; [done|].
  rewrite run_lookups_cons. cbn. rewrite IH. apply lookup_post_fork_calls.
Qed.

Lemma call_post_fork_calls ws cct :
  post_fork_calls (trace (call_post_fork ws cct))
    = post_fork_calls (trace cct) ++ map fw_id ws ∧
  pre_fork_calls (trace (call_post_fork ws cct)) = pre_fork_calls (trace cct).
Proof.
  revert cct. induction ws as [|w ws IH]; intros cct.
  - cbn. by rewrite app_nil_r.
  - cbn. destruct (IH (run_lookups (handle_post_fork w)
                         (log_event (EvPostFork (fw_id w)) cct)).2) as [-> ->].
    rewrite run_lookups_post_fork_calls, run_lookups_pre_fork_calls. cbn.
    unfold post_fork_calls at 1, pre_fork_calls at 1. rewrite !omap_app. cbn.
    by rewrite <- app_assoc, app_nil_r.
Qed.

Lemma call_pre_fork_post_calls ws cct :
  post_fork_calls (trace (call_pre_fork ws cct)) = post_fork_calls (trace cct).
Proof.
  revert cct. induction ws as [|w ws IH]; intros cct; [done|].
  cbn. rewrite IH, run_lookups_post_fork_calls. cbn.
  unfold post_fork_calls at 1. rewrite omap_app. cbn. by rewrite app_nil_r.
Qed.

(** The objects of the slots are pairwise distinct: this is kept by every
    operation, since a new object gets the next serial number. *)
Lemma lookup_unique T name d args cct :
  wf cct → unique_instances cct →
  unique_instances (lookup_or_create_singleton_object T name d args cct).2.
Proof.
  intros Hwf Hu. lookup_cases T name d args cct H; [done|].
  destruct H as (_ & Ho & _). intros k1 k2 a1 a2. rewrite Ho.
  destruct (decide ((name, T) = k1)) as [<-|H1];
    destruct (decide ((name, T) = k2)) as [<-|H2];
    rewrite ?lookup_insert_eq, ?lookup_insert_ne by done.
  - done.
  - intros [= <-] H2' Heq. destruct k2 as [n2 T2].
    destruct (Hwf _ _ _ H2') as [_ Hlt]. cbn in Heq. lia.
  - intros H1' [= <-] Heq. destruct k1 as [n1 T1].
    destruct (Hwf _ _ _ H1') as [_ Hlt]. cbn in Heq. lia.
  - apply Hu.
Qed.

Lemma run_lookups_unique rs cct :
  wf cct → unique_instances cct → unique_instances (run_lookups rs cct).2.
Proof.
  revert cct. induction rs as [|r rs IH]; intros cct Hwf Hu; [done|].
  rewrite run_lookups_cons. cbn.
  apply IH; [by apply lookup_wf | by apply lookup_unique].
Qed.

Lemma call_pre_fork_unique ws cct :
  wf cct → unique_instances cct → unique_instances (call_pre_fork ws cct).
Proof.
  revert cct. induction ws as [|w ws IH]; intros cct Hwf Hu; [done|].
  cbn. apply IH.
  - apply run_lookups_wf. by apply log_event_wf.
  - apply run_lookups_unique; [by apply log_event_wf | done].
Qed.

Lemma call_post_fork_unique ws cct :
  wf cct → unique_instances cct → unique_instances (call_post_fork ws cct).
Proof.
  revert cct. induction ws as [|w ws IH]; intros cct Hwf Hu; [done|].
  cbn. apply IH.
  - apply run_lookups_wf. by apply log_event_wf.
  - apply run_lookups_unique; [by apply log_event_wf | done].
Qed.

Lemma drop_marked_entries_unique cct :
  unique_instances cct → unique_instances (drop_marked_entries cct).
Proof.
  intros Hu [n1 T1] [n2 T2] a1 a2. rewrite !drop_marked_entries_lookup.
  repeat case_decide; try done. apply Hu.
Qed.

Lemma step_keeps o cct :
  wf cct ∧ unique_instances cct →
  wf (step o cct) ∧ unique_instances (step o cct).
Proof.
  intros [Hwf Hu]. destruct o as [r|w| |]; cbn.
  - split; [by apply lookup_wf | by apply lookup_unique].
  - done.
  - split; [by apply notify_pre_fork_wf|].
    apply drop_marked_entries_unique. by apply call_pre_fork_unique.
  - split; [by apply call_post_fork_wf | by apply call_post_fork_unique].
Qed.

Lemma run_ops_keeps ops cct :
  wf cct ∧ unique_instances cct →
  wf (run_ops ops cct) ∧ unique_instances (run_ops ops cct).
Proof.
  revert cct. induction ops as [|o ops IH]; intros cct H; [done|].
  cbn. apply IH. by apply step_keeps.
Qed.

Lemma empty_keeps : wf empty_context ∧ unique_instances empty_context.
Proof.
  split; [apply wf_empty|]. intros k1 k2 a1 a2 H. cbn in H.
  by rewrite lookup_empty in H.
Qed.

(** X5: whatever lookups, watcher registrations and fork notifications
    a context has gone through, every slot holds an object of the type it
    is keyed by, so the cast of a lookup never throws: a lookup always
    returns an object, of the type asked for. *)
Theorem registry_lookup_never_throws ops r :
  wf (run_ops ops empty_context) ∧
  ∃ a, (do_request r (run_ops ops empty_context)).1 = Ret a ∧
       any_type a = rq_type r.
Proof.
  destruct (run_ops_keeps ops empty_context empty_keeps) as [Hwf _].
  split; [exact Hwf|].
  destruct (lookup_returns_slot (rq_type r) (rq_name r) (rq_drop_on_fork r)
              (rq_args r) _ Hwf) as (a & Ha & Hs).
  exists a. split; [exact Ha|].
  by destruct (lookup_wf _ _ _ _ _ Hwf _ _ _ Hs).
Qed.

(** X6: in every context reached from the empty one, two different
    (name, type) pairs never share an object: the instances held by the
    slots are pairwise distinct. *)
Theorem distinct_slots_hold_distinct_objects ops k1 k2 a1 a2 :
  associated_objs (run_ops ops empty_context) !! k1 = Some a1 →
  associated_objs (run_ops ops empty_context) !! k2 = Some a2 →
  k1 ≠ k2 → any_instance a1 ≠ any_instance a2.
Proof.
  intros H1 H2 Hne Heq. apply Hne.
  destruct (run_ops_keeps ops empty_context empty_keeps) as [_ Hu].
  by eapply Hu.
Qed.

Lemma distinct_slots_hold_distinct_objects_witness :
  associated_objs
    (run_ops [op_lookup (ask TypeA "x" true 1); op_notify_pre_fork;
              op_lookup (ask TypeB "x" false 2);
              op_lookup (ask TypeA "x" false 3)] empty_context)
    !! ("x", TypeA)
    = Some {| any_type := TypeA; any_args := 3; any_instance := 2 |} ∧
  associated_objs
    (run_ops [op_lookup (ask TypeA "x" true 1); op_notify_pre_fork;
              op_lookup (ask TypeB "x" false 2);
              op_lookup (ask TypeA "x" false 3)] empty_context)
    !! ("x", TypeB)
    = Some {| any_type := TypeB; any_args := 2; any_instance := 1 |} ∧
  (2 ≠ 1)%nat.
Proof.
  split; [vm_compute; reflexivity|]. split; [vm_compute; reflexivity|].
  exact (distinct_slots_hold_distinct_objects
           [op_lookup (ask TypeA "x" true 1); op_notify_pre_fork;
            op_lookup (ask TypeB "x" false 2);
            op_lookup (ask TypeA "x" false 3)]
           ("x", TypeA) ("x", TypeB)
           {| any_type := TypeA; any_args := 3; any_instance := 2 |}
           {| any_type := TypeB; any_args := 2; any_instance := 1 |}
           ltac:(vm_compute; reflexivity) ltac:(vm_compute; reflexivity)
           ltac:(discriminate)).
Defined.

(** X7: the first caller wins: once a singleton was constructed, every
    later lookup of its pair returns the object built from the arguments of
    the call that created it; the arguments and the [drop_on_fork] of the
    later calls are not used. *)
Theorem first_caller_arguments_win cct T name d args rs d' args' :
  associated_objs cct !! (name, T) = None →
  (lookup_or_create_singleton_object T name d' args'
     (run_lookups rs
        (lookup_or_create_singleton_object T name d args cct).2).2).1
  = Ret {| any_type := T; any_args := args;
           any_instance := next_instance cct |}.
Proof.
  intros E. destruct (lookup_miss T name d args cct E) as (_ & Ho & _).
  set (a := {| any_type := T; any_args := args;
               any_instance := next_instance cct |}) in *.
  assert (Hs : associated_objs
                 (run_lookups rs
                    (lookup_or_create_singleton_object T name d args cct).2).2
                 !! (name, T) = Some a).
  { apply run_lookups_extends. rewrite Ho. apply lookup_insert_eq. }
  rewrite (lookup_hit _ _ _ _ _ _ Hs). cbn. unfold any_cast. cbn.
  by rewrite decide_True.
Qed.

Lemma first_caller_arguments_win_witness :
  associated_objs empty_context !! ("x", TypeA) = None ∧
  (lookup_or_create_singleton_object TypeA "x" true 9
     (run_lookups [ask TypeB "x" true 5]
        (lookup_or_create_singleton_object TypeA "x" false 1
           empty_context).2).2).1
  = Ret {| any_type := TypeA; any_args := 1; any_instance := 0 |}.
Proof.
  split; [reflexivity|].
  exact (first_caller_arguments_win empty_context TypeA "x" false 1
           [ask TypeB "x" true 5] true 9 eq_refl).
Defined.

(** Where the marks of the drop set come from: a lookup that passes
    [drop_on_fork]. *)
Lemma lookup_mark_origin T name d args cct n :
  n ∈ associated_objs_drop_on_fork
        (lookup_or_create_singleton_object T name d args cct).2 →
  n ∈ associated_objs_drop_on_fork cct ∨ (name = n ∧ d = true).
Proof.
  lookup_cases T name d args cct H; [by left|].
  destruct H as (_ & _ & Hd & _). rewrite Hd.
  destruct d; [|by left].
  intros [->%elem_of_singleton|?]%elem_of_union; auto.
Qed.

Lemma run_lookups_mark_origin rs cct n :
  n ∈ associated_objs_drop_on_fork (run_lookups rs cct).2 →
  n ∈ associated_objs_drop_on_fork cct ∨
  ∃ r, r ∈ rs ∧ rq_name r = n ∧ rq_drop_on_fork r = true.
Proof.
  revert cct. induction rs as [|r rs IH]; intros cct; [by left|].
  rewrite run_lookups_cons. cbn. intros [H|(r' & Hin & Hr)]%IH.
  - apply lookup_mark_origin in H as [H|[Hn Hd]]; [by left|].
    right. exists r. split; [apply list_elem_of_here | done].
  - right. exists r'. split; [by apply list_elem_of_further | done].
Qed.

Lemma call_pre_fork_mark_origin ws cct n :
  n ∈ associated_objs_drop_on_fork (call_pre_fork ws cct) →
  n ∈ associated_objs_drop_on_fork cct ∨
  ∃ w r, w ∈ ws ∧ r ∈ handle_pre_fork w ∧ rq_name r = n ∧
         rq_drop_on_fork r = true.
Proof.
  revert cct. induction ws as [|w ws IH]; intros cct; [by left|].
  cbn. intros [H|(w' & r & Hw & Hr)]%IH.
  - apply run_lookups_mark_origin in H as [H|(r & Hin & Hr)]; [by left|].
    right. exists w, r. split; [apply list_elem_of_here | done].
  - right. exists w', r. split; [by apply list_elem_of_further | done].
Qed.

(** X8: [drop_on_fork] counts only in the call that creates the slot.
    Asking with [drop_on_fork] set for a singleton that is already there
    changes nothing, and if its name was not marked and no pre-fork hook
    marks it, the singleton is still there, the same object, after
    [notify_pre_fork]. *)
Theorem drop_on_fork_ignored_on_existing_slot cct T name args a :
  associated_objs cct !! (name, T) = Some a →
  name ∉ associated_objs_drop_on_fork cct →
  hooks_leave name cct →
  (lookup_or_create_singleton_object T name true args cct).2 = cct ∧
  associated_objs
    (notify_pre_fork (lookup_or_create_singleton_object T name true args cct).2)
    !! (name, T) = Some a.
Proof.
  intros Ha Hn Hhooks. rewrite (lookup_hit _ _ _ _ _ _ Ha). cbn [snd].
  split; [done|]. unfold notify_pre_fork.
  rewrite drop_marked_entries_lookup. rewrite decide_False.
  - by apply (call_pre_fork_extends (_fork_watchers cct) cct).
  - intros [H|(w & r & Hw & Hr & Hname & Hd)]%call_pre_fork_mark_origin;
      [done|].
    rewrite (Hhooks w r Hw Hr Hname) in Hd. done.
Qed.

Lemma drop_on_fork_ignored_on_existing_slot_witness :
  associated_objs cct_x_A !! ("x", TypeA)
    = Some {| any_type := TypeA; any_args := 7; any_instance := 0 |} ∧
  ("x" ∉ associated_objs_drop_on_fork cct_x_A) ∧
  hooks_leave "x" cct_x_A ∧
  associated_objs
    (notify_pre_fork
       (lookup_or_create_singleton_object TypeA "x" true 1 cct_x_A).2)
    !! ("x", TypeA)
  = Some {| any_type := TypeA; any_args := 7; any_instance := 0 |}.
Proof.
  assert (Hn : "x" ∉ associated_objs_drop_on_fork cct_x_A)
    by (apply (bool_decide_unpack _); vm_compute; exact I).
  assert (Hh : hooks_leave "x" cct_x_A)
    by (intros w r Hw; cbn in Hw; by inversion Hw).
  split; [reflexivity|]. split; [exact Hn|]. split; [exact Hh|].
  exact (proj2 (drop_on_fork_ignored_on_existing_slot cct_x_A TypeA "x" 1
                  {| any_type := TypeA; any_args := 7; any_instance := 0 |}
                  eq_refl Hn Hh)).
Defined.

Lemma log_event_post_fork_same w c1 c2 :
  same_but_calls c1 c2 → same_but_calls (log_event (EvPostFork w) c1) c2.
Proof.
  intros (Ho & Hd & Hw & Hn & Hc). repeat split; try done.
  cbn [trace log_event]. rewrite constructed_app, Hc. cbn.
  by rewrite app_nil_r.
Qed.

(** The loop over the watchers leaves what the lookups of their
    post-fork hooks, made one after another in the order of the watchers,
    leave. *)
Lemma call_post_fork_same ws c1 c2 :
  same_but_calls c1 c2 →
  same_but_calls (call_post_fork ws c1)
                 (run_lookups (post_fork_requests ws) c2).2.
Proof.
  revert c1 c2. induction ws as [|w ws IH]; intros c1 c2 Hs; [done|].
  cbn [call_post_fork post_fork_requests flat_map].
  rewrite run_lookups_app. apply IH.
  apply run_lookups_same. by apply log_event_post_fork_same.
Qed.

(** X9: [notify_post_fork] calls the post-fork hook of every watcher in
    registration order and removes nothing: every slot and every mark of
    the drop set is still there afterwards; and what it leaves, the
    objects constructed included, is what the lookups of the post-fork
    hooks leave when they are made hook after hook in registration
    order. *)
Theorem notify_post_fork_calls_hooks_keeps_slots cct :
  post_fork_calls (trace (notify_post_fork cct))
    = post_fork_calls (trace cct) ++ map fw_id (_fork_watchers cct) ∧
  (∀ k a, associated_objs cct !! k = Some a →
          associated_objs (notify_post_fork cct) !! k = Some a) ∧
  associated_objs_drop_on_fork cct
    ⊆ associated_objs_drop_on_fork (notify_post_fork cct) ∧
  same_but_calls
    (notify_post_fork cct)
    (run_lookups (post_fork_requests (_fork_watchers cct)) cct).2.
Proof.
  unfold notify_post_fork.
  destruct (call_post_fork_extends (_fork_watchers cct) cct) as (Ho & Hd & _).
  split; [apply call_post_fork_calls|]. split; [done|]. split; [done|].
  apply call_post_fork_same, same_but_calls_refl.
Qed.

(** X10: watchers stay registered: neither notification changes the list
    of watchers, so every later fork calls the same hooks again, in the
    same order. *)
Theorem watchers_called_on_every_fork cct :
  _fork_watchers (notify_pre_fork cct) = _fork_watchers cct ∧
  _fork_watchers (notify_post_fork cct) = _fork_watchers cct ∧
  pre_fork_calls
    (trace (notify_pre_fork (notify_post_fork (notify_pre_fork cct))))
  = pre_fork_calls (trace cct) ++ map fw_id (_fork_watchers cct)
      ++ map fw_id (_fork_watchers cct).
Proof.
  assert (Hpre : ∀ c, _fork_watchers (notify_pre_fork c) = _fork_watchers c).
  { intros c. unfold notify_pre_fork. cbn.
    apply (call_pre_fork_extends (_fork_watchers c) c). }
  assert (Hpost : ∀ c, _fork_watchers (notify_post_fork c) = _fork_watchers c).
  { intros c. apply (call_post_fork_extends (_fork_watchers c) c). }
  assert (Hcalls : ∀ c, pre_fork_calls (trace (notify_pre_fork c))
                        = pre_fork_calls (trace c) ++ map fw_id (_fork_watchers c)).
  { intros c. unfold notify_pre_fork. cbn. apply call_pre_fork_calls. }
  split; [apply Hpre|]. split; [apply Hpost|].
  rewrite Hcalls, Hpost, Hpre.
  unfold notify_post_fork at 1.
  rewrite (proj2 (call_post_fork_calls _ _)), Hcalls.
  by rewrite <- app_assoc.
Qed.

Example fork_twice :
  trace (run_ops [op_register_fork_watcher watcher_5;
                  op_register_fork_watcher watcher_6;
                  op_notify_pre_fork; op_notify_post_fork;
                  op_notify_pre_fork] empty_context)
  = [EvPreFork 5; EvConstruct "x" TypeA 0; EvPreFork 6;
     EvPostFork 5; EvPostFork 6; EvConstruct "y" TypeB 1;
     EvPreFork 5; EvConstruct "x" TypeA 2; EvPreFork 6].
Proof. vm_compute. reflexivity. Qed.

End ReachabilityFacts.

(** ** The pid file *)


Module MorePidFileFacts.
Import PidFile MorePidFile PidFileFacts.
Open Scope Z_scope.

(** *** The text of the pid reads back as the pid *)

Lemma list_ascii_app s1 s2 :
  list_ascii_of_string (s1 +:+ s2)
  = list_ascii_of_string s1 ++ list_ascii_of_string s2.
Proof.
  induction s1 as [|c s1 IH]; [reflexivity|].
  change (String c s1 +:+ s2) with (String c (s1 +:+ s2)).
  cbn [list_ascii_of_string]. by rewrite IH.
Qed.

Ltac digit_cases d IH :=
  induction d as [|d IH|d IH|d IH|d IH|d IH|d IH|d IH|d IH|d IH|d IH].

Ltac digit_value :=
  repeat match goal with
  | |- context [Z.of_nat ?n] =>
      let v := eval vm_compute in (Z.of_nat n) in change (Z.of_nat n) with v
  end.

Lemma atoi_digits_step c d acc s :
  digit_of c = Some d → atoi_digits acc (c :: s) = atoi_digits (10 * acc + d) s.
Proof. intros H. cbn [atoi_digits]. by rewrite H. Qed.

Lemma atoi_digits_acc d (acc : positive) rest :
  atoi_digits (Z.pos acc)
    (list_ascii_of_string (NilEmpty.string_of_uint d) ++ rest)
  = atoi_digits (Z.pos (Pos.of_uint_acc d acc)) rest.
Proof.
  revert acc. digit_cases d IH; intros acc; [done|..];
    cbn [NilEmpty.string_of_uint list_ascii_of_string app Pos.of_uint_acc];
    rewrite <- IH; (erewrite atoi_digits_step by reflexivity); f_equal;
    digit_value; lia.
Qed.

Lemma atoi_digits_uint d rest :
  atoi_digits 0 (list_ascii_of_string (NilEmpty.string_of_uint d) ++ rest)
  = atoi_digits (Z.of_N (Pos.of_uint d)) rest.
Proof.
  digit_cases d IH; [done|..];
    cbn [NilEmpty.string_of_uint list_ascii_of_string app Pos.of_uint];
    (erewrite atoi_digits_step by reflexivity); [exact IH|..];
    cbn [Z.of_N]; rewrite <- atoi_digits_acc; f_equal; digit_value; lia.
Qed.

(** A number that starts with a digit: no white space and no sign to
    skip. *)
Lemma atoi_starts_with_digit d rest :
  d ≠ Decimal.Nil →
  atoi (list_ascii_of_string (NilEmpty.string_of_uint d) ++ rest)
  = atoi_digits 0 (list_ascii_of_string (NilEmpty.string_of_uint d) ++ rest).
Proof. destruct d; done. Qed.

Lemma string_of_uint_nonnil d :
  d ≠ Decimal.Nil → NilZero.string_of_uint d = NilEmpty.string_of_uint d.
Proof. destruct d; done. Qed.

Lemma atoi_pos p :
  atoi (list_ascii_of_string (NilZero.string_of_uint (Pos.to_uint p))
        ++ [ascii_of_nat 10])
  = Z.pos p.
Proof.
  pose proof (Unsigned.to_uint_nonnil p) as Hnil.
  rewrite string_of_uint_nonnil by done.
  rewrite atoi_starts_with_digit by done.
  rewrite atoi_digits_uint, Unsigned.of_to. reflexivity.
Qed.

Lemma atoi_print_pid pid : atoi (print_pid pid) = pid.
Proof.
  unfold print_pid. rewrite list_ascii_app.
  change (list_ascii_of_string (String "010" "")) with [ascii_of_nat 10].
  destruct pid as [|p|p]; [reflexivity|apply atoi_pos|].
  cbn [Z.to_int NilZero.string_of_int list_ascii_of_string app].
  pose proof (Unsigned.to_uint_nonnil p) as Hnil.
  rewrite string_of_uint_nonnil by done.
  change (atoi ("-"%char :: ?s)) with (- atoi_digits 0 s).
  rewrite atoi_digits_uint, Unsigned.of_to. reflexivity.
Qed.

(** X11: what [write] puts into the file reads back, with the [atoi] of
    [remove], as the pid it was printed from, for every pid, and also when
    the text is followed by bytes that are not digits. *)
Theorem atoi_reads_back_printed_pid pid rest :
  atoi (print_pid pid) = pid ∧
  (0 < pid → atoi (print_pid pid ++ rest) = pid).
Proof.
  split; [apply atoi_print_pid|]. intros Hpos.
  destruct pid as [|p|p]; try lia.
  unfold print_pid. rewrite list_ascii_app, <- app_assoc.
  cbn [Z.to_int NilZero.string_of_int].
  pose proof (Unsigned.to_uint_nonnil p) as Hnil.
  rewrite string_of_uint_nonnil by done.
  rewrite atoi_starts_with_digit by done.
  rewrite atoi_digits_uint, Unsigned.of_to. reflexivity.
Qed.

Lemma atoi_reads_back_printed_pid_witness :
  (0 < 1234)%Z ∧
  atoi (print_pid 1234 ++ list_ascii_of_string "garbage") = 1234.
Proof.
  split; [lia|].
  exact (proj2 (atoi_reads_back_printed_pid 1234
                  (list_ascii_of_string "garbage")) ltac:(lia)).
Defined.

(** *** Acquire, write, release *)

Lemma open_ok_offset pid_file os h1 os1 :
  open pid_file reset os = (0, h1, os1) →
  os_fds os1 !! pf_fd h1 = Some (pf_dev h1, pf_ino h1, 0%nat) ∧
  os_pid os1 = os_pid os.
Proof.
  unfold open. cbn [pf_path pf_fd pf_dev pf_ino].
  destruct (Nat.leb _ _); [intros [= ? ? ?]; done|].
  unfold open_creat.
  destruct (os_fail os sys_open) eqn:Ef1; [intros [= ? ? ?]; done|].
  destruct (decide (substring 0 PATH_MAX pid_file = "")) as [|Hpath];
    [intros [= ? ? ?]; done|].
  set (fd := lowest_free (os_fds os)) in *.
  destruct (os_names os !! substring 0 PATH_MAX pid_file) as [[d i]|] eqn:En;
    unfold fstat;
    cbn [os_fail os_fds set_fds set_data set_names set_next_ino];
    (destruct (os_fail os sys_fstat) eqn:Ef2; [intros [= ? ? ?]; done|]);
    rewrite lookup_insert_eq; cbn [st_dev st_ino];
    unfold fcntl_setlk;
    cbn [os_fail os_fds os_locks os_pid set_fds set_locks set_data set_names
         set_next_ino];
    (destruct (os_fail os sys_fcntl) eqn:Ef3; [intros [= ? ? ?]; done|]);
    rewrite lookup_insert_eq;
    (destruct (os_locks os !! _) as [holder|] eqn:El;
       [destruct (decide (holder = os_pid os)) as [->|];
          [|intros [= ? ? ?]; done] |]);
    intros [= <- <-]; cbn; by rewrite lookup_insert_eq.
Qed.

(** [write] on a descriptor at offset 0: the file holds the text of the
    pid and nothing else. *)
Lemma write_at_start h os file :
  pf_path h ≠ "" → pf_fd h ≠ -1 →
  os_fds os !! pf_fd h = Some (file, 0%nat) →
  os_fail os sys_ftruncate = None → os_fail os sys_write = None →
  (write h os).1 = 0 ∧
  os_data (write h os).2 !! file = Some (print_pid (os_pid os)) ∧
  os_fds (write h os).2 !! pf_fd h
    = Some (file, length (print_pid (os_pid os))).
Proof.
  intros Hpath Hfd Hfds Ht Hw. unfold write, is_open.
  rewrite (proj2 (String.eqb_neq _ _) Hpath), (proj2 (Z.eqb_neq _ _) Hfd).
  cbn [negb andb]. unfold ftruncate0. rewrite Ht, Hfds.
  unfold safe_write. cbn [os_fail os_fds os_data set_data]. rewrite Hw, Hfds.
  rewrite lookup_insert_eq. cbn.
  rewrite !lookup_insert_eq, drop_nil, app_nil_r. done.
Qed.

Lemma close_fail fd os : os_fail (close fd os) = os_fail os.
Proof. unfold close. by destruct (os_fds os !! fd) as [[file off]|]. Qed.

(** X12: the life of the pid file when no call fails for an outside
    reason: after [open] and [write] have succeeded, [remove] finds the
    same file under the path and its own pid in it, unlinks the path,
    closes the descriptor and resets the handle. *)
Theorem remove_after_open_and_write pid_file os h1 os1 :
  (∀ c, os_fail os c = None) →
  (length (print_pid (os_pid os)) ≤ 32)%nat →
  open pid_file reset os = (0, h1, os1) →
  (write h1 os1).1 = 0 ∧
  (remove h1 (write h1 os1).2).1 = (0, reset) ∧
  os_names (remove h1 (write h1 os1).2).2 !! pf_path h1 = None ∧
  os_fds (remove h1 (write h1 os1).2).2 !! pf_fd h1 = None.
Proof.
  intros Hfail Hlen Hopen.
  destruct (open_ok _ _ _ _ Hopen) as ((Hpath & Hfd & _ & Hlock) & Hn & Hf).
  destruct (open_ok_offset _ _ _ _ Hopen) as [Hfds Hpid].
  assert (Hfail1 : ∀ c, os_fail os1 c = None) by (intros c; by rewrite Hf).
  destruct (write_at_start h1 os1 (pf_dev h1, pf_ino h1) Hpath Hfd Hfds
              (Hfail1 _) (Hfail1 _)) as (Hw & Hdata & Hfds2).
  destruct (write_keeps h1 os1) as (Hn2 & Hf2 & Hl2 & Hp2).
  set (os2 := (write h1 os1).2) in *.
  assert (Hfail2 : ∀ c, os_fail os2 c = None) by (intros c; by rewrite Hf2).
  assert (HL : Locked h1 os2).
  { split; [done|]. split; [done|]. split; [by eexists|].
    by rewrite Hl2, Hp2. }
  assert (Hv : verify h1 os2 = 0).
  { apply verify_same_file; [done|apply Hfail2|by rewrite Hn2]. }
  assert (Hstored : stored_pid h1 os2 = os_pid os2).
  { unfold stored_pid. rewrite Hdata. cbn [default from_option id].
    rewrite take_ge by (rewrite Hpid; exact Hlen).
    rewrite atoi_print_pid. by rewrite Hp2. }
  split; [exact Hw|].
  rewrite (remove_locked h1 os2 HL Hv (Hfail2 _) (Hfail2 _)).
  rewrite Hstored, Z.eqb_refl. cbn [negb].
  unfold unlink. rewrite close_names. cbn [os_fail os_names set_fds].
  rewrite close_fail. cbn [os_fail os_names set_fds].
  rewrite Hfail2, Hn2, Hn. cbn.
  split; [done|]. split; [apply lookup_delete_eq|]. apply close_closes.
Qed.

Lemma remove_after_open_and_write_witness :
  (∀ c, os_fail fresh_os c = None) ∧
  (length (print_pid (os_pid fresh_os)) ≤ 32)%nat ∧
  (remove h_locked os_locked).1 = (0, reset) ∧
  os_names (remove h_locked os_locked).2 !! pid_path = None.
Proof.
  assert (Hlen : (length (print_pid (os_pid fresh_os)) ≤ 32)%nat)
    by (vm_compute; lia).
  split; [done|]. split; [exact Hlen|].
  destruct (remove_after_open_and_write pid_path fresh_os h_locked
              (open pid_path reset fresh_os).2 (λ _, eq_refl) Hlen
              ltac:(vm_compute; reflexivity)) as (_ & Hr & Hn & _).
  split; [exact Hr | exact Hn].
Defined.

(** *** Failures of [open] *)

(** The descriptor [open_creat] hands out is not in use. *)
Lemma lowest_free_free fds : fds !! lowest_free fds = None.
Proof.
  unfold lowest_free.
  destruct (head _) as [n|] eqn:E.
  - cbn. apply head_Some_elem_of in E.
    by apply list_elem_of_filter in E as [E _].
  - exfalso. apply head_None in E.
    assert (Hall : ∀ n, n ∈ (Z.of_nat <$> seq 0 (S (size fds))) → n ∈ dom fds).
    { intros n Hn. apply elem_of_dom.
      destruct (fds !! n) eqn:En; [by eexists|].
      assert (Hin : n ∈ filter (λ n, fds !! n = None)
                          (Z.of_nat <$> seq 0 (S (size fds))))
        by (by apply list_elem_of_filter).
      rewrite E in Hin. by inversion Hin. }
    assert (Hnd : NoDup (Z.of_nat <$> seq 0 (S (size fds)))).
    { apply NoDup_fmap_2; [apply Nat2Z.inj'|apply NoDup_seq]. }
    assert (Hsub : (list_to_set (Z.of_nat <$> seq 0 (S (size fds))) : gset Z)
                   ⊆ dom fds).
    { intros n Hn. apply Hall. by apply elem_of_list_to_set in Hn. }
    apply subseteq_size in Hsub.
    rewrite size_list_to_set, length_fmap, length_seq, size_dom in Hsub
      by done.
    lia.
Qed.

Lemma close_just_opened fd file os :
  os_fds os !! fd = None →
  os_fds (close fd (set_fds (<[fd := file]> (os_fds os)) os)) = os_fds os.
Proof.
  intros Hfree. unfold close. cbn [os_fds set_fds].
  rewrite lookup_insert_eq. destruct file as [f off]. cbn.
  by apply delete_insert_id.
Qed.

(** X13: an [open] that fails leaves no descriptor behind: the table of
    open descriptors is as before the call and the handle records none;
    unless the path was too long, the handle is reset as a whole. *)
Theorem open_failure_leaves_no_descriptor pid_file os r h1 os1 :
  open pid_file reset os = (r, h1, os1) → r ≠ 0%Z →
  os_fds os1 = os_fds os ∧ pf_fd h1 = (-1)%Z ∧
  ((String.length pid_file ≤ PATH_MAX)%nat → h1 = reset).
Proof.
  unfold open. cbn [pf_path pf_fd pf_dev pf_ino].
  destruct (Nat.leb_spec (S PATH_MAX) (String.length pid_file)) as [Hlong|Hlen].
  { intros [= <- <- <-] _. split; [done|]. split; [done|]. lia. }
  unfold open_creat.
  destruct (os_fail os sys_open) eqn:Ef1; [by intros [= <- <- <-] _|].
  destruct (decide (substring 0 PATH_MAX pid_file = "")) as [|Hpath];
    [by intros [= <- <- <-] _|].
  pose proof (lowest_free_free (os_fds os)) as Hfree.
  set (fd := lowest_free (os_fds os)) in *.
  destruct (os_names os !! substring 0 PATH_MAX pid_file) as [[d i]|] eqn:En;
    unfold fstat;
    cbn [os_fail os_fds set_fds set_data set_names set_next_ino];
    (destruct (os_fail os sys_fstat) eqn:Ef2;
       [intros [= <- <- <-] _; split; [|done];
        try apply (close_just_opened fd _ os Hfree);
        apply (close_just_opened fd _
                 (set_data _ (set_names _ (set_next_ino _ os))) Hfree) |]);
    rewrite lookup_insert_eq; cbn [st_dev st_ino];
    unfold fcntl_setlk;
    cbn [os_fail os_fds os_locks os_pid set_fds set_locks set_data set_names
         set_next_ino];
    (destruct (os_fail os sys_fcntl) eqn:Ef3;
       [intros [= <- <- <-] _; split; [|done];
        try apply (close_just_opened fd _ os Hfree);
        apply (close_just_opened fd _
                 (set_data _ (set_names _ (set_next_ino _ os))) Hfree) |]);
    rewrite lookup_insert_eq;
    (destruct (os_locks os !! _) as [holder|] eqn:El;
       [destruct (decide (holder = os_pid os)) as [->|];
          [| intros [= <- <- <-] _; split; [|done];
             try apply (close_just_opened fd _ os Hfree);
             apply (close_just_opened fd _
                      (set_data _ (set_names _ (set_next_ino _ os))) Hfree)]
       |]);
    intros [= <- <- <-] Hr; done.
Qed.

Lemma substring_all s n :
  (String.length s ≤ n)%nat → substring 0 n s = s.
Proof.
  revert n. induction s as [|c s IH]; intros n Hn; [by destruct n|].
  destruct n as [|n]; [cbn in Hn; lia|]. cbn in *. rewrite IH; [done|lia].
Qed.

(** X14: when another process holds the lock on the pid file, [open]
    returns EAGAIN, resets the handle, closes the descriptor it had opened
    and leaves the file, its name and the lock of the other process as
    they were. *)
Theorem open_reports_lock_held pid_file os file holder :
  (String.length pid_file ≤ PATH_MAX)%nat → pid_file ≠ "" →
  os_fail os sys_open = None → os_fail os sys_fstat = None →
  os_fail os sys_fcntl = None →
  os_names os !! pid_file = Some file →
  os_locks os !! file = Some holder → holder ≠ os_pid os →
  (open pid_file reset os).1 = ((- EAGAIN)%Z, reset) ∧
  os_fds (open pid_file reset os).2 = os_fds os ∧
  os_locks (open pid_file reset os).2 = os_locks os ∧
  os_names (open pid_file reset os).2 = os_names os ∧
  os_data (open pid_file reset os).2 = os_data os.
Proof.
  intros Hlen Hpath Ho Hs Hc Hn Hl Hother. unfold open.
  cbn [pf_path pf_fd pf_dev pf_ino]. rewrite substring_all by done.
  destruct (Nat.leb_spec (S PATH_MAX) (String.length pid_file)); [lia|].
  unfold open_creat. rewrite Ho, decide_False, Hn by done.
  destruct file as [d i].
  pose proof (lowest_free_free (os_fds os)) as Hfree.
  set (fd := lowest_free (os_fds os)) in *.
  unfold fstat. cbn [os_fail os_fds set_fds]. rewrite Hs, lookup_insert_eq.
  unfold fcntl_setlk. cbn [os_fail os_fds os_locks os_pid set_fds].
  rewrite Hc, lookup_insert_eq, Hl, decide_False by done.
  cbn [fst snd]. split; [done|]. split; [by apply close_just_opened|].
  unfold close. cbn [os_fds os_locks os_pid set_fds].
  rewrite lookup_insert_eq, Hl, decide_False by done. done.
Qed.

Lemma open_reports_lock_held_witness :
  (String.length pid_path ≤ PATH_MAX)%nat ∧
  os_locks os_contended !! (8, 100)%Z = Some 1234%Z ∧
  os_pid os_contended = 4321%Z ∧
  (open pid_path reset os_contended).1 = ((- EAGAIN)%Z, reset) ∧
  os_locks (open pid_path reset os_contended).2 = os_locks os_contended.
Proof.
  assert (Hlen : (String.length pid_path ≤ PATH_MAX)%nat) by (vm_compute; lia).
  split; [exact Hlen|]. split; [vm_compute; reflexivity|].
  split; [reflexivity|].
  destruct (open_reports_lock_held pid_path os_contended (8, 100)%Z 1234%Z
              Hlen ltac:(discriminate) eq_refl eq_refl eq_refl
              ltac:(vm_compute; reflexivity) ltac:(vm_compute; reflexivity)
              ltac:(vm_compute; discriminate)) as (Hr & _ & Hl & _).
  split; [exact Hr | exact Hl].
Defined.

Lemma open_failure_leaves_no_descriptor_witness :
  (open pid_path reset os_contended).1.1 ≠ 0%Z ∧
  os_fds (open pid_path reset os_contended).2 = os_fds os_contended ∧
  (open pid_path reset os_contended).1.2 = reset.
Proof.
  assert (Hr : (open pid_path reset os_contended).1.1 ≠ 0%Z)
    by (vm_compute; discriminate).
  split; [exact Hr|].
  destruct (open_failure_leaves_no_descriptor pid_path os_contended
              (open pid_path reset os_contended).1.1
              (open pid_path reset os_contended).1.2
              (open pid_path reset os_contended).2
              ltac:(by destruct (open pid_path reset os_contended) as [[? ?] ?])
              Hr) as (Hfds & _ & Hh).
  split; [exact Hfds|]. apply Hh. vm_compute. lia.
Defined.

(** *** [remove] and [pidfile_write] *)

(** X15: for a locked handle, when no call fails for an outside reason
    and the number written in the file fits an [int], [remove] always
    closes the descriptor; it unlinks the path exactly when the path
    still names the captured file and the file holds the pid of the
    process; and it leaves the handle set, instead of resetting it,
    exactly when the file is the captured one but holds another pid.
    (Of a number outside [int] the [atoi] of C says nothing, and [atoi]
    here does not wrap it as the C library may: such a file is left
    out.) *)
Theorem remove_unlinks_iff_identity_holds h os :
  Locked h os → (∀ c, os_fail os c = None) →
  is_Some (os_names os !! pf_path h) →
  (- 2 ^ 31 ≤ stored_pid h os < 2 ^ 31)%Z →
  os_fds (remove h os).2 !! pf_fd h = None ∧
  (os_names (remove h os).2 !! pf_path h = None ↔
   verify h os = 0 ∧ stored_pid h os = os_pid os) ∧
  ((remove h os).1.2 = h ↔
   verify h os = 0 ∧ stored_pid h os ≠ os_pid os).
Proof.
  intros HL Hfail [file Hn] _.
  pose proof HL as (Hpath & Hfd & [off Hfds] & Hlock).
  assert (Hh : h ≠ reset) by (intros ->; by apply Hfd).
  destruct (Z.ltb_spec (verify h os) 0) as [Hneg|Hpos].
  - assert (Hrm : remove h os = (verify h os, reset, close (pf_fd h) os)).
    { unfold remove. rewrite (proj2 (String.eqb_neq _ _) Hpath).
      rewrite (proj2 (Z.ltb_lt _ _) Hneg), (proj2 (Z.eqb_neq _ _) Hfd). done. }
    rewrite Hrm. cbn [fst snd]. split; [apply close_closes|].
    rewrite close_names, Hn. split.
    + split; [done|]. intros [Hv _]. lia.
    + split; [by intros Heq; destruct Hh|]. intros [Hv _]. lia.
  - assert (Hv : verify h os = 0) by (pose proof (verify_nonpos h os); lia).
    rewrite (remove_locked h os HL Hv (Hfail _) (Hfail _)).
    destruct (Z.eqb_spec (stored_pid h os) (os_pid os)) as [Hpid|Hpid];
      cbn [negb].
    + unfold unlink. rewrite close_fail, close_names.
      cbn [os_fail os_names set_fds]. rewrite Hfail, Hn. cbn [fst snd].
      split; [apply close_closes|]. cbn [os_names set_names].
      rewrite lookup_delete_eq. split.
      * done.
      * split; [by intros Heq; destruct Hh|]. by intros [_ ?].
    + cbn [fst snd]. split; [apply close_closes|]. rewrite close_names.
      cbn [os_names set_fds]. rewrite Hn. split.
      * split; [done|]. by intros [_ ?].
      * done.
Qed.

Lemma remove_unlinks_iff_identity_holds_witness :
  Locked h_locked os_foreign_pid ∧
  (∀ c, os_fail os_foreign_pid c = None) ∧
  is_Some (os_names os_foreign_pid !! pf_path h_locked) ∧
  (- 2 ^ 31 ≤ stored_pid h_locked os_foreign_pid < 2 ^ 31)%Z ∧
  (remove h_locked os_foreign_pid).1.2 = h_locked.
Proof.
  assert (HL : Locked h_locked os_foreign_pid).
  { split; [discriminate|]. split; [discriminate|]. split.
    - exists 5%nat. vm_compute. reflexivity.
    - vm_compute. reflexivity. }
  assert (Hs : is_Some (os_names os_foreign_pid !! pf_path h_locked))
    by (eexists; vm_compute; reflexivity).
  assert (Hint : (- 2 ^ 31 ≤ stored_pid h_locked os_foreign_pid < 2 ^ 31)%Z)
    by (vm_compute; split; [discriminate | reflexivity]).
  split; [exact HL|]. split; [done|]. split; [exact Hs|].
  split; [exact Hint|].
  apply (proj2 (proj2 (remove_unlinks_iff_identity_holds h_locked
                         os_foreign_pid HL (λ _, eq_refl) Hs Hint))).
  split; [vm_compute; reflexivity | vm_compute; discriminate].
Defined.

Lemma write_Locked h os : Locked h os → Locked h (write h os).2.
Proof.
  intros (Hpath & Hfd & [off Hfds] & Hlock).
  destruct (write_keeps h os) as (_ & _ & Hl & Hp).
  split; [done|]. split; [done|]. split; [|by rewrite Hl, Hp].
  unfold write, is_open.
  rewrite (proj2 (String.eqb_neq _ _) Hpath), (proj2 (Z.eqb_neq _ _) Hfd).
  cbn [negb andb]. unfold ftruncate0.
  destruct (os_fail os sys_ftruncate); [by eexists|]. rewrite Hfds.
  unfold safe_write. cbn [os_fail os_fds set_data].
  destruct (os_fail os sys_write); [cbn; by eexists|]. rewrite Hfds.
  cbn. rewrite lookup_insert_eq. by eexists.
Qed.

(** X16: [pidfile_write] with a path, called when no handle exists.
    When it returns 0 the file-level handle is set and locked on the
    file the path names.  When [open] or [write] fails the handle is
    deleted again.  When [atexit] fails it returns EINVAL with the new
    handle still in place, so that any later call with a path fails the
    assertion, as every call does while a handle exists. *)
Theorem pidfile_write_outcomes pid_file os r p os' :
  pid_file ≠ "" →
  pidfile_write pid_file None os = Ret (r, p, os') →
  (r = 0 → ∃ h, p = Some h ∧ Locked h os' ∧
                os_names os' !! pf_path h = Some (pf_dev h, pf_ino h)) ∧
  (r ≠ 0 → atexit os = 0 → p = None) ∧
  (atexit os ≠ 0 → r = - EINVAL ∧ p = Some reset ∧ os' = os) ∧
  (∀ h pid_file' os'', pid_file' ≠ "" →
     pidfile_write pid_file' (Some h) os'' = Fatal AssertFailed).
Proof.
  intros Hpath. unfold pidfile_write at 1.
  rewrite (proj2 (String.eqb_neq _ _) Hpath).
  destruct (Z.eqb_spec (atexit os) 0) as [Hat|Hat]; cbn [negb].
  - destruct (open pid_file reset os) as [[r1 h1] os1] eqn:Hopen.
    destruct (Z.eqb_spec r1 0) as [Hr1|Hr1]; cbn [negb].
    + subst r1. destruct (write h1 os1) as [r2 os2] eqn:Hwrite.
      destruct (Z.eqb_spec r2 0) as [Hr2|Hr2]; cbn [negb].
      * intros [= <- <- <-].
        destruct (open_ok _ _ _ _ Hopen) as (HL & Hn & _).
        split; [|split; [done|split; [done|]]].
        -- intros _. exists h1. split; [done|].
           replace os2 with (write h1 os1).2 by (by rewrite Hwrite).
           split; [by apply write_Locked|].
           by rewrite (proj1 (write_keeps h1 os1)).
        -- intros h pf' os'' Hpf'. unfold pidfile_write.
           by rewrite (proj2 (String.eqb_neq _ _) Hpf').
      * unfold pidfile_remove. intros [= <- <- <-].
        split; [done|]. split; [done|]. split; [done|].
        intros h pf' os'' Hpf'. unfold pidfile_write.
        by rewrite (proj2 (String.eqb_neq _ _) Hpf').
    + unfold pidfile_remove. intros [= <- <- <-].
      split; [done|]. split; [done|]. split; [done|].
      intros h pf' os'' Hpf'. unfold pidfile_write.
      by rewrite (proj2 (String.eqb_neq _ _) Hpf').
  - intros [= <- <- <-]. split; [done|]. split; [done|]. split; [done|].
    intros h pf' os'' Hpf'. unfold pidfile_write.
    by rewrite (proj2 (String.eqb_neq _ _) Hpf').
Qed.

Lemma pidfile_write_outcomes_witness :
  pid_path ≠ "" ∧
  pidfile_write pid_path None fresh_os = Ret (0%Z, Some h_locked, os_locked) ∧
  Locked h_locked os_locked ∧
  pidfile_write pid_path None os_no_atexit
    = Ret ((- EINVAL)%Z, Some reset, os_no_atexit) ∧
  pidfile_write pid_path (Some reset) os_no_atexit = Fatal AssertFailed.
Proof.
  assert (Hw : pidfile_write pid_path None fresh_os
               = Ret (0%Z, Some h_locked, os_locked))
    by (vm_compute; reflexivity).
  split; [discriminate|]. split; [exact Hw|].
  destruct (pidfile_write_outcomes pid_path fresh_os 0%Z (Some h_locked)
              os_locked ltac:(discriminate) Hw) as (Hok & _ & _ & Hassert).
  destruct (Hok eq_refl) as (h & [= <-] & HL & _).
  split; [exact HL|]. split; [vm_compute; reflexivity|].
  exact (Hassert reset pid_path os_no_atexit ltac:(discriminate)).
Defined.

End MorePidFileFacts.

(** ** The admin commands *)

Module MoreAdminCommandFacts.
Import AdminCommands MoreAdminCommands.

Ltac split_on_command command :=
  repeat match goal with
  | |- context [String.eqb command ?s] =>
      destruct (String.eqb_spec command s) as [->|?]
  end.

Ltac split_pairs :=
  match goal with
  | |- context [let '(_, _) := ?x in _] => destruct x
  end.

Ltac is_served :=
  apply (bool_decide_unpack _); vm_compute; exact I.

Ltac not_served H :=
  unfold served_commands in H;
  repeat (apply elem_of_cons in H as [H|H]; [congruence|]);
  by inversion H.

(** X17: a dispatch ends in a fault exactly when the command is not one
    of the names a branch of [do_command] takes; for every name that is
    taken the command returns or throws [bad_cmd_get]. *)
Theorem fatal_iff_not_served {Conf Perf Opt}
    (env : collaborators Conf Perf Opt) command cmdmap format conf perf :
  is_fatal (do_command env command cmdmap format conf perf) = true ↔
  command ∉ served_commands.
Proof.
  unfold do_command, config_and_log_command.
  split_on_command command; cbn;
    try (split; [intros _ H; not_served H | intros _]);
    try (destruct (debug_asok_assert_abort _ _ _ env conf); done);
    try done;
    (split; [|intros H; exfalso; apply H; is_served]);
    unfold cmd_getval_string, cmd_getval_strings;
    repeat (first [case_match | split_pairs]; cbn); try done.
Qed.



(** X19: [bad_cmd_get] is the only exception of a dispatch and it needs
    an argument of the wrong alternative: with arguments of the
    alternatives the commands read, [do_command] never throws, and
    [CephContextHook::call] answers [true] whenever it returns. *)
Theorem typed_arguments_never_throw {Conf Perf Opt}
    (env : collaborators Conf Perf Opt) command cmdmap format conf perf :
  well_typed cmdmap →
  (∀ e, do_command env command cmdmap format conf perf ≠ Throw e) ∧
  (∀ b r, call env command cmdmap format conf perf = Ret (b, r) →
          b = true ∧ is_Some r).
Proof.
  intros [Hs Hv].
  assert (Hstr : ∀ k, k ∈ ["var"; "logger"; "counter"] →
            ∃ o, cmd_getval_string cmdmap k = Ret o).
  { intros k Hk. unfold cmd_getval_string.
    specialize (Hs k). destruct (cmdmap !! k) as [v|]; [|by eexists].
    destruct (Hs v Hk eq_refl) as [s ->]. by eexists. }
  assert (Hstrs : ∃ o, cmd_getval_strings cmdmap "val" = Ret o).
  { unfold cmd_getval_strings.
    destruct (cmdmap !! "val") as [v|]; [|by eexists].
    destruct (Hv v eq_refl) as [l ->]. by eexists. }
  destruct (Hstr "var" ltac:(is_served)) as [var Hvar].
  destruct (Hstr "logger" ltac:(is_served)) as [logger Hlogger].
  destruct (Hstr "counter" ltac:(is_served)) as [counter Hcounter].
  destruct Hstrs as [val Hval].
  assert (Hthrow : ∀ e, do_command env command cmdmap format conf perf
                        ≠ Throw e).
  { intros e. unfold do_command, config_and_log_command.
    rewrite Hvar, Hlogger, Hcounter.
    split_on_command command; cbn;
      try (destruct (debug_asok_assert_abort _ _ _ env conf); done);
      try done;
      rewrite ?Hval;
      repeat (first [case_match | split_pairs]; cbn); done. }
  split; [exact Hthrow|].
  intros b r. unfold call.
  destruct (do_command env command cmdmap format conf perf) as [rs|e|f] eqn:E.
  - intros [= <- <-]. by split.
  - by destruct (Hthrow e).
  - done.
Qed.

Lemma typed_arguments_never_throw_witness :
  well_typed {["var" := cmd_string "debug_ms"]} ∧
  call sample_env "config get" {["var" := cmd_string "debug_ms"]} "json"
    conf_1 tt
  = Ret (true,
         Some {| rs_format := "json";
                 rs_out := [open_object_section "config_get";
                            dump_string "debug_ms" "";
                            close_section];
                 rs_conf := conf_1; rs_perf := tt; rs_log := [] |}) ∧
  call sample_env "config get" {["var" := cmd_other]} "json" conf_1 tt
  = Ret (false, None).
Proof.
  assert (Hwt : well_typed {["var" := cmd_string "debug_ms"]}).
  { split.
    - intros k v _ [<- <-]%lookup_singleton_Some. by eexists.
    - intros v [? _]%lookup_singleton_Some. done. }
  split; [exact Hwt|].
  pose proof (proj2 (typed_arguments_never_throw sample_env "config get"
                       {["var" := cmd_string "debug_ms"]} "json" conf_1 tt Hwt))
    as Hcall.
  split; vm_compute; reflexivity.
Defined.

End MoreAdminCommandFacts.

(** ** The observers of ceph_context.cc *)

Module LockdepObsFacts.
Import LockdepObs.

Lemma handle_conf_change_paired v o :
  paired o →
  paired (handle_conf_change v o) ∧ m_registered (handle_conf_change v o) = v.
Proof.
  intros [n Hn]. unfold handle_conf_change.
  destruct v, (m_registered o) eqn:Hr; cbn [andb negb].
  - split; [|done]. exists n. by rewrite Hr.
  - split; [|done]. exists n. cbn. by rewrite Hn, app_nil_r.
  - split; [|done]. exists (n + 1)%nat. cbn [m_registered lockdep_calls].
    rewrite replicate_add, concat_app. cbn [replicate concat].
    by rewrite Hn, !app_nil_r, <- app_assoc.
  - split; [|done]. exists n. by rewrite Hr.
Qed.

(** X20: over any sequence of notifications the flag of [LockdepObs]
    follows [conf->lockdep], and the context is never registered twice
    nor unregistered without being registered: with the destructor the
    calls made are a sequence of register/unregister pairs. *)
Theorem lockdep_registration_is_paired values :
  m_registered (notify_all values new_obs) = default false (last values) ∧
  ∃ n, destroy (notify_all values new_obs)
       = concat (replicate n [lockdep_register_ceph_context;
                              lockdep_unregister_ceph_context]).
Proof.
  assert (Hgen : ∀ o, paired o →
            paired (notify_all values o) ∧
            m_registered (notify_all values o)
            = default (m_registered o) (last values)).
  { induction values as [|v values IH]; intros o Ho; [done|].
    cbn [notify_all fold_left].
    destruct (handle_conf_change_paired v o Ho) as [Hp Hv].
    destruct (IH _ Hp) as [Hp' Hl]. split; [exact Hp'|].
    unfold notify_all in Hl. rewrite Hl, Hv, last_cons.
    by destruct (last values). }
  destruct (Hgen new_obs) as [[n Hn] Hl]; [by exists 0|].
  split; [exact Hl|]. unfold destroy. rewrite Hn.
  destruct (m_registered _).
  - exists (n + 1)%nat. rewrite replicate_add, concat_app.
    cbn [replicate concat]. by rewrite !app_nil_r, <- app_assoc.
  - exists n. by rewrite app_nil_r.
Qed.

Example lockdep_toggled :
  destroy (notify_all [true; true; false; false; true] new_obs)
  = [lockdep_register_ceph_context; lockdep_unregister_ceph_context;
     lockdep_register_ceph_context; lockdep_unregister_ceph_context].
Proof. reflexivity. Qed.

End LockdepObsFacts.

Module LogObsFacts.
Import LogObs.

Lemma plainly_refl l : continues_plainly l l.
Proof. split; [|done]. exists []. by rewrite app_nil_r. Qed.

Lemma plainly_trans l1 l2 l3 :
  continues_plainly l1 l2 → continues_plainly l2 l3 → continues_plainly l1 l3.
Proof.
  intros [(n1 & H1 & F1) G1] [(n2 & H2 & F2) G2]. split; [|congruence].
  exists (n1 ++ n2). rewrite H2, H1, <- app_assoc. split; [done|].
  by apply Forall_app.
Qed.

Lemma log_do_plainly c l :
  on_graylog_target c = false → c ≠ start_graylog → c ≠ stop_graylog →
  continues_plainly l (log_do c l).
Proof.
  intros Hc Hs Ht. split; [|by destruct c].
  exists [c]. split; [done|]. by repeat constructor.
Qed.

Lemma when_plainly b f l :
  (∀ l, continues_plainly l (f l)) → continues_plainly l (when b f l).
Proof. intros Hf. destruct b; [apply Hf | apply plainly_refl]. Qed.

(** The blocks before the graylog block and the timestamp block. *)
Lemma plain_blocks conf changed l :
  continues_plainly l (stderr_block conf changed l) ∧
  continues_plainly l (syslog_block conf changed l) ∧
  continues_plainly l (file_block conf changed l) ∧
  continues_plainly l (prefix_block conf changed l) ∧
  continues_plainly l (max_new_block conf changed l) ∧
  continues_plainly l (max_recent_block conf changed l) ∧
  continues_plainly l (timestamps_block conf changed l).
Proof.
  split_and!; apply when_plainly; intros l';
    try (by apply log_do_plainly).
  eapply plainly_trans; by apply log_do_plainly.
Qed.

(** The graylog block: its calls are not on the target, and it decides
    whether there is one. *)
Lemma graylog_block_spec conf changed l :
  (∃ new, log_calls (graylog_block conf changed l) = log_calls l ++ new ∧
          Forall (λ c, on_graylog_target c = false) new) ∧
  graylog (graylog_block conf changed l)
  = (if (count "log_to_graylog" changed || count "err_to_graylog" changed)%bool
     then (log_to_graylog conf || err_to_graylog conf)%bool
     else graylog l).
Proof.
  unfold graylog_block.
  destruct (count "log_to_graylog" changed || count "err_to_graylog" changed)%bool;
    cbn [when].
  - destruct (log_to_graylog conf), (err_to_graylog conf); cbn;
      (split; [|done]); eexists; (split; [rewrite <- app_assoc; done|]);
      by repeat constructor.
  - split; [|done]. exists []. by rewrite app_nil_r.
Qed.

(** The blocks that act on the target: guarded by its existence. *)
Lemma guarded b c l :
  on_graylog_target c = true →
  continues l (when (graylog l && b) (log_do c) l) ∧
  graylog (when (graylog l && b) (log_do c) l) = graylog l ∧
  (graylog l = false → when (graylog l && b) (log_do c) l = l).
Proof.
  intros Hc. unfold continues.
  destruct (graylog l) eqn:E, b; cbn [andb when]; split_and!; try done.
  - by exists [c].
  - by destruct c.
  - exists []. by rewrite app_nil_r.
  - exists []. by rewrite app_nil_r.
  - exists []. by rewrite app_nil_r.
Qed.

Lemma target_blocks conf changed l :
  (continues l (destination_block conf changed l) ∧
   graylog (destination_block conf changed l) = graylog l ∧
   (graylog l = false → destination_block conf changed l = l)) ∧
  (continues l (host_block conf changed l) ∧
   graylog (host_block conf changed l) = graylog l ∧
   (graylog l = false → host_block conf changed l = l)) ∧
  (continues l (fsid_block conf changed l) ∧
   graylog (fsid_block conf changed l) = graylog l ∧
   (graylog l = false → fsid_block conf changed l = l)).
Proof. split; [|split]; by apply guarded. Qed.

(** X21: the graylog target after [LogObs::handle_conf_change]: when one
    of [log_to_graylog] and [err_to_graylog] changed it exists exactly if
    one of the two is set (the second test of the code never decides
    anything), otherwise it is as before; the calls made before are kept;
    and when no target exists at the end, no destination, host name or
    fsid was set on one. *)
Theorem graylog_follows_its_flags conf changed log :
  graylog (handle_conf_change conf changed log)
    = (if (count "log_to_graylog" changed || count "err_to_graylog" changed)%bool
       then (log_to_graylog conf || err_to_graylog conf)%bool
       else graylog log) ∧
  ∃ new, log_calls (handle_conf_change conf changed log)
         = log_calls log ++ new ∧
         (graylog (handle_conf_change conf changed log) = false →
          Forall (λ c, on_graylog_target c = false) new).
Proof.
  unfold handle_conf_change.
  set (l6 := max_recent_block conf changed _).
  assert (H6 : continues_plainly log l6).
  { subst l6.
    repeat (eapply plainly_trans; [|apply plain_blocks]).
    apply plainly_refl. }
  set (l7 := graylog_block conf changed l6).
  destruct (graylog_block_spec conf changed l6) as [(n7 & E7 & F7) G7].
  fold l7 in E7, G7.
  set (l8 := destination_block conf changed l7).
  destruct (target_blocks conf changed l7) as ((C8 & G8 & I8) & _).
  fold l8 in C8, G8, I8.
  set (l9 := timestamps_block conf changed l8).
  destruct (plain_blocks conf changed l8) as (_ & _ & _ & _ & _ & _ & P9).
  fold l9 in P9.
  set (l10 := host_block conf changed l9).
  destruct (target_blocks conf changed l9) as (_ & (C10 & G10 & I10) & _).
  fold l10 in C10, G10, I10.
  set (l11 := fsid_block conf changed l10).
  destruct (target_blocks conf changed l10) as (_ & _ & (C11 & G11 & I11)).
  fold l11 in C11, G11, I11.
  destruct H6 as [(n6 & E6 & F6) G6].
  destruct P9 as [(n9 & E9 & F9) G9].
  assert (Gend : graylog l11 = graylog l7) by congruence.
  split; [rewrite Gend, G7, G6; done|].
  destruct (graylog l11) eqn:Hend.
  - destruct C8 as [n8 E8], C10 as [n10 E10], C11 as [n11 E11].
    exists (n6 ++ n7 ++ n8 ++ n9 ++ n10 ++ n11). split; [|done].
    rewrite E11, E10, E9, E8, E7, E6, <- !app_assoc. done.
  - assert (L11 : l11 = l10) by (apply I11; congruence).
    assert (L10 : l10 = l9) by (apply I10; congruence).
    assert (L8 : l8 = l7) by (apply I8; congruence).
    exists (n6 ++ n7 ++ n9).
    split; [|intros _; rewrite !Forall_app; auto].
    rewrite L11, L10, E9, L8, E7, E6, <- !app_assoc. done.
Qed.

Example graylog_started_then_addressed :
  log_calls
    (handle_conf_change
       {| log_to_stderr := false; err_to_stderr := false;
          log_to_syslog := false; err_to_syslog := false;
          log_to_file := false; log_file := "";
          log_stderr_prefix := ""; log_max_new := 0; log_max_recent := 0;
          log_to_graylog := false; err_to_graylog := true;
          log_graylog_host := "gl"; log_graylog_port := 12201;
          log_coarse_timestamps := true; host := "node1"; fsid := "f" |}
       {["err_to_graylog"; "log_graylog_port"]} fresh_log)
  = [set_graylog_level (-1) (-1); start_graylog;
     graylog_set_destination "gl" 12201].
Proof. vm_compute. reflexivity. Qed.

Ltac count_false Hnone k :=
  let Hc := fresh "Hc" in
  match type of Hnone with
  | ∀ x, x ∈ ?changed → _ => assert (Hc : count k changed = false)
  end;
  [ apply bool_decide_eq_false_2; intros Hin;
    specialize (Hnone k Hin
                  ltac:(apply (bool_decide_unpack _); vm_compute; exact I));
    discriminate
  | rewrite !Hc; clear Hc ].

(** X22: [LogObs] acts on the keys it tests only: when no tracked key has
    changed, nothing is called on the log.  The same holds when
    [err_to_syslog], which is tracked but never tested, is the only
    tracked key that has changed: the syslog level is not set again. *)
Theorem log_untouched_without_tested_key conf changed log :
  (∀ k, k ∈ changed → k ∈ get_tracked_conf_keys → k = "err_to_syslog") →
  handle_conf_change conf changed log = log.
Proof.
  intros Hnone. unfold handle_conf_change.
  unfold fsid_block, host_block, timestamps_block, destination_block,
    graylog_block, max_recent_block, max_new_block, prefix_block, file_block,
    syslog_block, stderr_block.
  count_false Hnone "log_to_stderr". count_false Hnone "err_to_stderr".
  count_false Hnone "log_to_syslog". count_false Hnone "log_file".
  count_false Hnone "log_to_file". count_false Hnone "log_stderr_prefix".
  count_false Hnone "log_max_new". count_false Hnone "log_max_recent".
  count_false Hnone "log_to_graylog". count_false Hnone "err_to_graylog".
  count_false Hnone "log_graylog_host". count_false Hnone "log_graylog_port".
  count_false Hnone "log_coarse_timestamps". count_false Hnone "host".
  count_false Hnone "fsid".
  cbn. rewrite !andb_false_r. done.
Qed.

Lemma log_untouched_without_tested_key_witness :
  (∀ k, k ∈ ({["err_to_syslog"; "debug_ms"]} : gset string) →
        k ∈ get_tracked_conf_keys → k = "err_to_syslog") ∧
  "err_to_syslog" ∈ get_tracked_conf_keys ∧
  handle_conf_change conf_file_only {["err_to_syslog"; "debug_ms"]} fresh_log
  = fresh_log.
Proof.
  assert (H : ∀ k, k ∈ ({["err_to_syslog"; "debug_ms"]} : gset string) →
                k ∈ get_tracked_conf_keys → k = "err_to_syslog").
  { intros k [->%elem_of_singleton| ->%elem_of_singleton]%elem_of_union Hk;
      [done|].
    exfalso. revert Hk. apply (bool_decide_unpack _). vm_compute. exact I. }
  split; [exact H|]. split; [apply (bool_decide_unpack _); vm_compute; exact I|].
  exact (log_untouched_without_tested_key conf_file_only
           {["err_to_syslog"; "debug_ms"]} fresh_log H).
Defined.

Example log_file_changed :
  log_calls (handle_conf_change conf_file_only {["log_file"; "host"]} fresh_log)
  = [set_log_file "/var/log/ceph/osd.0.log"; reopen_log_file].
Proof. vm_compute. reflexivity. Qed.

End LogObsFacts.

(** ** common_init.cc *)

Module CommonInitFacts.
Import CommonInit.

Lemma complain_loop_spec errors size cur_err :
  (cur_err ≤ MAX_PARSE_ERRORS)%nat →
  complain_loop errors cur_err size
  = take (21 - cur_err) errors
    ++ (if (21 - cur_err <=? length errors)%nat
        then ["Suppressed " +:+ show_nat (size - MAX_PARSE_ERRORS)
              +:+ " more errors."]
        else []).
Proof.
  unfold MAX_PARSE_ERRORS.
  revert cur_err; induction errors as [|p rest IH]; intros cur_err Hle.
  - cbn [complain_loop length].
    destruct (21 - cur_err)%nat as [|k] eqn:Hk; [lia|]. reflexivity.
  - cbn [complain_loop length].
    destruct (Nat.eqb_spec cur_err MAX_PARSE_ERRORS) as [->|Hne];
      unfold MAX_PARSE_ERRORS in *.
    + reflexivity.
    + rewrite IH by lia.
      replace (21 - cur_err)%nat with (S (21 - S cur_err)) by lia.
      cbn [take app Nat.leb]. reflexivity.
Qed.

(** X23 (common_init.cc:58-74, [complain_about_parse_errors]): nothing is
    written for an empty list of errors; otherwise the heading, then the
    first 21 errors in their order, and, when there are at least 21, one
    line that gives the number of errors less 20: one more than the
    number of errors left out. *)
Theorem complain_writes_first_21_errors parse_errors :
  complain_about_parse_errors parse_errors
  = match parse_errors with
    | [] => []
    | _ :: _ =>
        "Errors while parsing config file!" :: take 21 parse_errors
        ++ (if (21 <=? length parse_errors)%nat
            then ["Suppressed " +:+ show_nat (length parse_errors - 20)
                  +:+ " more errors."]
            else [])
    end ∧
  (length parse_errors - 20 = S (length (drop 21 parse_errors))
   ∨ length parse_errors < 21)%nat.
Proof.
  split.
  - destruct parse_errors as [|p rest]; [reflexivity|].
    unfold complain_about_parse_errors.
    rewrite complain_loop_spec by (unfold MAX_PARSE_ERRORS; lia).
    reflexivity.
  - rewrite length_drop. lia.
Qed.

Example complain_21_errors :
  last (complain_about_parse_errors (replicate 21 "bad line"))
  = Some "Suppressed 1 more errors." ∧
  length (complain_about_parse_errors (replicate 21 "bad line")) = 23.
Proof. split; reflexivity. Qed.

Lemma land_lnot_ACCESSPERMS ret :
  Z.land ret (Z.lnot ACCESSPERMS) = 0%Z ↔ (0 ≤ ret ≤ 511)%Z.
Proof.
  unfold ACCESSPERMS.
  change 511%Z with (Z.ones 9).
  rewrite <- Z.ldiff_land, Z.ldiff_ones_r by lia.
  rewrite Z.shiftl_eq_0_iff by lia.
  rewrite Z.shiftr_div_pow2 by lia.
  change (Z.ones 9) with 511%Z. change (2 ^ 9)%Z with 512%Z.
  split; intros H.
  - assert (0 ≤ ret < 512)%Z; [|lia].
    apply Z.div_small_iff in H; lia.
  - apply Z.div_small; lia.
Qed.

Section Finish.

Variables CINIT_FLAG_NO_DAEMON_ACTIONS CINIT_FLAG_DEFER_DROP_PRIVILEGES : Z.
Variable strict_strtol : string → Z → Z * string.

Lemma common_init_finish_once started started' cct :
  common_init_finish CINIT_FLAG_NO_DAEMON_ACTIONS
    CINIT_FLAG_DEFER_DROP_PRIVILEGES strict_strtol started'
    (common_init_finish CINIT_FLAG_NO_DAEMON_ACTIONS
       CINIT_FLAG_DEFER_DROP_PRIVILEGES strict_strtol started cct).2
  = ([], (common_init_finish CINIT_FLAG_NO_DAEMON_ACTIONS
            CINIT_FLAG_DEFER_DROP_PRIVILEGES strict_strtol started cct).2).
Proof.
  unfold common_init_finish.
  destruct (_finished cct) eqn:Hf; cbn; [rewrite Hf|]; reflexivity.
Qed.

Lemma chmod_in_effects started cct mode :
  In (admin_socket_chmod mode)
     (common_init_finish CINIT_FLAG_NO_DAEMON_ACTIONS
        CINIT_FLAG_DEFER_DROP_PRIVILEGES strict_strtol started cct).1 →
  _finished cct = false ∧
  In (admin_socket_chmod mode) (set_admin_socket_mode strict_strtol cct).
Proof.
  unfold common_init_finish.
  destruct (_finished cct); cbn [fst]; [intros []|].
  intros Hin; split; [reflexivity|].
  repeat (apply in_app_or in Hin; destruct Hin as [Hin|Hin]);
    try assumption; repeat case_match; cbn in Hin; intuition congruence.
Qed.

End Finish.

(** X24 (common_init.cc:79-119, [common_init_finish]): the mode of the
    admin socket is changed only at the first call for a context, only
    when a socket path and a mode are configured, and only to what
    [strict_strtol] read without an error from the configured mode, a
    number within the permission bits 0..0777. *)
Theorem chmod_only_with_permission_bits
    (CINIT_FLAG_NO_DAEMON_ACTIONS CINIT_FLAG_DEFER_DROP_PRIVILEGES : Z)
    (strict_strtol : string → Z → Z * string) started cct mode :
  In (admin_socket_chmod mode)
     (common_init_finish CINIT_FLAG_NO_DAEMON_ACTIONS
        CINIT_FLAG_DEFER_DROP_PRIVILEGES strict_strtol started cct).1 →
  _finished cct = false ∧
  admin_socket cct ≠ "" ∧ admin_socket_mode cct ≠ "" ∧
  strict_strtol (admin_socket_mode cct) 8%Z = (mode, "") ∧
  (0 ≤ mode ≤ 511)%Z.
Proof.
  intros Hin. apply chmod_in_effects in Hin as [Hf Hin].
  split; [exact Hf|].
  unfold set_admin_socket_mode in Hin.
  destruct (String.eqb_spec (admin_socket cct) "") as [|Hs];
    [cbn in Hin; contradiction|].
  destruct (String.eqb_spec (admin_socket_mode cct) "") as [|Hm];
    [cbn in Hin; contradiction|].
  cbn [negb andb] in Hin.
  destruct (strict_strtol (admin_socket_mode cct) 8%Z) as [ret err].
  destruct (String.eqb_spec err "") as [Herr|Herr];
    [subst err|cbn in Hin; intuition congruence].
  destruct (Z.eqb_spec (Z.land ret (Z.lnot ACCESSPERMS)) 0) as [Hz|];
    [|cbn in Hin; intuition congruence].
  cbn in Hin. destruct Hin as [Hin|[]]. injection Hin as ->.
  apply land_lnot_ACCESSPERMS in Hz. auto.
Qed.

Lemma chmod_only_with_permission_bits_witness :
  In (admin_socket_chmod 416)
     (common_init_finish 1 2 strtol_0640 false cct_with_socket).1 ∧
  _finished cct_with_socket = false ∧
  admin_socket cct_with_socket ≠ "" ∧
  admin_socket_mode cct_with_socket ≠ "" ∧
  strtol_0640 (admin_socket_mode cct_with_socket) 8%Z = (416%Z, "") ∧
  (0 ≤ 416 ≤ 511)%Z.
Proof.
  assert (Hin : In (admin_socket_chmod 416)
                  (common_init_finish 1 2 strtol_0640 false cct_with_socket).1)
    by (vm_compute; tauto).
  split; [exact Hin|].
  apply (chmod_only_with_permission_bits 1 2 strtol_0640 false
           cct_with_socket 416 Hin).
Defined.

End CommonInitFacts.

(** ** The service thread *)

Module ServiceThreadFacts.
Import ServiceThread.

Lemma exit_delivered l t :
  _exit_thread (fold_left deliver l t)
  = (_exit_thread t || bool_decide (call_exit_thread ∈ l))%bool.
Proof.
  revert t; induction l as [|s l IH]; intros t; cbn [fold_left].
  - rewrite bool_decide_eq_false_2 by set_solver. by rewrite orb_false_r.
  - rewrite IH. destruct s; cbn [deliver _exit_thread].
    + destruct (_exit_thread t); [reflexivity|]. cbn [orb].
      apply bool_decide_ext. rewrite elem_of_cons. intuition discriminate.
    + rewrite (bool_decide_eq_true_2 (call_exit_thread ∈ _ :: l))
        by set_solver.
      by rewrite orb_true_r.
Qed.

Lemma reopen_delivered l t :
  _reopen_logs (fold_left deliver l t)
  = (_reopen_logs t || bool_decide (call_reopen_logs ∈ l))%bool.
Proof.
  revert t; induction l as [|s l IH]; intros t; cbn [fold_left].
  - rewrite bool_decide_eq_false_2 by set_solver. by rewrite orb_false_r.
  - rewrite IH. destruct s; cbn [deliver _reopen_logs].
    + rewrite (bool_decide_eq_true_2 (call_reopen_logs ∈ _ :: l))
        by set_solver.
      by rewrite orb_true_r.
    + destruct (_reopen_logs t); [reflexivity|]. cbn [orb].
      apply bool_decide_ext. rewrite elem_of_cons. intuition discriminate.
Qed.

(** A turn goes on exactly when no exit has been asked for. *)
Lemma turn_goes_on before during t :
  (turn before during t).2
  = negb (_exit_thread t || bool_decide (call_exit_thread ∈ before ++ during)).
Proof.
  unfold turn.
  pose proof (exit_delivered before t) as H1.
  pose proof (exit_delivered during (fold_left deliver before t)) as H2.
  destruct (_exit_thread (fold_left deliver before t)) eqn:E1.
  - cbn [snd]. symmetry in H1. apply orb_true_iff in H1 as [->|H1];
      [reflexivity|].
    apply bool_decide_eq_true in H1.
    rewrite (bool_decide_eq_true_2 (_ ∈ before ++ during)) by set_solver.
    by rewrite orb_true_r.
  - symmetry in H1. apply orb_false_iff in H1 as [Ht Hb].
    apply bool_decide_eq_false in Hb. rewrite Ht in *. cbn [orb] in *.
    destruct (_exit_thread (fold_left deliver during _)) eqn:E2.
    + cbn [snd]. symmetry in H2. apply bool_decide_eq_true in H2.
      rewrite bool_decide_eq_true_2 by set_solver. reflexivity.
    + symmetry in H2. apply bool_decide_eq_false in H2.
      rewrite bool_decide_eq_false_2 by (rewrite elem_of_app; tauto).
      destruct (_reopen_logs _); reflexivity.
Qed.

Lemma turn_stops_idle before during t :
  (turn before during t).2 = false → (turn before during t).1.1 = [].
Proof.
  unfold turn. repeat case_match; cbn; congruence.
Qed.

Lemma turn_keeps_exit before during t :
  (turn before during t).2 = true →
  _exit_thread (turn before during t).1.2 = false.
Proof.
  unfold turn. repeat case_match; cbn; congruence.
Qed.

Lemma entry_cons before during rest t :
  entry ((before, during) :: rest) t
  = if (turn before during t).2
    then ((turn before during t).1.1 ++ (entry rest (turn before during t).1.2).1.1,
          (entry rest (turn before during t).1.2).1.2,
          (entry rest (turn before during t).1.2).2)
    else ((turn before during t).1.1, (turn before during t).1.2, true).
Proof.
  cbn [entry]. destruct (turn before during t) as [[w t'] [|]]; cbn [fst snd].
  - destruct (entry rest t') as [[ws t''] e]; reflexivity.
  - reflexivity.
Qed.

Lemma entry_ended schedule t :
  (entry schedule t).2
  = (_exit_thread t || bool_decide (call_exit_thread ∈ signals schedule))%bool
    && bool_decide (schedule ≠ []).
Proof.
  revert t; induction schedule as [|[b d] rest IH]; intros t.
  - cbn. by rewrite andb_false_r.
  - rewrite entry_cons. rewrite (bool_decide_eq_true_2 (_ :: _ ≠ [])) by done.
    rewrite andb_true_r.
    pose proof (turn_goes_on b d t) as Hgo.
    unfold signals; cbn [flat_map fst snd]; fold (signals rest).
    destruct (turn b d t).2 eqn:Ht.
    + cbn [snd]. symmetry in Hgo. apply negb_true_iff in Hgo.
      apply orb_false_iff in Hgo as [He Hbd].
      apply bool_decide_eq_false in Hbd.
      rewrite IH, He, (turn_keeps_exit b d t Ht). cbn [orb].
      destruct rest as [|x rest'].
      * cbn. rewrite andb_false_r. symmetry. apply bool_decide_eq_false.
        rewrite app_nil_r. exact Hbd.
      * rewrite (bool_decide_eq_true_2 (_ :: _ ≠ [])) by done.
        rewrite andb_true_r. apply bool_decide_ext.
        rewrite (elem_of_app (b ++ d)). tauto.
    + cbn [snd]. symmetry in Hgo. apply negb_false_iff in Hgo.
      apply orb_true_iff in Hgo as [->|Hbd]; [reflexivity|].
      apply bool_decide_eq_true in Hbd.
      rewrite bool_decide_eq_true_2 by (apply elem_of_app; auto).
      by rewrite orb_true_r.
Qed.

Lemma entry_work_app s1 s2 t :
  (entry (s1 ++ s2) t).1.1
  = if (entry s1 t).2 then (entry s1 t).1.1
    else (entry s1 t).1.1 ++ (entry s2 (entry s1 t).1.2).1.1.
Proof.
  revert t; induction s1 as [|[b d] s1 IH]; intros t.
  - reflexivity.
  - cbn [app]. rewrite !entry_cons.
    destruct (turn b d t).2; cbn [fst snd]; [|reflexivity].
    rewrite IH. destruct (entry s1 _).2; [reflexivity|].
    by rewrite app_assoc.
Qed.

Lemma entry_not_ended_exit schedule t :
  (entry schedule t).2 = false → schedule ≠ [] →
  _exit_thread (entry schedule t).1.2 = false.
Proof.
  revert t; induction schedule as [|[b d] rest IH]; intros t He Hne; [done|].
  rewrite entry_cons in He |- *.
  destruct (turn b d t).2 eqn:Ht; cbn [fst snd] in *; [|done].
  destruct rest as [|x rest']; [cbn; by apply turn_keeps_exit|].
  apply IH; done.
Qed.

(** X25 (ceph_context.cc:144-172 and 181-186,
    [CephContextServiceThread::entry] and [exit_thread]): after one or
    more turns the loop has ended exactly when an exit was asked for,
    before the thread started or in one of the turns; and from
    the turn in which the exit was asked for the thread does no more
    work: no log file reopened, no heartbeat file touched, no counters
    refreshed, whatever is asked later. *)
Theorem entry_ends_on_exit_request schedule t :
  ((entry schedule t).2 = true ↔
   schedule ≠ [] ∧
   (_exit_thread t = true ∨ call_exit_thread ∈ signals schedule)) ∧
  (∀ s1 before during s2,
     schedule = s1 ++ (before, during) :: s2 →
     call_exit_thread ∈ before ++ during →
     (entry schedule t).1.1 = (entry s1 t).1.1).
Proof.
  split.
  - rewrite entry_ended, andb_true_iff, orb_true_iff,
      !bool_decide_eq_true. tauto.
  - intros s1 b d s2 -> Hin.
    rewrite entry_work_app.
    destruct (entry s1 t).2 eqn:He; [reflexivity|].
    rewrite entry_cons.
    pose proof (turn_goes_on b d (entry s1 t).1.2) as Hgo.
    rewrite (bool_decide_eq_true_2 _ Hin), orb_true_r in Hgo.
    cbn [negb] in Hgo. rewrite Hgo. cbn [fst].
    rewrite (turn_stops_idle _ _ _ Hgo). by rewrite app_nil_r.
Qed.

Example exit_while_waiting :
  entry [([], [call_reopen_logs]); ([call_reopen_logs], [call_exit_thread]);
         ([call_reopen_logs], [])] new_thread
  = ([reopen_log_file; check_touch_file; refresh_perf_values],
     {| _reopen_logs := true; _exit_thread := true |}, true).
Proof. reflexivity. Qed.

Lemma count_work_app w l1 l2 :
  count_work w (l1 ++ l2) = (count_work w l1 + count_work w l2)%nat.
Proof. unfold count_work. by rewrite filter_app, length_app. Qed.

Lemma count_signal_app s l1 l2 :
  count_signal s (l1 ++ l2) = (count_signal s l1 + count_signal s l2)%nat.
Proof. unfold count_signal. by rewrite filter_app, length_app. Qed.

Lemma count_signal_pos s l : s ∈ l → (0 < count_signal s l)%nat.
Proof.
  intros Hin. unfold count_signal.
  destruct (filter (λ x, x = s) l) as [|y ys] eqn:Hf; [|cbn; lia].
  assert (s ∈ filter (λ x, x = s) l) as Hs
    by (apply list_elem_of_filter; done).
  rewrite Hf in Hs. set_solver.
Qed.

(** Counts over a list that is written out. *)
Ltac count_closed :=
  repeat match goal with
         | |- context [count_work ?w (?x :: ?l)] =>
             let v := eval vm_compute in (count_work w (x :: l)) in
             change (count_work w (x :: l)) with v
         | |- context [count_work ?w []] =>
             change (count_work w []) with 0%nat
         end.

(** The work of one turn: a heartbeat touch and a refresh when it goes
    on, with one reopening in front when one was asked for. *)
Lemma turn_work before during t :
  turn before during t
  = if (turn before during t).2
    then ((if (_reopen_logs t
               || bool_decide (call_reopen_logs ∈ before ++ during))%bool
           then [reopen_log_file] else [])
          ++ [check_touch_file; refresh_perf_values],
          {| _reopen_logs := false; _exit_thread := false |}, true)
    else ([], (turn before during t).1.2, false).
Proof.
  pose proof (turn_keeps_exit before during t) as Hk.
  unfold turn in *.
  pose proof (reopen_delivered during (fold_left deliver before t)) as H2.
  rewrite (reopen_delivered before t) in H2.
  destruct (_exit_thread (fold_left deliver before t)); [reflexivity|].
  destruct (_exit_thread (fold_left deliver during _)) eqn:E2; [reflexivity|].
  rewrite (bool_decide_ext _ _ (elem_of_app before during call_reopen_logs)),
    bool_decide_or.
  rewrite orb_assoc, <- H2.
  destruct (_reopen_logs (fold_left deliver during _)) eqn:Er; cbn [snd app].
  - reflexivity.
  - destruct (fold_left deliver during _) as [r e]; cbn in *.
    by subst.
Qed.

(** X26 (ceph_context.cc:144-172, [CephContextServiceThread::entry]):
    over any schedule the heartbeat file is touched as often as the
    counters are refreshed, the log file is reopened at most once per
    touch, and at most as often as a reopening was asked for, counting a
    request pending at the start: requests are merged, none is
    invented. *)
Theorem entry_housekeeping_counts schedule t :
  count_work check_touch_file (entry schedule t).1.1
  = count_work refresh_perf_values (entry schedule t).1.1 ∧
  (count_work reopen_log_file (entry schedule t).1.1
   ≤ count_work check_touch_file (entry schedule t).1.1)%nat ∧
  (count_work reopen_log_file (entry schedule t).1.1
   ≤ count_signal call_reopen_logs (signals schedule)
     + (if _reopen_logs t then 1 else 0))%nat.
Proof.
  revert t; induction schedule as [|[b d] rest IH]; intros t.
  - cbn. lia.
  - rewrite entry_cons.
    unfold signals; cbn [flat_map fst snd]; fold (signals rest).
    rewrite (count_signal_app _ (b ++ d)).
    rewrite (turn_work b d t).
    destruct (turn b d t).2; cbn [fst snd].
    + specialize (IH {| _reopen_logs := false; _exit_thread := false |}).
      cbn [_reopen_logs] in IH.
      rewrite !count_work_app.
      destruct (_reopen_logs t) eqn:Hr; cbn [orb].
      * count_closed. lia.
      * destruct (bool_decide (call_reopen_logs ∈ b ++ d)) eqn:Hbd.
        -- apply bool_decide_eq_true in Hbd.
           apply count_signal_pos in Hbd. count_closed. lia.
        -- count_closed. lia.
    + count_closed. lia.
Qed.

Lemma entry_not_ended_reopen schedule t :
  (entry schedule t).2 = false → schedule ≠ [] →
  _reopen_logs (entry schedule t).1.2 = false.
Proof.
  revert t; induction schedule as [|[b d] rest IH]; intros t He Hne; [done|].
  rewrite entry_cons in He |- *. rewrite (turn_work b d t) in He |- *.
  destruct (turn b d t).2 eqn:Ht; cbn [fst snd] in *; [|done].
  destruct rest as [|x rest']; [reflexivity|].
  apply IH; done.
Qed.

(** When the thread has gone through all the turns of a schedule, a
    reopening asked for in it has been served. *)
Lemma completed_turns_serve_reopen schedule t :
  (entry schedule t).2 = false →
  call_reopen_logs ∈ signals schedule →
  In reopen_log_file (entry schedule t).1.1 ∧
  _reopen_logs (entry schedule t).1.2 = false.
Proof.
  revert t; induction schedule as [|[b d] rest IH]; intros t He Hin.
  - unfold signals in Hin; cbn in Hin. by apply elem_of_nil in Hin.
  - rewrite entry_cons in He |- *.
    unfold signals in Hin; cbn [flat_map fst snd] in Hin; fold (signals rest) in Hin.
    rewrite (turn_work b d t) in He |- *.
    destruct (turn b d t).2 eqn:Ht; cbn [fst snd] in *; [|done].
    apply elem_of_app in Hin as [Hin|Hin].
    + rewrite (bool_decide_eq_true_2 _ Hin), orb_true_r.
      split; [cbn; auto|].
      destruct rest as [|x rest']; [reflexivity|].
      apply entry_not_ended_reopen; done.
    + destruct (IH _ He Hin) as [Hw Hf].
      split; [apply in_or_app; right; exact Hw | exact Hf].
Qed.

Lemma entry_waiting_cons hb before during rest t :
  entry_waiting hb ((before, during) :: rest) t
  = if (negb (_exit_thread (fold_left deliver before t))
        && negb (wait_returns hb during))%bool
    then ([], fold_left deliver before t, in_wait)
    else if (turn before during t).2
         then ((turn before during t).1.1
               ++ (entry_waiting hb rest (turn before during t).1.2).1.1,
               (entry_waiting hb rest (turn before during t).1.2).1.2,
               (entry_waiting hb rest (turn before during t).1.2).2)
         else ((turn before during t).1.1, (turn before during t).1.2,
               returned).
Proof.
  cbn [entry_waiting]. destruct (_ && _)%bool; [reflexivity|].
  destruct (turn before during t) as [[w t'] [|]]; cbn [fst snd].
  - destruct (entry_waiting hb rest t') as [[ws t''] st]; reflexivity.
  - reflexivity.
Qed.

(** A thread that is between two turns at the end has gone through all
    of them. *)
Lemma entry_waiting_at_loop_top hb schedule t :
  (entry_waiting hb schedule t).2 = at_loop_top →
  (entry schedule t).2 = false ∧
  (entry_waiting hb schedule t).1 = (entry schedule t).1.
Proof.
  revert t; induction schedule as [|[b d] rest IH]; intros t; [done|].
  rewrite entry_waiting_cons, entry_cons.
  destruct (_ && _)%bool; [done|].
  destruct (turn b d t).2; cbn [fst snd]; [|done].
  intros Hst. destruct (IH _ Hst) as [He Heq]. split; [exact He|].
  destruct (entry_waiting hb rest (turn b d t).1.2) as [[ws t2] st].
  destruct (entry rest (turn b d t).1.2) as [[ws' t2'] e].
  cbn [fst snd] in *. by injection Heq as -> ->.
Qed.

(** A thread that is never told to exit does not leave [entry], and it
    stays in a wait only when no heartbeat interval is set. *)
Lemma entry_waiting_without_exit hb schedule t :
  _exit_thread t = false →
  call_exit_thread ∉ signals schedule →
  (entry_waiting hb schedule t).2 = at_loop_top ∨
  (entry_waiting hb schedule t).2 = in_wait ∧ hb = 0%Z.
Proof.
  revert t; induction schedule as [|[b d] rest IH]; intros t Ht Hno;
    [by left|].
  unfold signals in Hno; cbn [flat_map fst snd] in Hno;
    fold (signals rest) in Hno.
  rewrite !elem_of_app in Hno.
  rewrite entry_waiting_cons, exit_delivered, Ht.
  rewrite (bool_decide_eq_false_2 (call_exit_thread ∈ b)) by tauto.
  cbn [orb negb andb].
  destruct (wait_returns hb d) eqn:Hw; cbn [negb].
  - pose proof (turn_goes_on b d t) as Hgo.
    rewrite Ht, bool_decide_eq_false_2 in Hgo
      by (rewrite elem_of_app; tauto).
    cbn [orb negb] in Hgo. rewrite Hgo. cbn [snd].
    apply IH; [by apply turn_keeps_exit | tauto].
  - cbn [snd]. right. split; [done|].
    unfold wait_returns in Hw. apply orb_false_iff in Hw as [Hw _].
    apply negb_false_iff in Hw. by apply Z.eqb_eq in Hw.
Qed.

Lemma entry_waiting_app hb s1 s2 t :
  (entry_waiting hb s1 t).2 = at_loop_top →
  entry_waiting hb (s1 ++ s2) t
  = ((entry_waiting hb s1 t).1.1
     ++ (entry_waiting hb s2 (entry_waiting hb s1 t).1.2).1.1,
     (entry_waiting hb s2 (entry_waiting hb s1 t).1.2).1.2,
     (entry_waiting hb s2 (entry_waiting hb s1 t).1.2).2).
Proof.
  revert t; induction s1 as [|[b d] s1 IH]; intros t.
  - intros _. cbn [app entry_waiting fst snd].
    by destruct (entry_waiting hb s2 t) as [[w t'] st].
  - cbn [app]. rewrite !entry_waiting_cons.
    destruct (_ && _)%bool; [done|].
    destruct (turn b d t).2; cbn [fst snd]; [|done].
    intros Hst. rewrite (IH _ Hst). cbn [fst snd]. by rewrite app_assoc.
Qed.

Lemma entry_waiting_keeps_exit hb schedule t :
  _exit_thread t = false →
  (entry_waiting hb schedule t).2 = at_loop_top →
  _exit_thread (entry_waiting hb schedule t).1.2 = false.
Proof.
  revert t; induction schedule as [|[b d] rest IH]; intros t Ht; [done|].
  rewrite entry_waiting_cons.
  destruct (_ && _)%bool; [done|].
  destruct (turn b d t).2 eqn:Hgo; cbn [fst snd]; [|done].
  apply IH. by apply turn_keeps_exit.
Qed.

(** X27 (ceph_context.cc:144-172 and 174-179,
    [CephContextServiceThread::entry] and [reopen_logs]): a thread that
    is not told to exit and is asked to reopen the log file.  When it has
    gone through the turns, the log file has been reopened and no request
    is left pending.  With a heartbeat interval set it always goes
    through them, since every wait ends with the interval.  With the
    interval 0 it can stay in a wait, and a request made before it begins
    to wait, in whichever turn, with no call made while it waits, is lost
    on it: the thread waits with the request pending and does nothing
    more. *)
Theorem reopen_request_is_served heartbeat_interval schedule t :
  _exit_thread t = false →
  call_exit_thread ∉ signals schedule →
  call_reopen_logs ∈ signals schedule →
  ((entry_waiting heartbeat_interval schedule t).2 = at_loop_top →
   In reopen_log_file (entry_waiting heartbeat_interval schedule t).1.1 ∧
   _reopen_logs (entry_waiting heartbeat_interval schedule t).1.2 = false) ∧
  ((entry_waiting heartbeat_interval schedule t).2 = at_loop_top ∨
   (entry_waiting heartbeat_interval schedule t).2 = in_wait ∧
   heartbeat_interval = 0%Z) ∧
  (∀ past before rest,
     schedule = past ++ (before, []) :: rest → heartbeat_interval = 0%Z →
     (entry_waiting heartbeat_interval past t).2 = at_loop_top →
     call_reopen_logs ∈ before →
     (entry_waiting heartbeat_interval schedule t).2 = in_wait ∧
     (entry_waiting heartbeat_interval schedule t).1.1
     = (entry_waiting heartbeat_interval past t).1.1 ∧
     _reopen_logs (entry_waiting heartbeat_interval schedule t).1.2 = true).
Proof.
  intros Ht Hno Hin. split_and!.
  - intros Hst.
    destruct (entry_waiting_at_loop_top _ _ _ Hst) as [He Heq].
    rewrite Heq. by apply completed_turns_serve_reopen.
  - by apply entry_waiting_without_exit.
  - intros s1 before rest -> -> Hst Hb.
    assert (Hnb : call_exit_thread ∉ before).
    { intros Hb'. apply Hno. unfold signals. rewrite flat_map_app.
      apply elem_of_app. right. cbn [flat_map fst snd].
      rewrite !elem_of_app. tauto. }
    rewrite (entry_waiting_app 0 s1 _ t Hst), entry_waiting_cons.
    rewrite exit_delivered, (entry_waiting_keeps_exit 0 s1 t Ht Hst).
    rewrite (bool_decide_eq_false_2 (call_exit_thread ∈ before)) by done.
    cbn [orb negb andb wait_returns Z.eqb fst snd].
    split; [reflexivity|]. split; [by rewrite app_nil_r|].
    rewrite reopen_delivered, (bool_decide_eq_true_2 _ Hb).
    by rewrite orb_true_r.
Qed.

Lemma reopen_request_is_served_witness :
  _exit_thread new_thread = false ∧
(call_exit_thread ∉ signals [([call_reopen_logs], []); ([], [])]) ∧
  call_reopen_logs ∈ signals [([call_reopen_logs], []); ([], [])] ∧
  In reopen_log_file
     (entry_waiting 5 [([call_reopen_logs], []); ([], [])] new_thread).1.1 ∧
  (entry_waiting 0 [([call_reopen_logs], []); ([], [])] new_thread).2
  = in_wait.
Proof.
  assert (Hno : call_exit_thread
                ∉ signals [([call_reopen_logs], []); ([], [])])
    by (apply (bool_decide_unpack _); vm_compute; exact I).
  assert (Hin : call_reopen_logs
                ∈ signals [([call_reopen_logs], []); ([], [])])
    by (apply (bool_decide_unpack _); vm_compute; exact I).
  split; [reflexivity|]. split; [exact Hno|]. split; [exact Hin|]. split.
  - apply (proj1 (reopen_request_is_served 5
                    [([call_reopen_logs], []); ([], [])] new_thread
                    eq_refl Hno Hin)).
    reflexivity.
  - apply (proj2 (proj2 (reopen_request_is_served 0
                           [([call_reopen_logs], []); ([], [])] new_thread
                           eq_refl Hno Hin))
             [] [call_reopen_logs] [([], [])] eq_refl eq_refl eq_refl).
    apply (bool_decide_unpack _). vm_compute. exact I.
Defined.

End ServiceThreadFacts.

Module ServiceControlFacts.
Import ServiceThread.

Lemma count_call_app c l1 l2 :
  count_call c (l1 ++ l2) = (count_call c l1 + count_call c l2)%nat.
Proof. unfold count_call. by rewrite filter_app, length_app. Qed.

Ltac count_calls :=
  repeat match goal with
         | |- context [count_call ?c (?x :: ?l)] =>
             let v := eval vm_compute in (count_call c (x :: l)) in
             change (count_call c (x :: l)) with v
         | |- context [count_call ?c []] =>
             change (count_call c []) with 0%nat
         end.

Lemma run_service_snoc F ops o cct :
  run_service F (ops ++ [o]) cct = service_step F (run_service F ops cct) o.
Proof. unfold run_service. by rewrite fold_left_app. Qed.

(** X28 (ceph_context.cc:604-657, [start_service_thread],
    [join_service_thread], [reopen_logs]): over any sequence of the three
    calls the init flags stay as they are; a thread is created as often
    as one is joined plus the one that runs at the end, less the one that
    ran at the start; and the counters of the context are enabled once
    with every thread created and disabled once with every thread joined
    when they are switched on, never when they are switched off. *)
Theorem service_thread_calls_balance F ops cct :
  init_flags (run_service F ops cct).2 = init_flags cct ∧
  (count_call thread_create (run_service F ops cct).1 + threads cct
   = count_call thread_join (run_service F ops cct).1
     + threads (run_service F ops cct).2)%nat ∧
  count_call enable_perf_counter (run_service F ops cct).1
  = (if perf_counters F cct
     then count_call thread_create (run_service F ops cct).1 else 0%nat) ∧
  count_call disable_perf_counter (run_service F ops cct).1
  = (if perf_counters F cct
     then count_call thread_join (run_service F ops cct).1 else 0%nat).
Proof.
  induction ops as [|o ops IH] using rev_ind.
  - cbn. split_and!; [done|lia|by destruct (perf_counters F cct)..].
  - rewrite run_service_snoc.
    destruct (run_service F ops cct) as [calls s]. cbn [fst snd] in IH.
    destruct IH as (Hfl & Hth & Hen & Hdis).
    assert (Hperf : perf_counters F s = perf_counters F cct)
      by (unfold perf_counters; by rewrite Hfl).
    unfold threads in *.
    destruct o; unfold service_step; cbn [fst snd].
    + unfold start_service_thread.
      destruct (_service_thread s) eqn:Hs; cbn [fst snd].
      * rewrite app_nil_r, Hs. done.
      * rewrite Hperf. cbn [with_thread init_flags _service_thread].
        rewrite !count_call_app.
        split; [done|].
        destruct (perf_counters F cct), (log_flush_on_exit s),
          (String.length (admin_socket s) =? 0)%nat;
          count_calls; lia.
    + unfold join_service_thread.
      destruct (_service_thread s) eqn:Hs; cbn [fst snd].
      * rewrite Hperf. cbn [with_thread init_flags _service_thread].
        rewrite !count_call_app.
        split; [done|].
        destruct (perf_counters F cct); count_calls; lia.
      * rewrite app_nil_r, Hs. done.
    + unfold reopen_logs.
      destruct (_service_thread s) eqn:Hs;
        cbn [with_thread init_flags _service_thread]; [|rewrite Hs]; done.
Qed.

Example start_twice_join_twice :
  (run_service 8 [op_start_service_thread; op_start_service_thread;
                  op_reopen_logs; op_join_service_thread;
                  op_join_service_thread]
     {| _service_thread := None; init_flags := 0;
        log_flush_on_exit := false; admin_socket := "" |}).1
  = [thread_create; enable_perf_counter; set_safe_to_start_threads;
     call_all_observers; thread_join; disable_perf_counter].
Proof. reflexivity. Qed.

End ServiceControlFacts.

(** ** The reference count *)

Module RefCountFacts.
Import RefCount.
Open Scope Z_scope.

Lemma gets_cons o l :
  gets (o :: l) = (match o with op_get => 1 | op_put => 0 end) + gets l.
Proof.
  unfold gets. rewrite filter_cons.
  destruct o; destruct (decide _) as [E|E]; try congruence;
    cbn [length]; lia.
Qed.

Lemma puts_cons o l :
  puts (o :: l) = (match o with op_get => 0 | op_put => 1 end) + puts l.
Proof.
  unfold puts. rewrite filter_cons.
  destruct o; destruct (decide _) as [E|E]; try congruence;
    cbn [length]; lia.
Qed.

Lemma gets_nonneg l : 0 ≤ gets l.
Proof. unfold gets. lia. Qed.

Lemma puts_nonneg l : 0 ≤ puts l.
Proof. unfold puts. lia. Qed.

Lemma run_refs_app a b n :
  run_refs (a ++ b) n
  = match run_refs a n with Some m => run_refs b m | None => None end.
Proof.
  revert n; induction a as [|o a IH]; intros n; [reflexivity|].
  destruct o; cbn [app run_refs]; [apply IH|].
  destruct (put n); [apply IH|reflexivity].
Qed.

Lemma run_refs_balanced ops n :
  1 ≤ n → n + gets ops < 2 ^ 32 →
  (∀ k, puts (take k ops) < n + gets (take k ops)) →
  run_refs ops n = Some (n + gets ops - puts ops).
Proof.
  revert n; induction ops as [|o ops IH]; intros n Hn Hmax Hpre.
  - cbn. f_equal. unfold gets, puts. cbn. lia.
  - rewrite gets_cons in Hmax. rewrite gets_cons, puts_cons.
    pose proof (gets_nonneg ops).
    destruct o; cbn [run_refs].
    + unfold get, wrap. rewrite Z.mod_small by lia.
      rewrite IH; [f_equal; lia|lia|lia|].
      intros k. specialize (Hpre (S k)). cbn [take] in Hpre.
      rewrite gets_cons, puts_cons in Hpre. lia.
    + assert (2 ≤ n).
      { specialize (Hpre 1%nat). cbn [take] in Hpre.
        rewrite gets_cons, puts_cons, take_0 in Hpre.
        unfold gets, puts in Hpre. cbn in Hpre. lia. }
      unfold put, wrap. rewrite Z.mod_small by lia.
      destruct (Z.eqb_spec (n - 1) 0); [lia|].
      rewrite IH; [f_equal; lia|lia|lia|].
      intros k. specialize (Hpre (S k)). cbn [take] in Hpre.
      rewrite gets_cons, puts_cons in Hpre. lia.
Qed.

(** X29 (ceph_context.h:74-77 [get], ceph_context.cc:594-602 [put]): from
    a count of at least 1, as long as every [put] so far was covered by
    the initial count and the [get]s before it, and the count stays below
    2^32, the context is alive and its count is the initial one plus the
    [get]s less the [put]s; one more [put] then deletes it exactly when
    that count is 1. *)
Theorem context_lives_while_referenced ops n :
  1 ≤ n → n + gets ops < 2 ^ 32 →
  (∀ k, puts (take k ops) < n + gets (take k ops)) →
  run_refs ops n = Some (n + gets ops - puts ops) ∧
  run_refs (ops ++ [op_put]) n
  = (if n + gets ops - puts ops =? 1 then None
     else Some (n + gets ops - puts ops - 1)).
Proof.
  intros Hn Hmax Hpre.
  pose proof (run_refs_balanced ops n Hn Hmax Hpre) as Hrun.
  split; [exact Hrun|].
  rewrite run_refs_app, Hrun. cbn [run_refs].
  specialize (Hpre (length ops)). rewrite take_ge in Hpre by lia.
  pose proof (gets_nonneg ops). pose proof (puts_nonneg ops).
  unfold put, wrap. rewrite Z.mod_small by lia.
  destruct (Z.eqb_spec (n + gets ops - puts ops) 1) as [E|E].
  - rewrite E. reflexivity.
  - destruct (Z.eqb_spec (n + gets ops - puts ops - 1) 0); [lia|].
    reflexivity.
Qed.

Lemma context_lives_while_referenced_witness :
  run_refs [op_get; op_put; op_get; op_get; op_put] 1 = Some 2 ∧
  run_refs ([op_get; op_put; op_get; op_get; op_put] ++ [op_put]) 1 = Some 1.
Proof.
  apply (context_lives_while_referenced
           [op_get; op_put; op_get; op_get; op_put] 1).
  - lia.
  - vm_compute. reflexivity.
  - intros k. do 6 (destruct k as [|k]; [vm_compute; reflexivity|]).
    vm_compute. reflexivity.
Defined.

Example count_wraps_to_zero :
  get (2 ^ 32 - 1) = 0 ∧ put 0 = Some (2 ^ 32 - 1).
Proof. split; reflexivity. Qed.

Close Scope Z_scope.
End RefCountFacts.

(** ** The prefix providers *)

Module DoutFacts.
Import Dout.

Lemma prefix_app_nil_r s : s +:+ "" = s.
Proof.
  induction s as [|c s IH]; [reflexivity|].
  change (String c s +:+ "") with (String c (s +:+ "")). by rewrite IH.
Qed.

Lemma prefix_app_assoc s1 s2 s3 : (s1 +:+ s2) +:+ s3 = s1 +:+ (s2 +:+ s3).
Proof.
  induction s1 as [|c s1 IH]; [reflexivity|].
  change (String c s1 +:+ s2) with (String c (s1 +:+ s2)).
  change (String c (s1 +:+ s2) +:+ s3) with (String c ((s1 +:+ s2) +:+ s3)).
  change (String c s1 +:+ (s2 +:+ s3)) with (String c (s1 +:+ (s2 +:+ s3))).
  by rewrite IH.
Qed.

Lemma concat_snoc l a :
  String.concat "" (l ++ [a]) = String.concat "" l +:+ a.
Proof.
  induction l as [|b l IH]; [reflexivity|].
  destruct l as [|b' l]; [reflexivity|].
  change (String.concat "" ((b :: b' :: l) ++ [a]))
    with (b +:+ String.concat "" ((b' :: l) ++ [a])).
  change (String.concat "" (b :: b' :: l))
    with (b +:+ String.concat "" (b' :: l)).
  by rewrite IH, prefix_app_assoc.
Qed.

Lemma gen_prefix_appends p out : gen_prefix p out = out +:+ gen_prefix p "".
Proof.
  induction p as [cct subsys|cct subsys prefix|dpp IH add]; cbn [gen_prefix].
  - by rewrite prefix_app_nil_r.
  - reflexivity.
  - by rewrite IH, prefix_app_assoc.
Qed.

(** X30 (dout.h:49-87, [NoDoutPrefix], [DoutPrefix], [DoutPrefixPipe]):
    a provider only appends to the stream: what was written before stays
    in front; pipes stacked on a provider write its prefix first and
    then their own texts from the innermost to the outermost, and answer
    with the context and the subsystem of the provider at the bottom. *)
Theorem pipes_append_and_forward p adds out :
  gen_prefix p out = out +:+ gen_prefix p "" ∧
  gen_prefix (pipe_stack p adds) out
  = gen_prefix p out +:+ String.concat "" adds ∧
  get_cct (pipe_stack p adds) = get_cct p ∧
  get_subsys (pipe_stack p adds) = get_subsys p.
Proof.
  split; [apply gen_prefix_appends|].
  unfold pipe_stack.
  induction adds as [|a adds IH] using rev_ind.
  - cbn. by rewrite prefix_app_nil_r.
  - rewrite fold_left_app. cbn [fold_left gen_prefix get_cct get_subsys].
    destruct IH as (-> & -> & ->). split; [|done].
    by rewrite prefix_app_assoc, concat_snoc.
Qed.

Example two_pipes :
  gen_prefix (pipe_stack (DoutPrefix 1 7 "osd.0 ") ["pg 1.2 "; "op 9 "]) "> "
  = "> osd.0 pg 1.2 op 9 ".
Proof. reflexivity. Qed.

End DoutFacts.
